(** * fhirpathjs-async-poc: the collect / resolve / replay driver

    A shallow embedding of [utils/fhirpath-async.ts] (the revision with the
    [toAge], [resolve] and [memberOf] handlers and the [Promise.all] resolve
    phase), of the earlier revision whose adapters are in-memory stubs, and of
    [utils/birthdate-to-age.ts].

    The FHIRPath engine is an external collaborator.  A run of
    [fhirpath.evaluate] on fixed data, expression and environment is
    represented by the tree of handler invocations it performs ([Eval]); the
    network is a parameter ([World]). *)

From Stdlib Require Import List String Ascii ZArith Bool Lia Arith PeanoNat.
From Stdlib Require Import DecimalString Permutation Sorted.
Import ListNotations.
Open Scope list_scope.
Open Scope string_scope.

Set Implicit Arguments.
Set Warnings "-register-all".

(* ===================================================================== *)
(** * JavaScript values *)
(* ===================================================================== *)

(** The handlers receive [any[]].  Values are JSON-shaped; a number is an
    integer (the only numbers this code produces are ages). *)
Inductive Value : Type :=
| VUndefined
| VNull
| VBool (b : bool)
| VNum (n : Z)
| VStr (s : string)
| VArr (xs : list Value)
| VObj (fields : list (string * Value)).

(** A JavaScript completion: a value, or a [throw]. *)
Inductive Completion (A : Type) : Type :=
| Normal (a : A)
| Thrown (err : Value).
Arguments Normal {A} a.
Arguments Thrown {A} err.

Module JS.

(** [if (v)] *)
Definition truthy (v : Value) : bool :=
  match v with
  | VUndefined | VNull => false
  | VBool b => b
  | VNum n => negb (n =? 0)%Z
  | VStr s => negb (s =? "")
  | VArr _ | VObj _ => true
  end.

Fixpoint assoc (name : string) (fields : list (string * Value)) : Value :=
  match fields with
  | [] => VUndefined
  | (k, v) :: rest => if k =? name then v else assoc name rest
  end.

(** [array.join(sep)] on an array of strings. *)
Fixpoint join (sep : string) (parts : list string) : string :=
  match parts with
  | [] => ""
  | [p] => p
  | p :: rest => p ++ sep ++ join sep rest
  end.

Definition numberToString (n : Z) : string :=
  NilZero.string_of_int (Z.to_int n).

(** [ToString(v)], as applied by [+] with a string operand.  An array
    prints its elements separated by commas, [null] and [undefined]
    elements as the empty string. *)
Fixpoint toString (v : Value) : string :=
  match v with
  | VUndefined => "undefined"
  | VNull => "null"
  | VBool true => "true"
  | VBool false => "false"
  | VNum n => numberToString n
  | VStr s => s
  | VArr xs =>
      join "," (map (fun x => match x with
                              | VUndefined | VNull => ""
                              | _ => toString x
                              end) xs)
  | VObj _ => "[object Object]"
  end.

(** A thrown [Error]: an object with a [message]. *)
Definition Error (message : string) : Value :=
  VObj [("name", VStr "Error"); ("message", VStr message)].

(** A [TypeError]; the wording of its message depends on the engine, only
    that it is a non-empty string matters below. *)
Definition TypeError (message : string) : Value :=
  VObj [("name", VStr "TypeError"); ("message", VStr message)].

(** [v.name] for the property names this code reads ([code], [system],
    [coding], [reference], [message]): none of them is defined on a
    prototype, so only an object can have one; reading a property of
    [undefined] or [null] throws. *)
Definition getProp (v : Value) (name : string) : Completion Value :=
  match v with
  | VUndefined => Thrown (TypeError ("Cannot read properties of undefined (reading '" ++ name ++ "')"))
  | VNull => Thrown (TypeError ("Cannot read properties of null (reading '" ++ name ++ "')"))
  | VObj fields => Normal (assoc name fields)
  | _ => Normal VUndefined
  end.

(** The same read where the receiver is known not to be [undefined] or
    [null] (it was tested for truthiness, or it is a caught exception). *)
Definition prop (v : Value) (name : string) : Value :=
  match v with
  | VObj fields => assoc name fields
  | _ => VUndefined
  end.

(** [v === s] for a string [s] *)
Definition strictEqualsString (v : Value) (s : string) : bool :=
  match v with VStr s' => s' =? s | _ => false end.

(** [v ?? d] *)
Definition coalesce (v d : Value) : Value :=
  match v with VUndefined | VNull => d | _ => v end.

(** [v !== undefined] *)
Definition isDefined (v : Value) : bool :=
  match v with VUndefined => false | _ => true end.

End JS.

(* ===================================================================== *)
(** * Completions and the evaluation-scoped state *)
(* ===================================================================== *)

(** [details.asyncFunction]: which adapter resolves the record. *)
Inductive AsyncFunction : Type :=
| resolveAsyncFn
| memberOfAsyncFn.

(** [AsyncFunctionUserData], with the fields of its two extensions
    [ResolveUserData] ([value]) and [MemberOfUserData] ([value],
    [valueSet]). *)
Record AsyncFunctionUserData : Type := mkDetails {
  evaluationCompleted : bool;
  asyncFunction : AsyncFunction;
  result : Value;
  value : Value;
  valueSet : Value
}.

(** One [logMessage(debugAsyncFhirpath, outcome, text, data)] call. *)
Record LogEntry : Type := mkLog {
  logText : string;
  logData : Value
}.

(** The variables [evaluateFhirpathAsync] closes over.  [asyncCallsRequired]
    is a JavaScript [Map]: keys are unique and iterate in insertion order.
    [adapterCalls] is a ghost trace: the key of every record handed to
    [details.asyncFunction], in call order. *)
Record State : Type := mkState {
  results : list Value;
  outcome : list LogEntry;
  asyncCallsRequired : list (string * AsyncFunctionUserData);
  requiresAsyncProcessing : bool;
  iterations : nat;
  adapterCalls : list string
}.

Definition initialState : State :=
  {| results := [];
     outcome := [];
     asyncCallsRequired := [];
     requiresAsyncProcessing := false;
     iterations := 0;
     adapterCalls := [] |}.

Module JsMap.

(** [map.get(key)] *)
Fixpoint get {V : Type} (key : string) (m : list (string * V)) : option V :=
  match m with
  | [] => None
  | (k, v) :: rest => if k =? key then Some v else get key rest
  end.

(** [map.set(key, v)]: an existing key keeps its position. *)
Fixpoint set {V : Type} (key : string) (v : V) (m : list (string * V)) : list (string * V) :=
  match m with
  | [] => [(key, v)]
  | (k, v0) :: rest => if k =? key then (k, v) :: rest else (k, v0) :: set key v rest
  end.

(** [map.keys()] *)
Definition keys {V : Type} (m : list (string * V)) : list string := map fst m.

(** [map.size] *)
Definition size {V : Type} (m : list (string * V)) : nat := List.length m.

End JsMap.

(** [asyncCallsRequired.get(key)?.evaluationCompleted], as a condition. *)
Definition isCompleted (key : string) (st : State) : bool :=
  match JsMap.get key (asyncCallsRequired st) with
  | Some details => evaluationCompleted details
  | None => false
  end.

(** [asyncCallsRequired.get(key)?.result] *)
Definition cachedResult (key : string) (st : State) : Value :=
  match JsMap.get key (asyncCallsRequired st) with
  | Some details => result details
  | None => VUndefined
  end.

(** Code that runs inside a synchronous pass: it reads and writes the
    state and may throw. *)
Definition Sync (A : Type) : Type := State -> Completion A * State.

Definition ret {A : Type} (a : A) : Sync A := fun st => (Normal a, st).

Definition throw {A : Type} (err : Value) : Sync A := fun st => (Thrown err, st).

Definition bind {A B : Type} (m : Sync A) (f : A -> Sync B) : Sync B :=
  fun st =>
    match m st with
    | (Normal a, st') => f a st'
    | (Thrown err, st') => (Thrown err, st')
    end.

Definition lift {A : Type} (c : Completion A) : Sync A := fun st => (c, st).

Declare Scope sync_scope.
Delimit Scope sync_scope with sync.
Notation "x <- m ;; k" := (bind m (fun x => k))
  (at level 61, m at next level, right associativity) : sync_scope.
Notation "m ;;; k" := (bind m (fun _ => k))
  (at level 61, right associativity) : sync_scope.
Open Scope sync_scope.

(** [array.map(f)] with an effectful callback: elements in order, a [throw]
    abandons the rest. *)
Fixpoint mapM {A B : Type} (f : A -> Sync B) (xs : list A) : Sync (list B) :=
  match xs with
  | [] => ret []
  | x :: rest =>
      y <- f x ;;
      ys <- mapM f rest ;;
      ret (y :: ys)
  end.

(** Modelled from the spec: [logMessage] of [~/utils/outcome-utils] is not
    among the sources; with the trace toggle on it records the message and
    its datum in the evaluation's outcome. *)
Definition logMessage (text : string) (data : Value) : Sync unit :=
  fun st =>
    (Normal tt,
     {| results := results st;
        outcome := (outcome st ++ [mkLog text data])%list;
        asyncCallsRequired := asyncCallsRequired st;
        requiresAsyncProcessing := requiresAsyncProcessing st;
        iterations := iterations st;
        adapterCalls := adapterCalls st |}).

(** [asyncCallsRequired.set(key, details)] *)
Definition setRequired (key : string) (details : AsyncFunctionUserData) : Sync unit :=
  fun st =>
    (Normal tt,
     {| results := results st;
        outcome := outcome st;
        asyncCallsRequired := JsMap.set key details (asyncCallsRequired st);
        requiresAsyncProcessing := requiresAsyncProcessing st;
        iterations := iterations st;
        adapterCalls := adapterCalls st |}).

(** [requiresAsyncProcessing = b] *)
Definition setRequiresAsyncProcessing (b : bool) : Sync unit :=
  fun st =>
    (Normal tt,
     {| results := results st;
        outcome := outcome st;
        asyncCallsRequired := asyncCallsRequired st;
        requiresAsyncProcessing := b;
        iterations := iterations st;
        adapterCalls := adapterCalls st |}).

Definition getState : Sync State := fun st => (Normal st, st).

(* ===================================================================== *)
(** * The [Date] built-in, as far as [birthdate-to-age.ts] uses it *)
(* ===================================================================== *)

Module JsDate.

Open Scope Z_scope.

Definition msPerDay : Z := 86400000.

(** Day number (days since 1970-01-01) of a proleptic Gregorian date;
    linear in [d], so a day past the end of the month runs on into the
    next one, as [MakeDay] does. *)
Definition daysFromCivil (y m d : Z) : Z :=
  let y' := if m <=? 2 then y - 1 else y in
  let era := y' / 400 in
  let yoe := y' - era * 400 in
  let mp := if 2 <? m then m - 3 else m + 9 in
  let doy := (153 * mp + 2) / 5 + d - 1 in
  let doe := yoe * 365 + yoe / 4 - yoe / 100 + doy in
  era * 146097 + doe - 719468.

(** Year, month (1..12) and day of month of a day number. *)
Definition civilFromDays (z : Z) : Z * Z * Z :=
  let z' := z + 719468 in
  let era := z' / 146097 in
  let doe := z' - era * 146097 in
  let yoe := (doe - doe / 1460 + doe / 36524 - doe / 146096) / 365 in
  let doy := doe - (365 * yoe + yoe / 4 - yoe / 100) in
  let mp := (5 * doy + 2) / 153 in
  let d := doy - (153 * mp + 2) / 5 + 1 in
  let m := if mp <? 10 then mp + 3 else mp - 9 in
  let y := yoe + era * 400 in
  (if m <=? 2 then y + 1 else y, m, d).

Definition Day (t : Z) : Z := t / msPerDay.

Definition YearFromTime (t : Z) : Z := fst (fst (civilFromDays (Day t))).

(** Months count from 0 in the [Date] API. *)
Definition MonthFromTime (t : Z) : Z := snd (fst (civilFromDays (Day t))) - 1.

Definition DateFromTime (t : Z) : Z := snd (civilFromDays (Day t)).

Definition isDigit (c : ascii) : bool :=
  let n := nat_of_ascii c in (48 <=? n)%nat && (n <=? 57)%nat.

Definition digit (c : ascii) : Z := Z.of_nat (nat_of_ascii c) - 48.

Definition isHyphen (c : ascii) : bool := (c =? "-")%char.

(** [/^\d{4}-\d{2}-\d{2}$/.test(s)] *)
Definition dateRegexTest (s : string) : bool :=
  match list_ascii_of_string s with
  | [y1; y2; y3; y4; h1; m1; m2; h2; d1; d2] =>
      isDigit y1 && isDigit y2 && isDigit y3 && isDigit y4 && isHyphen h1 &&
      isDigit m1 && isDigit m2 && isHyphen h2 && isDigit d1 && isDigit d2
  | _ => false
  end.

(** The year, month and day fields of a string of that shape. *)
Definition dateFields (s : string) : Z * Z * Z :=
  match list_ascii_of_string s with
  | [y1; y2; y3; y4; _; m1; m2; _; d1; d2] =>
      (1000 * digit y1 + 100 * digit y2 + 10 * digit y3 + digit y4,
       10 * digit m1 + digit m2,
       10 * digit d1 + digit d2)
  | _ => (0, 0, 0)
  end.

(** The time value of [new Date(s)] for a string of the shape
    [YYYY-MM-DD] (the only strings this code constructs a date from), read
    as UTC; [None] is the invalid date, whose [getTime()] is [NaN].  A month
    outside 1..12 or a day outside 1..31 is invalid; a day past the end of
    its month is carried into the next month (V8; an engine that rejects it
    gives [NaN] instead, and [isValidDateString] answers the same). *)
Definition parse (s : string) : option Z :=
  let '(y, m, d) := dateFields s in
  if (1 <=? m) && (m <=? 12) && (1 <=? d) && (d <=? 31)
  then Some (daysFromCivil y m d * msPerDay)
  else None.

(** The character of a decimal digit. *)
Definition digitChar (k : Z) : ascii := ascii_of_nat (48 + Z.to_nat k).

(** The last [width] decimal digits of [n], written before [rest]. *)
Fixpoint digits (width : nat) (n : Z) (rest : string) : string :=
  match width with
  | O => rest
  | S width' => digits width' (n / 10) (String (digitChar (n mod 10)) rest)
  end.

(** A field of [toISOString]: [n] in [width] digits, zeros in front. *)
Definition pad (width : nat) (n : Z) : string := digits width n "".

(** [date.toISOString().split('T')[0]] *)
Definition toISODate (t : Z) : string :=
  let '(y, m, d) := civilFromDays (Day t) in
  let year :=
    if (0 <=? y) && (y <=? 9999) then pad 4 y
    else if y <? 0 then "-" ++ pad 6 (- y)
    else "+" ++ pad 6 y in
  year ++ "-" ++ pad 2 m ++ "-" ++ pad 2 d.

End JsDate.

(* ===================================================================== *)
(** * The world outside the evaluation *)
(* ===================================================================== *)

(** An HTTP request, before encoding: [fetch(url + "?" + query)] or
    [fetch(url, { method: "POST", body: JSON.stringify(body) })]. *)
Inductive Request : Type :=
| GET (url : string) (query : list (string * string))
| POST (url : string) (body : Value).

(** What [await fetch(..)] followed by [await response.json()] gives. *)
Inductive Response : Type :=
| FetchRejects (err : Value)
| JsonRejects (err : Value)
| Json (resultJson : Value).

(** [fetch]: the servers' answers.  [latency]: when the adapter call for a
    registry key settles, relative to the other calls of its batch.
    [now]: the time value of [new Date()].  [localTZA]: the offset of local
    time from UTC at a time value, in milliseconds. *)
Record World : Type := mkWorld {
  fetch : Request -> Response;
  latency : string -> nat;
  now : Z;
  localTZA : Z -> Z
}.

(** Modelled from the spec: [CreateOperationOutcome] of
    [~/utils/outcome-utils] is not among the sources; it builds the
    structured diagnostic, one issue carrying the severity, the code, the
    human-readable detail and the optional coding and diagnostics. *)
Definition CreateOperationOutcome
    (severity code : string) (message coding diagnostics : Value) : Value :=
  VObj [("resourceType", VStr "OperationOutcome");
        ("issue",
         VArr [VObj [("severity", VStr severity);
                     ("code", VStr code);
                     ("details", VObj [("text", message); ("coding", coding)]);
                     ("diagnostics", diagnostics)]])].

(* ===================================================================== *)
(** * Fingerprints *)
(* ===================================================================== *)

(** [createIndexKeyResolve(value)] *)
Definition createIndexKeyResolve (value : Value) : Value :=
  match value with
  | VStr _ => value
  | _ => if JS.truthy value then JS.prop value "reference" else value
  end.

(** The callback [(c) => c.system + "|" + c.code]. *)
Definition codingKey (c : Value) : Completion string :=
  match JS.getProp c "system", JS.getProp c "code" with
  | Normal system, Normal code => Normal (JS.toString system ++ "|" ++ JS.toString code)
  | Thrown err, _ => Thrown err
  | _, Thrown err => Thrown err
  end.

(** [codings.map(codingKey)], stopping at the first [throw]. *)
Fixpoint codingKeys (codings : list Value) : Completion (list string) :=
  match codings with
  | [] => Normal []
  | c :: rest =>
      match codingKey c with
      | Thrown err => Thrown err
      | Normal k =>
          match codingKeys rest with
          | Thrown err => Thrown err
          | Normal ks => Normal (k :: ks)
          end
      end
  end.

(** [createIndexKeyMemberOf(value, valueset)]: a string, or [undefined]. *)
Definition createIndexKeyMemberOf (value valueset : Value) : Completion Value :=
  match value with
  | VStr s => Normal (VStr (s ++ " - " ++ JS.toString valueset))
  | _ =>
      match JS.getProp value "code" with
      | Thrown err => Thrown err
      | Normal code =>
          if JS.truthy code then
            Normal (VStr (JS.toString (JS.prop value "system") ++ "|" ++ JS.toString code
                          ++ " - " ++ JS.toString valueset))
          else
            let coding := JS.prop value "coding" in
            if JS.truthy coding then
              match coding with
              | VArr codings =>
                  match codingKeys codings with
                  | Thrown err => Thrown err
                  | Normal ks => Normal (VStr (JS.join "," ks ++ " - " ++ JS.toString valueset))
                  end
              | _ => Thrown (JS.TypeError "cc.coding.map is not a function")
              end
            else Normal VUndefined
      end
  end.

(* ===================================================================== *)
(** * [birthdate-to-age.ts] *)
(* ===================================================================== *)

(** [isValidDateString(dateString)].  [RegExp.test] and [new Date] convert
    their argument to a string first. *)
Definition isValidDateString (dateString : Value) : bool :=
  if negb (JsDate.dateRegexTest (JS.toString dateString)) then false
  else
    match JsDate.parse (JS.toString dateString) with
    | None => false
    | Some timestamp => JS.strictEqualsString dateString (JsDate.toISODate timestamp)
    end.

Section Clock.

Variable world : World.

Definition LocalTime (t : Z) : Z := (t + localTZA world t)%Z.

Definition getFullYear (t : Z) : Z := JsDate.YearFromTime (LocalTime t).
Definition getMonth (t : Z) : Z := JsDate.MonthFromTime (LocalTime t).
Definition getDate (t : Z) : Z := JsDate.DateFromTime (LocalTime t).

(** [birthdateToAge(birthDate)] *)
Definition birthdateToAge (birthDate : Value) : Value :=
  if negb (isValidDateString birthDate) then VUndefined
  else
    match JsDate.parse (JS.toString birthDate) with
    | None => VUndefined
    | Some birth =>
        let today := now world in
        let age := (getFullYear today - getFullYear birth)%Z in
        if (getMonth today <? getMonth birth)%Z
           || ((getMonth today =? getMonth birth)%Z && (getDate today <? getDate birth)%Z)
        then VNum (age - 1)
        else VNum age
    end.

End Clock.

(* ===================================================================== *)
(** * The synchronous evaluator, seen from the driver *)
(* ===================================================================== *)

(** One run of [fhirpath.evaluate(fhirData, path, context, model, options)]
    for fixed arguments: it returns its result list, throws, or invokes a
    function of the [userInvocationTable] on an input collection and goes on
    with what the function returned.  The engine is deterministic, so every
    pass of one evaluation runs the same tree. *)
Inductive Eval : Type :=
| Return (values : list Value)
| Raise (err : Value)
| CallToAge (inputs : list Value) (k : list Value -> Eval)
| CallResolve (inputs : list Value) (k : list Value -> Eval)
| CallMemberOf (inputs : list Value) (valueSet : string) (k : list Value -> Eval).

Section UserInvocationTable.

Variable world : World.

Definition getCompleted (key : string) : Sync bool :=
  fun st => (Normal (isCompleted key st), st).

Definition getCachedResult (key : string) : Sync Value :=
  fun st => (Normal (cachedResult key st), st).

(** The callback of [toAge.fn]. *)
Definition toAgeElement (reference : Value) : Sync Value :=
  let key := createIndexKeyResolve reference in
  let key := if JS.truthy key then VStr ("Resolve:" ++ JS.toString key) else key in
  let ageResult := birthdateToAge world reference in
  logMessage " performing toAge(): " key ;;;
  ret ageResult.

(** [userInvocationTable.toAge.fn(inputs)] *)
Definition toAge (inputs : list Value) : Sync (list Value) :=
  output <- mapM toAgeElement inputs ;;
  ret (filter JS.isDefined output).

(** The callback of [resolve.fn]. *)
Definition resolveElement (reference : Value) : Sync Value :=
  let key := createIndexKeyResolve reference in
  if JS.truthy key then
    let key := "Resolve:" ++ JS.toString key in
    completed <- getCompleted key ;;
    if (completed : bool) then
      logMessage "  using cached result for: " (VStr key) ;;;
      getCachedResult key
    else
      let details :=
        {| evaluationCompleted := false;
           asyncFunction := resolveAsyncFn;
           result := VUndefined;
           value := reference;
           valueSet := VUndefined |} in
      setRequired key details ;;;
      logMessage "  requires async evaluation for: " (VStr key) ;;;
      setRequiresAsyncProcessing true ;;;
      ret VUndefined
  else ret VUndefined.

(** [userInvocationTable.resolve.fn(inputs)] *)
Definition resolve (inputs : list Value) : Sync (list Value) :=
  output <- mapM resolveElement inputs ;;
  ret (filter JS.isDefined output).

(** The callback of [memberOf.fn]. *)
Definition memberOfElement (valueSet : string) (codeData : Value) : Sync Value :=
  key <- lift (createIndexKeyMemberOf codeData (VStr valueSet)) ;;
  if JS.truthy key then
    let key := "MemberOf:" ++ JS.toString key in
    completed <- getCompleted key ;;
    if (completed : bool) then
      logMessage "  using cached result for: " (VStr key) ;;;
      getCachedResult key
    else
      let details :=
        {| evaluationCompleted := false;
           asyncFunction := memberOfAsyncFn;
           result := VUndefined;
           value := codeData;
           valueSet := VStr valueSet |} in
      setRequired key details ;;;
      logMessage "  requires async evaluation for: " (VStr key) ;;;
      setRequiresAsyncProcessing true ;;;
      ret VUndefined
  else ret VUndefined.

(** [userInvocationTable.memberOf.fn(inputs, valueSet)] *)
Definition memberOf (inputs : list Value) (valueSet : string) : Sync (list Value) :=
  output <- mapM (memberOfElement valueSet) inputs ;;
  ret (filter JS.isDefined output).

(** [fhirpath.evaluate(..., options)] with the table above. *)
Fixpoint evaluate (e : Eval) : Sync (list Value) :=
  match e with
  | Return values => ret values
  | Raise err => throw err
  | CallToAge inputs k => output <- toAge inputs ;; evaluate (k output)
  | CallResolve inputs k => output <- resolve inputs ;; evaluate (k output)
  | CallMemberOf inputs valueSet k => output <- memberOf inputs valueSet ;; evaluate (k output)
  end.

End UserInvocationTable.

(* ===================================================================== *)
(** * The adapters *)
(* ===================================================================== *)

Definition requestUrl : string := "https://r4.ontoserver.csiro.au/fhir/ValueSet/$validate-code".

Definition markCompleted (details : AsyncFunctionUserData) : AsyncFunctionUserData :=
  {| evaluationCompleted := true;
     asyncFunction := asyncFunction details;
     result := result details;
     value := value details;
     valueSet := valueSet details |}.

Definition setResult (r : Value) (details : AsyncFunctionUserData) : AsyncFunctionUserData :=
  {| evaluationCompleted := evaluationCompleted details;
     asyncFunction := asyncFunction details;
     result := r;
     value := value details;
     valueSet := valueSet details |}.

(** [parameter.find((p) => p.name === "result")] *)
Fixpoint findResult (parameter : list Value) : Completion Value :=
  match parameter with
  | [] => Normal VUndefined
  | p :: rest =>
      match JS.getProp p "name" with
      | Thrown err => Thrown err
      | Normal name => if JS.strictEqualsString name "result" then Normal p else findResult rest
      end
  end.

(** The request [memberOfAsync] sends for a record, by the shape of its
    value; [None] when no branch sends one. *)
Definition memberOfRequest (details : AsyncFunctionUserData) : Completion (option Request) :=
  match JS.getProp (value details) "coding" with
  | Thrown err => Thrown err
  | Normal coding =>
      if JS.truthy coding then
        Normal (Some (POST requestUrl
          (VObj [("resourceType", VStr "Parameters");
                 ("parameter",
                  VArr [VObj [("name", VStr "url"); ("valueUri", valueSet details)];
                        VObj [("name", VStr "codeableConcept");
                              ("valueCodeableConcept", value details)]])])))
      else
        match value details with
        | VStr code =>
            Normal (Some (GET requestUrl
              [("url", JS.toString (valueSet details)); ("code", code)]))
        | _ =>
            let code := JS.prop (value details) "code" in
            if JS.truthy code then
              Normal (Some (GET requestUrl
                [("url", JS.toString (JS.coalesce (valueSet details) (VStr "")));
                 ("system", JS.toString (JS.coalesce (JS.prop (value details) "system") (VStr "")));
                 ("code", JS.toString code)]))
            else Normal None
        end
  end.

Section Adapters.

Variable world : World.

(** [resolveAsync(outcome, details)]: the record as the call leaves it,
    and the reason when the returned promise rejects. *)
Definition resolveAsync (details : AsyncFunctionUserData) : AsyncFunctionUserData * option Value :=
  let URL := createIndexKeyResolve (value details) in
  if JS.truthy URL then
    match fetch world (GET (JS.toString URL) []) with
    | Json resultJson =>
        (markCompleted (setResult resultJson details), None)
    | FetchRejects err | JsonRejects err =>
        (markCompleted (setResult VUndefined details),
         Some (CreateOperationOutcome "error" "exception"
                 (VStr ("Failed to resolve reference: " ++ JS.toString URL))
                 VUndefined (JS.prop err "message")))
    end
  else (details, None).

(** The [try] block of [memberOfAsync]. *)
Definition memberOfAsyncTry (details : AsyncFunctionUserData)
  : AsyncFunctionUserData * Completion unit :=
  match memberOfRequest details with
  | Thrown err => (details, Thrown err)
  | Normal None => (details, Normal tt)
  | Normal (Some request) =>
      match fetch world request with
      | FetchRejects err | JsonRejects err => (details, Thrown err)
      | Json resultJson =>
          let found :=
            if JS.truthy resultJson && JS.truthy (JS.prop resultJson "parameter") then
              match JS.prop resultJson "parameter" with
              | VArr parameter => findResult parameter
              | _ => Thrown (JS.TypeError "params.parameter.find is not a function")
              end
            else Normal VUndefined in
          match found with
          | Thrown err => (details, Thrown err)
          | Normal param =>
              let details1 :=
                if JS.truthy param
                then setResult (JS.prop param "valueBoolean") (markCompleted details)
                else details in
              if JS.truthy resultJson && JS.truthy (JS.prop resultJson "issue")
              then (markCompleted details1, Thrown resultJson)
              else (details1, Normal tt)
          end
      end
  end.

(** [memberOfAsync(outcome, details)] *)
Definition memberOfAsync (details : AsyncFunctionUserData) : AsyncFunctionUserData * option Value :=
  match memberOfAsyncTry details with
  | (details1, Normal _) => (details1, None)
  | (details1, Thrown err) =>
      let details2 := markCompleted details1 in
      match createIndexKeyMemberOf (value details2) (valueSet details2) with
      | Thrown err' => (details2, Some err')
      | Normal key =>
          (details2,
           Some (CreateOperationOutcome "error" "exception"
                   (VStr ("Failed to check membership: " ++ JS.toString key))
                   VUndefined (JS.prop err "message")))
      end
  end.

(** [details.asyncFunction(outcome, details)] *)
Definition callAsyncFunction (details : AsyncFunctionUserData) : AsyncFunctionUserData * option Value :=
  match asyncFunction details with
  | resolveAsyncFn => resolveAsync details
  | memberOfAsyncFn => memberOfAsync details
  end.

End Adapters.

(* ===================================================================== *)
(** * The driver *)
(* ===================================================================== *)

(** The bound in [while (requiresAsyncProcessing && iterations < 10)]. *)
Definition maxIterations : nat := 10.

(** How the promise returned by [evaluateFhirpathAsync] settles, with the
    evaluation's variables as they are at that moment. *)
Inductive Settled : Type :=
| Fulfilled (values : list Value) (final : State)
| Rejected (reason : Value) (final : State).

Definition withRegistry (m : list (string * AsyncFunctionUserData)) (st : State) : State :=
  {| results := results st;
     outcome := outcome st;
     asyncCallsRequired := m;
     requiresAsyncProcessing := requiresAsyncProcessing st;
     iterations := iterations st;
     adapterCalls := adapterCalls st |}.

Definition withResults (values : list Value) (st : State) : State :=
  {| results := values;
     outcome := outcome st;
     asyncCallsRequired := asyncCallsRequired st;
     requiresAsyncProcessing := requiresAsyncProcessing st;
     iterations := iterations st;
     adapterCalls := adapterCalls st |}.

Definition incrementIterations (st : State) : State :=
  {| results := results st;
     outcome := outcome st;
     asyncCallsRequired := asyncCallsRequired st;
     requiresAsyncProcessing := requiresAsyncProcessing st;
     iterations := S (iterations st);
     adapterCalls := adapterCalls st |}.

Definition recordAdapterCall (key : string) (st : State) : State :=
  {| results := results st;
     outcome := outcome st;
     asyncCallsRequired := asyncCallsRequired st;
     requiresAsyncProcessing := requiresAsyncProcessing st;
     iterations := iterations st;
     adapterCalls := (adapterCalls st ++ [key])%list |}.

(** Run a state action that cannot throw. *)
Definition exec (m : Sync unit) (st : State) : State := snd (m st).

Section Driver.

Variable world : World.

(** Whether the adapter call for a record sends a request before its first
    [await]; a call that sends none settles without waiting. *)
Definition sendsRequest (details : AsyncFunctionUserData) : bool :=
  match asyncFunction details with
  | resolveAsyncFn => JS.truthy (createIndexKeyResolve (value details))
  | memberOfAsyncFn =>
      match memberOfRequest details with
      | Normal (Some _) => true
      | _ => false
      end
  end.

Definition settleTime (key : string) (details : AsyncFunctionUserData) : nat :=
  if sendsRequest details then S (latency world key) else 0.

(** The loop [for (let key of asyncCallsRequired.keys())]: every record
    that is not completed is logged and handed to its adapter, which sends
    its request; the keys of the calls now in flight are returned in the
    order they were started, each with the time it will settle. *)
Fixpoint startPending (keys : list string) (st : State) : list (string * nat) * State :=
  match keys with
  | [] => ([], st)
  | key :: rest =>
      match JsMap.get key (asyncCallsRequired st) with
      | Some details =>
          if negb (evaluationCompleted details) then
            let st1 := exec (logMessage "  performing async request for: " (VStr key)) st in
            let '(started, st2) := startPending rest (recordAdapterCall key st1) in
            ((key, settleTime key details) :: started, st2)
          else startPending rest st
      | None => startPending rest st
      end
  end.

(** The calls of a batch settle by increasing time, calls of equal time in
    the order they were started. *)
Fixpoint settleInsert (call : string * nat) (order : list (string * nat)) : list (string * nat) :=
  match order with
  | [] => [call]
  | c :: rest =>
      if (snd call <=? snd c)%nat then call :: c :: rest
      else c :: settleInsert call rest
  end.

Definition settleOrder (started : list (string * nat)) : list string :=
  map fst (fold_right settleInsert [] started).

(** [await Promise.all(asyncPromises)]: the calls settle one after the
    other, each writing its record when it does; the first rejection rejects
    the combined promise, and the driver goes on from there with the
    records of the calls still in flight untouched. *)
Fixpoint promiseAll (order : list string) (st : State) : State * option Value :=
  match order with
  | [] => (st, None)
  | key :: rest =>
      match JsMap.get key (asyncCallsRequired st) with
      | None => promiseAll rest st
      | Some details =>
          let '(details', rejection) := callAsyncFunction world details in
          let st' := withRegistry (JsMap.set key details' (asyncCallsRequired st)) st in
          match rejection with
          | Some reason => (st', Some reason)
          | None => promiseAll rest st'
          end
      end
  end.

(** The block guarded by [if (asyncCallsRequired.size > 0)]. *)
Definition resolvePhase (st : State) : State * option Value :=
  if (0 <? JsMap.size (asyncCallsRequired st))%nat then
    let '(started, st1) := startPending (JsMap.keys (asyncCallsRequired st)) st in
    match promiseAll (settleOrder started) st1 with
    | (st2, Some reason) => (st2, Some reason)
    | (st2, None) => (exec (setRequiresAsyncProcessing false) st2, None)
    end
  else (st, None).

(** The [try { results = fhirpath.evaluate(...) } catch ...] statement. *)
Definition evaluatePass (e : Eval) (st : State) : State * option Value :=
  match evaluate world e st with
  | (Normal values, st') => (withResults values st', None)
  | (Thrown err, st') =>
      if JS.truthy (JS.prop err "message")
      then (st', Some (CreateOperationOutcome "fatal" "exception"
                         (JS.prop err "message") VUndefined VUndefined))
      else (st', None)
  end.

(** The body of the [do ... while] loop. *)
Definition iteration (e : Eval) (st : State) : State * option Value :=
  let st1 := incrementIterations st in
  match resolvePhase st1 with
  | (st2, Some reason) => (st2, Some reason)
  | (st2, None) =>
      let st3 := exec (logMessage "performing iteration: " (VNum (Z.of_nat (iterations st2)))) st2 in
      evaluatePass e st3
  end.

(** What follows the loop. *)
Definition finish (st : State) : Settled :=
  let st' :=
    if (1 <? iterations st)%nat
    then exec (logMessage "total iterations" (VNum (Z.of_nat (iterations st)))) st
    else st in
  Fulfilled (results st') st'.

(** [do { ... } while (requiresAsyncProcessing && iterations < 10)];
    [fuel] bounds the number of times the body may still run. *)
Fixpoint doWhile (fuel : nat) (e : Eval) (st : State) : option Settled :=
  match fuel with
  | O => None
  | S fuel' =>
      match iteration e st with
      | (st', Some reason) => Some (Rejected reason st')
      | (st', None) =>
          if requiresAsyncProcessing st' && (iterations st' <? maxIterations)%nat
          then doWhile fuel' e st'
          else Some (finish st')
      end
  end.

(** [evaluateFhirpathAsync(fhirData, path, context, model)], the engine's
    run on these arguments being [e]. *)
Definition evaluateFhirpathAsync (e : Eval) : option Settled :=
  doWhile maxIterations e initialState.

End Driver.

(* ===================================================================== *)
(** * The earlier revision: in-memory adapters, sequential resolution *)
(* ===================================================================== *)

(** The revision of [fhirpath-async.ts] whose [resolveAsync] and
    [memberOfAsync] answer from a fixed mapping.  Its table has [resolve]
    and [memberOf] only, their callbacks are the ones above, and the
    handlers return the mapped array as it is. *)
Module Stub.

Inductive Eval : Type :=
| Return (values : list Value)
| Raise (err : Value)
| CallResolve (inputs : list Value) (k : list Value -> Eval)
| CallMemberOf (inputs : list Value) (valueSet : string) (k : list Value -> Eval).

Definition knownUrl : string := "http://hl7.org/fhir/ValueSet/observation-vitalsignresult".

(** [resolveAsync(details)] *)
Definition resolveAsync (details : AsyncFunctionUserData) : AsyncFunctionUserData :=
  let details := markCompleted details in
  if JS.strictEqualsString (value details) knownUrl
  then setResult (VObj [("resourceType", VStr "Organization"); ("id", VStr "1234")]) details
  else setResult VUndefined details.

(** [memberOfAsync(details)] *)
Definition memberOfAsync (details : AsyncFunctionUserData) : AsyncFunctionUserData :=
  let details := markCompleted details in
  if JS.strictEqualsString (valueSet details) knownUrl
  then setResult (VBool true) details
  else setResult (VBool false) details.

(** [details?.asyncFunction(details)] *)
Definition callAsyncFunction (details : AsyncFunctionUserData) : AsyncFunctionUserData :=
  match asyncFunction details with
  | resolveAsyncFn => resolveAsync details
  | memberOfAsyncFn => memberOfAsync details
  end.

(** [userInvocationTable.resolve.fn(inputs)] *)
Definition resolve (inputs : list Value) : Sync (list Value) :=
  mapM resolveElement inputs.

(** [userInvocationTable.memberOf.fn(inputs, valueSet)] *)
Definition memberOf (inputs : list Value) (valueSet : string) : Sync (list Value) :=
  mapM (memberOfElement valueSet) inputs.

Fixpoint evaluate (e : Eval) : Sync (list Value) :=
  match e with
  | Return values => ret values
  | Raise err => throw err
  | CallResolve inputs k => output <- resolve inputs ;; evaluate (k output)
  | CallMemberOf inputs valueSet k => output <- memberOf inputs valueSet ;; evaluate (k output)
  end.

(** The loop [for (let key of asyncCallsRequired.keys())], each call
    awaited before the next key is looked at. *)
Fixpoint resolveKeys (keys : list string) (st : State) : State :=
  match keys with
  | [] => st
  | key :: rest =>
      match JsMap.get key (asyncCallsRequired st) with
      | Some details =>
          if negb (evaluationCompleted details) then
            let st1 := exec (logMessage "  performing async request for: " (VStr key)) st in
            let st2 := recordAdapterCall key st1 in
            resolveKeys rest
              (withRegistry (JsMap.set key (callAsyncFunction details) (asyncCallsRequired st2)) st2)
          else resolveKeys rest st
      | None => resolveKeys rest st
      end
  end.

(** The block guarded by [if (asyncCallsRequired.size > 0)]. *)
Definition resolvePhase (st : State) : State :=
  if (0 <? JsMap.size (asyncCallsRequired st))%nat then
    exec (setRequiresAsyncProcessing false)
         (resolveKeys (JsMap.keys (asyncCallsRequired st)) st)
  else st.

Definition evaluatePass (e : Eval) (st : State) : State * option Value :=
  match evaluate e st with
  | (Normal values, st') => (withResults values st', None)
  | (Thrown err, st') =>
      if JS.truthy (JS.prop err "message")
      then (st', Some (CreateOperationOutcome "fatal" "exception"
                         (JS.prop err "message") VUndefined VUndefined))
      else (st', None)
  end.

Definition iteration (e : Eval) (st : State) : State * option Value :=
  let st2 := resolvePhase (incrementIterations st) in
  let st3 := exec (logMessage "performing iteration: " (VNum (Z.of_nat (iterations st2)))) st2 in
  evaluatePass e st3.

Definition finish (st : State) : Settled :=
  let st' :=
    if (1 <? iterations st)%nat
    then exec (logMessage "total iterations" (VNum (Z.of_nat (iterations st)))) st
    else st in
  Fulfilled (results st') st'.

Fixpoint doWhile (fuel : nat) (e : Eval) (st : State) : option Settled :=
  match fuel with
  | O => None
  | S fuel' =>
      match iteration e st with
      | (st', Some reason) => Some (Rejected reason st')
      | (st', None) =>
          if requiresAsyncProcessing st' && (iterations st' <? maxIterations)%nat
          then doWhile fuel' e st'
          else Some (finish st')
      end
  end.

Definition evaluateFhirpathAsync (e : Eval) : option Settled :=
  doWhile maxIterations e initialState.

End Stub.

(* ===================================================================== *)
(** * The first prototype: [memberOf] only, results assumed [true] *)
(* ===================================================================== *)

(** The copy of [fhirpath-async.ts] whose driver parses the resource itself.
    Its registry maps a key to the membership answer, [undefined] while the
    answer is outstanding. *)
Module Prototype.

(** [createIndexKey(value)]: always a string. *)
Definition createIndexKey (value : Value) : Completion string :=
  match value with
  | VStr s => Normal s
  | _ =>
      match JS.getProp value "code" with
      | Thrown err => Thrown err
      | Normal code =>
          if JS.truthy code then
            Normal (JS.toString (JS.prop value "system") ++ "|" ++ JS.toString code)
          else
            let coding := JS.prop value "coding" in
            if JS.truthy coding then
              let first := match coding with
                           | VArr (c :: _) => c
                           | VStr (String c _) => VStr (String c "")
                           | VObj fields => JS.assoc "0" fields
                           | _ => VUndefined
                           end in
              match JS.getProp first "system", JS.getProp first "code" with
              | Normal system, Normal code0 =>
                  Normal (JS.toString system ++ "|" ++ JS.toString code0)
              | Thrown err, _ => Thrown err
              | _, Thrown err => Thrown err
              end
            else Normal ""
      end
  end.

Record State : Type := mkState {
  memberOfCallsRequired : list (string * Value);
  requiresAsyncProcessing : bool
}.

(** The callback of [memberOf.fn]. *)
Definition memberOfElement (valueset : string) (i : Value) (st : State)
  : Completion Value * State :=
  match createIndexKey i with
  | Thrown err => (Thrown err, st)
  | Normal k =>
      let key := k ++ " - " ++ valueset in
      match JsMap.get key (memberOfCallsRequired st) with
      | Some (VUndefined) | None =>
          (Normal VUndefined,
           {| memberOfCallsRequired := JsMap.set key VUndefined (memberOfCallsRequired st);
              requiresAsyncProcessing := true |})
      | Some answer => (Normal answer, st)
      end
  end.

End Prototype.

(* ===================================================================== *)
(** * Vocabulary of the statements *)
(* ===================================================================== *)

Definition finalState (s : Settled) : State :=
  match s with
  | Fulfilled _ st => st
  | Rejected _ st => st
  end.

(** What the caller awaiting [evaluateFhirpathAsync] receives: the result
    list, or the rejection reason. *)
Definition delivered (s : Settled) : Value + list Value :=
  match s with
  | Fulfilled values _ => inr values
  | Rejected reason _ => inl reason
  end.


Definition isLeapYear (y : Z) : bool :=
  ((y mod 4 =? 0) && (negb (y mod 100 =? 0) || (y mod 400 =? 0)))%Z.

Definition daysInMonth (y m : Z) : Z :=
  (if m =? 2 then (if isLeapYear y then 29 else 28)
   else if (m =? 4) || (m =? 6) || (m =? 9) || (m =? 11) then 30
   else 31)%Z.

(** A string of the form [YYYY-MM-DD] that names a day of the (proleptic
    Gregorian) calendar. *)
Definition isCalendarDate (v : Value) : bool :=
  match v with
  | VStr s =>
      JsDate.dateRegexTest s &&
      (let '(y, m, d) := JsDate.dateFields s in
       (1 <=? m) && (m <=? 12) && (1 <=? d) && (d <=? daysInMonth y m))%Z
  | _ => false
  end.

(** The number of times [key] occurs in a trace. *)
Definition occurrences (key : string) (trace : list string) : nat :=
  count_occ string_dec trace key.

(** A run of the engine that invokes no function of the table but [toAge]. *)
Inductive onlyToAge : Eval -> Prop :=
| onlyToAge_Return values : onlyToAge (Return values)
| onlyToAge_Call inputs k :
    (forall output, onlyToAge (k output)) -> onlyToAge (CallToAge inputs k).

Unset Implicit Arguments.

(** The record filed under [key] is one a handler files: its adapter
    matches the prefix of the key, and the rest of the key is the
    fingerprint of the arguments it carries. *)
Definition recordOk (key : string) (details : AsyncFunctionUserData) : bool :=
  match asyncFunction details with
  | resolveAsyncFn =>
      let URL := createIndexKeyResolve (value details) in
      JS.truthy URL && (key =? "Resolve:" ++ JS.toString URL)
  | memberOfAsyncFn =>
      match createIndexKeyMemberOf (value details) (valueSet details) with
      | Normal k => JS.truthy k && (key =? "MemberOf:" ++ JS.toString k)
      | Thrown _ => false
      end
  end.

Definition registryOk (st : State) : Prop :=
  NoDup (JsMap.keys (asyncCallsRequired st)) /\
  forall key details,
    JsMap.get key (asyncCallsRequired st) = Some details -> recordOk key details = true.

(** What code running inside a synchronous pass may do to the state: it
    files records that are not completed, under keys that are not completed,
    raises [requiresAsyncProcessing] and writes the log. *)
Record syncStep (st st' : State) : Prop := mkSyncStep {
  ss_results : results st' = results st;
  ss_iterations : iterations st' = iterations st;
  ss_calls : adapterCalls st' = adapterCalls st;
  ss_completed :
    forall key details,
      JsMap.get key (asyncCallsRequired st) = Some details ->
      evaluationCompleted details = true ->
      JsMap.get key (asyncCallsRequired st') = Some details;
  ss_records :
    forall key details,
      JsMap.get key (asyncCallsRequired st') = Some details ->
      JsMap.get key (asyncCallsRequired st) = Some details \/
      (evaluationCompleted details = false /\ recordOk key details = true /\
       isCompleted key st = false /\ requiresAsyncProcessing st' = true);
  ss_flag :
    requiresAsyncProcessing st = true -> requiresAsyncProcessing st' = true;
  ss_keys :
    forall key, In key (JsMap.keys (asyncCallsRequired st)) ->
                In key (JsMap.keys (asyncCallsRequired st'));
  ss_nodup :
    NoDup (JsMap.keys (asyncCallsRequired st)) ->
    NoDup (JsMap.keys (asyncCallsRequired st'))
}.

(** Filing a record and raising the flag, as both handlers do. *)
Definition fileRecord (key : string) (details : AsyncFunctionUserData) : Sync unit :=
  setRequired key details ;;;
  logMessage "  requires async evaluation for: " (VStr key) ;;;
  setRequiresAsyncProcessing true.

(** The record [resolve]'s callback files for an element. *)
Definition filedReference (reference : Value) : AsyncFunctionUserData :=
  {| evaluationCompleted := false;
     asyncFunction := resolveAsyncFn;
     result := VUndefined;
     value := reference;
     valueSet := VUndefined |}.




(** A record a resolve phase will hand to its adapter. *)
Definition isPending (key : string) (st : State) : bool :=
  match JsMap.get key (asyncCallsRequired st) with
  | Some details => negb (evaluationCompleted details)
  | None => false
  end.

(** The keys a resolve phase hands to adapters. *)
Definition pendingKeys (st : State) : list string :=
  filter (fun k => isPending k st) (JsMap.keys (asyncCallsRequired st)).


(** The states an evaluation can be in after the state [st]: it runs
    handlers (the passes of any expression, whole or in part) and loop
    bodies. *)
Inductive later (world : World) (st : State) : State -> Prop :=
| later_here : later world st st
| later_pass st1 e :
    later world st st1 -> later world st (snd (evaluate world e st1))
| later_iteration st1 e :
    later world st st1 -> later world st (fst (iteration world e st1))
| later_log st1 text data :
    later world st st1 -> later world st (exec (logMessage text data) st1).

(** The state after the first [n] runs of the loop body, whatever the loop
    condition says. *)
Fixpoint nthPass (world : World) (e : Eval) (n : nat) : State :=
  match n with
  | O => initialState
  | S n' => fst (iteration world e (nthPass world e n'))
  end.

(** Each of the first [n] runs of the loop body, started in [st], ends
    without a failure and with [requiresAsyncProcessing] raised, as it does
    when the pass files a fingerprint it has not seen. *)
Fixpoint passesLeaveWork (world : World) (e : Eval) (n : nat) (st : State) : bool :=
  match n with
  | O => true
  | S n' =>
      match iteration world e st with
      | (st', None) => requiresAsyncProcessing st' && passesLeaveWork world e n' st'
      | (_, Some _) => false
      end
  end.

Ltac sync_unfold :=
  unfold bind, ret, throw, lift, getCompleted, getCachedResult, getState in *.

Ltac destruct_matches :=
  repeat match goal with
         | |- context [match ?x with _ => _ end] => destruct x eqn:?
         end.

Ltac split_ands :=
  repeat match goal with
         | |- _ /\ _ => split
         end.

(** The March-based calendar of the day-number arithmetic: the first day
    of year [yoe] of an era of 400 years, the first day of month [mp]
    (0 is March) of a year, the number of days of a year, and the two ways
    of numbering months. *)
Definition eraDay (yoe : Z) : Z := (365 * yoe + yoe / 4 - yoe / 100)%Z.

Definition monthDay (mp : Z) : Z := ((153 * mp + 2) / 5)%Z.

Definition yearLength (yoe : Z) : Z :=
  (if yoe =? 399 then 366 else eraDay (yoe + 1) - eraDay yoe)%Z.

Definition monthOf (mp : Z) : Z := (if mp <? 10 then mp + 3 else mp - 9)%Z.

Definition marchMonth (m : Z) : Z := (if 2 <? m then m - 3 else m + 9)%Z.

(** Parsing a date, with a day that may be past the end of its month, and
    printing the time value back gives the same fields exactly when the day
    is a day of the month; and what is printed is a month and a day. *)
Definition roundTrips (y m d : Z) : bool :=
  let '(y', m', d') := JsDate.civilFromDays (JsDate.daysFromCivil y m d) in
  (Bool.eqb ((y' =? y) && (m' =? m) && (d' =? d)) (d <=? daysInMonth y m)
   && (1 <=? m') && (m' <=? 12) && (1 <=? d') && (d' <=? 31))%Z.

(** How a date of the accepted shape is written. *)
Definition isoText (y m d : Z) : string :=
  (JsDate.pad 4 y ++ "-" ++ JsDate.pad 2 m ++ "-" ++ JsDate.pad 2 d)%string.

(** All of the state but the log is as it was. *)
Definition onlyLogged (st st' : State) : Prop :=
  results st' = results st /\
  asyncCallsRequired st' = asyncCallsRequired st /\
  requiresAsyncProcessing st' = requiresAsyncProcessing st /\
  iterations st' = iterations st /\
  adapterCalls st' = adapterCalls st.


(* ===================================================================== *)
(** * Sample worlds and expressions *)
(* ===================================================================== *)

Module Samples.

(** A [Parameters] resource answering [$validate-code]. *)
Definition validateCodeResult (b : bool) : Value :=
  VObj [("resourceType", VStr "Parameters");
        ("parameter", VArr [VObj [("name", VStr "result"); ("valueBoolean", VBool b)]])].

Definition quietClock (fetch : Request -> Response) (latency : string -> nat) : World :=
  {| fetch := fetch; latency := latency; now := 0%Z; localTZA := fun _ => 0%Z |}.

(** A server on which every resource refers to a further one. *)
Definition chainFetch (request : Request) : Response :=
  match request with
  | GET url [] => Json (VObj [("resourceType", VStr "Basic");
                              ("reference", VStr (url ++ "/next"))])
  | _ => FetchRejects (JS.TypeError "Failed to fetch")
  end.

Definition chainWorld : World := quietClock chainFetch (fun _ => 0).

(** [r.resolve().resolve(). ... .resolve()], [n] times, and then [k]. *)
Fixpoint resolveChainThen (n : nat) (k : list Value -> Eval) (inputs : list Value) : Eval :=
  match n with
  | O => k inputs
  | S n' => CallResolve inputs (resolveChainThen n' k)
  end.

Definition resolveChain (n : nat) (inputs : list Value) : Eval :=
  resolveChainThen n (fun output => Return output) inputs.

(** Nine chained [resolve()] calls, and then two call sites that resolve
    the ninth resource: [x.resolve() | x.resolve()]. *)
Definition twiceAtTheEnd : Eval :=
  resolveChainThen 9
    (fun x => CallResolve x (fun o1 => CallResolve x (fun o2 => Return (o1 ++ o2)%list)))
    [VStr "http://example/Basic/0"].

Definition tenthKey : string :=
  "Resolve:http://example/Basic/0/next/next/next/next/next/next/next/next/next".

(** The number of log entries with the given text about the given key. *)
Definition logged (text key : string) (log : list LogEntry) : nat :=
  List.length
    (filter (fun entry => (logText entry =? text) && JS.strictEqualsString (logData entry) key)
            log).

Definition longChain : Eval := resolveChain 12 [VStr "http://example/Basic/0"].

(** The element of the membership scenario: a coding with code [M] in the
    system [SYS]. *)
Definition codingM : Value := VObj [("code", VStr "M"); ("system", VStr "SYS")].

(** The request [memberOfAsync] sends for that coding and value set [VS1]. *)
Definition validateM : Request :=
  GET requestUrl [("url", "VS1"); ("system", "SYS"); ("code", "M")].

(** [<input>.memberOf('VS1')], the engine handing [codingM] to the handler
    and returning what the handler returns. *)
Definition memberOfVS1 : Eval := CallMemberOf [codingM] "VS1" (fun output => Return output).

(** A terminology server that knows [SYS|M] to be in [VS1] and cannot be
    reached for anything else. *)
Definition terminologyFetch (request : Request) : Response :=
  match request with
  | GET _ [("url", "VS1"); ("system", "SYS"); ("code", "M")] => Json (validateCodeResult true)
  | _ => FetchRejects (JS.TypeError "Failed to fetch")
  end.

Definition terminologyWorld : World := quietClock terminologyFetch (fun _ => 0).

Definition keyM : string := "MemberOf:SYS|M - VS1".

(** The record the handler files for [codingM] and [VS1], as filed or as
    the adapter leaves it. *)
Definition recordM (completed : bool) (r : Value) : AsyncFunctionUserData :=
  {| evaluationCompleted := completed;
     asyncFunction := memberOfAsyncFn;
     result := r;
     value := codingM;
     valueSet := VStr "VS1" |}.

(** Three call sites with the fingerprint of [codingM]: a fan-out over two
    elements and a further call. *)
Definition memberOfThrice : Eval :=
  CallMemberOf [codingM; codingM] "VS1"
    (fun o1 => CallMemberOf [codingM] "VS1" (fun o2 => Return (o1 ++ o2)%list)).

(** A second coding, which the terminology server cannot be reached for. *)
Definition codingW : Value := VObj [("code", VStr "W"); ("system", VStr "SYS")].

Definition keyW : string := "MemberOf:SYS|W - VS1".


(** [<both codings>.memberOf('VS1')] *)
Definition memberOfBoth : Eval :=
  CallMemberOf [codingM; codingW] "VS1" (fun output => Return output).


(** The same server, with the failure taking longer than the answer. *)
Definition slowFailureWorld : World :=
  quietClock terminologyFetch (fun key => if key =? keyW then 5 else 0).

(** A terminology server that answers every request with a [Parameters]
    resource carrying a message and no result. *)
Definition resultlessFetch (request : Request) : Response :=
  Json (VObj [("resourceType", VStr "Parameters");
              ("parameter",
               VArr [VObj [("name", VStr "message");
                           ("valueString", VStr "value set could not be expanded")]])]).

Definition resultlessWorld : World := quietClock resultlessFetch (fun _ => 0).

(** The reference of the not-found scenario. *)
Definition unknownReference : Value := VStr "http://example/Organization/1".

End Samples.

(* ===================================================================== *)
(** * Vocabulary of the further properties *)
(* ===================================================================== *)

(** What [resolve]'s callback hands back for an element, read off the
    registry as it is in [st]: the stored result when the element has a
    fingerprint and its record is completed, [undefined] otherwise. *)
Definition resolveAnswer (st : State) (reference : Value) : Value :=
  let key := createIndexKeyResolve reference in
  if JS.truthy key && isCompleted ("Resolve:" ++ JS.toString key) st
  then cachedResult ("Resolve:" ++ JS.toString key) st
  else VUndefined.

(** The same for [memberOf]'s callback and an element whose fingerprint
    can be computed. *)
Definition memberOfAnswer (st : State) (valueSet : string) (codeData : Value) : Value :=
  match createIndexKeyMemberOf codeData (VStr valueSet) with
  | Normal key =>
      if JS.truthy key && isCompleted ("MemberOf:" ++ JS.toString key) st
      then cachedResult ("MemberOf:" ++ JS.toString key) st
      else VUndefined
  | Thrown _ => VUndefined
  end.

(** The first element of the input whose fingerprint cannot be computed,
    with the error. *)
Fixpoint firstThrow (valueSet : string) (inputs : list Value) : option Value :=
  match inputs with
  | [] => None
  | codeData :: rest =>
      match createIndexKeyMemberOf codeData (VStr valueSet) with
      | Thrown err => Some err
      | Normal _ => firstThrow valueSet rest
      end
  end.

(** The result parameter [memberOfAsync] looks for in an answer:
    [params.parameter.find((p) => p.name === "result")] under the guard
    [params && params.parameter]; [undefined] when there is none. *)
Definition resultParameter (resultJson : Value) : Completion Value :=
  if JS.truthy resultJson && JS.truthy (JS.prop resultJson "parameter") then
    match JS.prop resultJson "parameter" with
    | VArr parameter => findResult parameter
    | _ => Thrown (JS.TypeError "params.parameter.find is not a function")
    end
  else Normal VUndefined.

(** An answer that [memberOfAsync] takes neither for a result nor for a
    failure. *)
Definition unrecognisedAnswer (resultJson : Value) : Prop :=
  (exists param, resultParameter resultJson = Normal param /\ JS.truthy param = false) /\
  JS.truthy resultJson && JS.truthy (JS.prop resultJson "issue") = false.

(** What every state of the loop satisfies: the registry is well formed;
    before the first run of the body it is empty; and a fingerprint's
    adapter has been called less often than the body has run. *)
Definition callsBounded (key : string) (st : State) : Prop :=
  registryOk st /\
  (iterations st = 0%nat -> asyncCallsRequired st = [] /\ adapterCalls st = []) /\
  (occurrences key (adapterCalls st) <= pred (iterations st))%nat.




(** The record [memberOf]'s callback files for an element. *)
Definition filedCode (codeData : Value) (valueSet : string) : AsyncFunctionUserData :=
  {| evaluationCompleted := false;
     asyncFunction := memberOfAsyncFn;
     result := VUndefined;
     value := codeData;
     valueSet := VStr valueSet |}.

(** A [Coding] with the given system and code: an object whose [system]
    and [code] are these strings and that has no [coding], whatever else it
    holds. *)
Definition isCoding (system code : string) (v : Value) : Prop :=
  exists fields,
    v = VObj fields /\
    JS.assoc "system" fields = VStr system /\ JS.assoc "code" fields = VStr code /\
    JS.assoc "coding" fields = VUndefined.

(** A [CodeableConcept] with the given codings: an object without a [code]
    whose [coding] is the array of them. *)
Definition isCodeableConcept (codings : list Value) (v : Value) : Prop :=
  exists fields,
    v = VObj fields /\
    JS.assoc "code" fields = VUndefined /\ JS.assoc "coding" fields = VArr codings.

(** The calendar date of a time value in local time, as [getFullYear],
    [getMonth] and [getDate] read it: year, month (1 to 12), day. *)
Definition localDate (world : World) (t : Z) : Z * Z * Z :=
  JsDate.civilFromDays (JsDate.Day (LocalTime world t)).

(** The full years from one calendar date to another: the difference of
    the years, less one when the month and day of the second come before
    those of the first. *)
Definition ageBetween (birth today : Z * Z * Z) : Z :=
  let '(y, m, d) := birth in
  let '(ty, tm, td) := today in
  (if (tm <? m) || ((tm =? m) && (td <? d)) then ty - y - 1 else ty - y)%Z.

(** The first date comes before the second. *)
Definition dateBefore (a b : Z * Z * Z) : bool :=
  let '(y, m, d) := a in
  let '(y', m', d') := b in
  ((y <? y') || ((y =? y') && ((m <? m') || ((m =? m') && (d <? d')))))%Z.

(** The time value [new Date(s)] has for the date written in [s]: midnight
    of that day, UTC. *)
Definition utcMidnight (y m d : Z) : Z := (JsDate.daysFromCivil y m d * JsDate.msPerDay)%Z.

(* ===================================================================== *)
(** * The revisions whose registry holds the answers *)
(* ===================================================================== *)

(** Three earlier revisions of [fhirpath-async.ts] have [memberOf] only and
    keep, for every key, the answer itself, [undefined] while it is
    outstanding.  They differ in the function that computes the key of an
    element and in the answer their resolve loop stores for a key, which are
    the two parameters of this section; the console output is left out. *)
Module AnswerRegistry.

Inductive Eval : Type :=
| Return (values : list Value)
| Raise (err : Value)
| CallMemberOf (inputs : list Value) (valueset : string) (k : list Value -> Eval).

(** The variables of [evaluateFhirpathAsync]: [results], [iterations], and
    the two the handler shares with the loop. *)
Record Vars : Type := mkVars {
  results : list Value;
  shared : Prototype.State;
  iterations : nat
}.

Definition initialVars : Vars :=
  {| results := [];
     shared := {| Prototype.memberOfCallsRequired := [];
                  Prototype.requiresAsyncProcessing := false |};
     iterations := 0 |}.

Section Revision.

Variable indexKey : Value -> string -> Completion Value.
Variable answer : string -> bool.

(** The callback of [memberOf.fn]. *)
Definition memberOfElement (valueset : string) (codeData : Value) (st : Prototype.State)
  : Completion Value * Prototype.State :=
  match indexKey codeData valueset with
  | Thrown err => (Thrown err, st)
  | Normal key =>
      if JS.truthy key then
        match JsMap.get (JS.toString key) (Prototype.memberOfCallsRequired st) with
        | Some VUndefined | None =>
            (Normal VUndefined,
             {| Prototype.memberOfCallsRequired :=
                  JsMap.set (JS.toString key) VUndefined (Prototype.memberOfCallsRequired st);
                Prototype.requiresAsyncProcessing := true |})
        | Some cached => (Normal cached, st)
        end
      else (Normal VUndefined, st)
  end.

(** [memberOf.fn(inputs, valueset)]: the mapped array as it is. *)
Fixpoint memberOf (inputs : list Value) (valueset : string) (st : Prototype.State)
  : Completion (list Value) * Prototype.State :=
  match inputs with
  | [] => (Normal [], st)
  | codeData :: rest =>
      match memberOfElement valueset codeData st with
      | (Thrown err, st1) => (Thrown err, st1)
      | (Normal v, st1) =>
          match memberOf rest valueset st1 with
          | (Thrown err, st2) => (Thrown err, st2)
          | (Normal vs, st2) => (Normal (v :: vs), st2)
          end
      end
  end.

Fixpoint evaluate (e : Eval) (st : Prototype.State) : Completion (list Value) * Prototype.State :=
  match e with
  | Return values => (Normal values, st)
  | Raise err => (Thrown err, st)
  | CallMemberOf inputs valueset k =>
      match memberOf inputs valueset st with
      | (Thrown err, st1) => (Thrown err, st1)
      | (Normal output, st1) => evaluate (k output) st1
      end
  end.

(** The loop [for (let key of memberOfCallsRequired.keys())]: every key
    whose answer is outstanding gets its answer. *)
Fixpoint resolveKeys (keys : list string) (m : list (string * Value)) : list (string * Value) :=
  match keys with
  | [] => m
  | key :: rest =>
      match JsMap.get key m with
      | Some VUndefined | None => resolveKeys rest (JsMap.set key (VBool (answer key)) m)
      | Some _ => resolveKeys rest m
      end
  end.

(** The block guarded by [if (memberOfCallsRequired.size > 0)]. *)
Definition resolvePhase (st : Prototype.State) : Prototype.State :=
  let m := Prototype.memberOfCallsRequired st in
  if (0 <? JsMap.size m)%nat then
    {| Prototype.memberOfCallsRequired := resolveKeys (JsMap.keys m) m;
       Prototype.requiresAsyncProcessing := false |}
  else st.

(** The body of the [do ... while] loop. *)
Definition iteration (e : Eval) (v : Vars) : Vars * option Value :=
  let n := S (iterations v) in
  match evaluate e (resolvePhase (shared v)) with
  | (Normal values, st) => (mkVars values st n, None)
  | (Thrown err, st) =>
      if JS.truthy (JS.prop err "message")
      then (mkVars (results v) st n,
            Some (CreateOperationOutcome "fatal" "exception" (JS.prop err "message")
                    VUndefined VUndefined))
      else (mkVars (results v) st n, None)
  end.

(** [do { ... } while (requiresAsyncProcessing && iterations < 10)] and the
    [return results] that follows; [fuel] bounds the runs of the body. *)
Fixpoint doWhile (fuel : nat) (e : Eval) (v : Vars) : option (Completion (list Value) * Vars) :=
  match fuel with
  | O => None
  | S fuel' =>
      match iteration e v with
      | (v', Some reason) => Some (Thrown reason, v')
      | (v', None) =>
          if Prototype.requiresAsyncProcessing (shared v') && (iterations v' <? maxIterations)%nat
          then doWhile fuel' e v'
          else Some (Normal (results v'), v')
      end
  end.

(** What the handler returns for an element once its answer is stored. *)
Definition finalAnswer (valueset : string) (codeData : Value) : Value :=
  match indexKey codeData valueset with
  | Normal key => if JS.truthy key then VBool (answer (JS.toString key)) else VUndefined
  | Thrown _ => VUndefined
  end.

(** The element has a key. *)
Definition keyed (valueset : string) (codeData : Value) : bool :=
  match indexKey codeData valueset with
  | Normal key => JS.truthy key
  | Thrown _ => false
  end.

(** The key of the element can be computed. *)
Definition keyComputes (valueset : string) (codeData : Value) : Prop :=
  exists key, indexKey codeData valueset = Normal key.

End Revision.

(** No answer of the registry is stored yet. *)
Definition allOutstanding (m : list (string * Value)) : Prop :=
  forall key v, JsMap.get key m = Some v -> v = VUndefined.

(** The key the resolve loops of two of the revisions answer [true] for. *)
Definition marriedInVitalSigns : string :=
  "http://terminology.hl7.org/CodeSystem/v3-MaritalStatus|M - http://hl7.org/fhir/ValueSet/observation-vitalsignresult".

(** ** The first prototype: the resource is parsed, every answer is [true] *)
Module Parsing.

(** [createIndexKey(i) + " - " + valueset] *)
Definition indexKey (i : Value) (valueset : string) : Completion Value :=
  match Prototype.createIndexKey i with
  | Normal k => Normal (VStr (k ++ " - " ++ valueset))
  | Thrown err => Thrown err
  end.

(** [memberOfCallsRequired.set(key, true)] *)
Definition answer (key : string) : bool := true.

Section Driver.

(** [JSON.parse], and the run of [fhirpath.evaluate] on a resource and an
    expression. *)
Variable JSONparse : string -> Completion Value.
Variable engine : Value -> string -> Eval.

(** [evaluateFhirpathAsync(resourceJson, expression)] *)
Definition evaluateFhirpathAsync (resourceJson expression : string)
  : option (Completion (list Value) * Vars) :=
  let dummy := VObj [("resourceType", VStr "Patient")] in
  let parsed :=
    if negb (resourceJson =? "") then
      match JSONparse resourceJson with
      | Normal fhirData => Normal fhirData
      | Thrown err =>
          if JS.truthy (JS.prop err "message")
          then Thrown (CreateOperationOutcome "fatal" "exception" (JS.prop err "message")
                         VUndefined VUndefined)
          else Normal dummy
      end
    else Normal dummy in
  match parsed with
  | Thrown reason => Some (Thrown reason, initialVars)
  | Normal fhirData =>
      doWhile indexKey answer maxIterations (engine fhirData expression) initialVars
  end.

End Driver.

End Parsing.

(** ** The revision that joins the codings and logs to the outcome *)
Module Logged.

(** [createIndexKeyMemberOf(codeData, valueset)] *)
Definition indexKey (codeData : Value) (valueset : string) : Completion Value :=
  createIndexKeyMemberOf codeData (VStr valueset).

(** [if (key === "...") set(key, true) else set(key, false)] *)
Definition answer (key : string) : bool := key =? marriedInVitalSigns.

(** [evaluateFhirpathAsync(fhirData, path, context, model)], the engine's
    run on these arguments being [e]. *)
Definition evaluateFhirpathAsync (e : Eval) : option (Completion (list Value) * Vars) :=
  doWhile indexKey answer maxIterations e initialVars.

End Logged.

(** ** The revision that takes the first coding *)
Module FirstCoding.

(** [createIndexKey(value, valueset)] *)
Definition createIndexKey (value : Value) (valueset : string) : Completion Value :=
  match value with
  | VStr s => Normal (VStr (s ++ " - " ++ valueset))
  | _ =>
      match JS.getProp value "code" with
      | Thrown err => Thrown err
      | Normal code =>
          if JS.truthy code then
            Normal (VStr (JS.toString (JS.prop value "system") ++ "|" ++ JS.toString code
                          ++ " - " ++ valueset))
          else
            let coding := JS.prop value "coding" in
            if JS.truthy coding then
              let first := match coding with
                           | VArr (c :: _) => c
                           | VStr (String c _) => VStr (String c "")
                           | VObj fields => JS.assoc "0" fields
                           | _ => VUndefined
                           end in
              match JS.getProp first "system", JS.getProp first "code" with
              | Normal system, Normal code0 =>
                  Normal (VStr (JS.toString system ++ "|" ++ JS.toString code0
                                ++ " - " ++ valueset))
              | Thrown err, _ => Thrown err
              | _, Thrown err => Thrown err
              end
            else Normal VUndefined
      end
  end.

Definition answer (key : string) : bool := key =? marriedInVitalSigns.

(** [evaluateFhirpathAsync(fhirData, expression)], the engine's run on
    these arguments being [e]. *)
Definition evaluateFhirpathAsync (e : Eval) : option (Completion (list Value) * Vars) :=
  doWhile createIndexKey answer maxIterations e initialVars.

End FirstCoding.

End AnswerRegistry.

(** The registry once every call of a batch has done its work: the record
    under each key of the batch is as its adapter call leaves it. *)
Definition settleAll (world : World) (batch : list string)
    (m : list (string * AsyncFunctionUserData)) : list (string * AsyncFunctionUserData) :=
  map (fun entry =>
         if existsb (String.eqb (fst entry)) batch
         then (fst entry, fst (callAsyncFunction world (snd entry)))
         else entry) m.

(** Two worlds whose servers give the same answers; the time the answers
    take, and the clock, may differ. *)
Definition sameAnswers (world world' : World) : Prop :=
  forall request, fetch world' request = fetch world request.

(** A call site of an expression: the function the engine invokes and the
    input collection it hands over. *)
Inductive CallSite : Type :=
| ToAgeSite (inputs : list Value)
| ResolveSite (inputs : list Value)
| MemberOfSite (inputs : list Value) (valueSet : string).

(** An expression whose call sites do not depend on one another: the
    engine invokes the same functions on the same inputs whatever the
    handlers return, and does not throw. *)
Inductive callSites : Eval -> list CallSite -> Prop :=
| callSites_Return values : callSites (Return values) []
| callSites_toAge inputs k sites :
    (forall output, callSites (k output) sites) ->
    callSites (CallToAge inputs k) (ToAgeSite inputs :: sites)
| callSites_resolve inputs k sites :
    (forall output, callSites (k output) sites) ->
    callSites (CallResolve inputs k) (ResolveSite inputs :: sites)
| callSites_memberOf inputs valueSet k sites :
    (forall output, callSites (k output) sites) ->
    callSites (CallMemberOf inputs valueSet k) (MemberOfSite inputs valueSet :: sites).

(** The registry key of an element handed to [resolve], if it has a
    fingerprint. *)
Definition resolveKey (reference : Value) : option string :=
  let key := createIndexKeyResolve reference in
  if JS.truthy key then Some ("Resolve:" ++ JS.toString key) else None.

(** The registry key of an element handed to [memberOf]. *)
Definition memberOfKey (valueSet : string) (codeData : Value) : option string :=
  match createIndexKeyMemberOf codeData (VStr valueSet) with
  | Normal key => if JS.truthy key then Some ("MemberOf:" ++ JS.toString key) else None
  | Thrown _ => None
  end.

(** The registry keys of the elements of a call site. *)
Definition siteKeys (site : CallSite) : list string :=
  match site with
  | ToAgeSite _ => []
  | ResolveSite inputs =>
      flat_map (fun reference => match resolveKey reference with
                                 | Some key => [key]
                                 | None => []
                                 end) inputs
  | MemberOfSite inputs valueSet =>
      flat_map (fun codeData => match memberOfKey valueSet codeData with
                                | Some key => [key]
                                | None => []
                                end) inputs
  end.

(** The fingerprints of the elements of a call site can be computed. *)
Definition siteComputes (site : CallSite) : Prop :=
  match site with
  | MemberOfSite inputs valueSet => firstThrow valueSet inputs = None
  | _ => True
  end.

(** The servers answer every request the handlers can file: the adapter
    call for a filed record does not fail, and completes it. *)
Definition alwaysAnswers (world : World) : Prop :=
  forall key details,
    recordOk key details = true ->
    snd (callAsyncFunction world details) = None /\
    evaluationCompleted (fst (callAsyncFunction world details)) = true.

Module MoreSamples.

Definition maritalStatusSystem : string :=
  "http://terminology.hl7.org/CodeSystem/v3-MaritalStatus".

Definition vitalSigns : string :=
  "http://hl7.org/fhir/ValueSet/observation-vitalsignresult".

(** The [maritalStatus] of the page's default resource: the codings
    [M] and [W]. *)
Definition married : Value :=
  VObj [("system", VStr maritalStatusSystem); ("code", VStr "M"); ("display", VStr "Married")].

Definition widowed : Value :=
  VObj [("system", VStr maritalStatusSystem); ("code", VStr "W"); ("display", VStr "Widowed")].

Definition maritalStatus : Value := VObj [("coding", VArr [married; widowed])].

(** A concept that holds just the coding of the membership scenario. *)
Definition conceptM : Value := VObj [("coding", VArr [Samples.codingM])].

(** A server that holds one resource and cannot be reached for any other. *)
Definition organizationFetch (request : Request) : Response :=
  match request with
  | GET "http://example/Organization/1" [] =>
      Json (VObj [("resourceType", VStr "Organization")])
  | _ => FetchRejects (JS.TypeError "Failed to fetch")
  end.

Definition organizationWorld : World := Samples.quietClock organizationFetch (fun _ => 0).


(** 1 March 2024, 17:00 UTC: noon in a place five hours behind UTC. *)
Definition firstOfMarch : Z :=
  (JsDate.daysFromCivil 2024 3 1 * JsDate.msPerDay + 17 * 3600000)%Z.


Definition onUtc : World :=
  {| fetch := fun _ => FetchRejects VUndefined;
     latency := fun _ => 0;
     now := firstOfMarch;
     localTZA := fun _ => 0%Z |}.

(** A terminology server that answers [false] to every question. *)
Definition negativeWorld : World :=
  Samples.quietClock (fun _ => Json (Samples.validateCodeResult false)) (fun _ => 0).

(** A terminology server that answers [true] to every question, the answer
    for [codingM] taking longer than the others or not. *)
Definition slowWorld : World :=
  Samples.quietClock (fun _ => Json (Samples.validateCodeResult true))
    (fun key => if key =? Samples.keyM then 5 else 0).

Definition quickWorld : World :=
  Samples.quietClock (fun _ => Json (Samples.validateCodeResult true)) (fun _ => 0).

(** An [OperationOutcome] of a terminology server. *)
Definition notFoundOutcome : Value :=
  VObj [("resourceType", VStr "OperationOutcome");
        ("issue",
         VArr [VObj [("severity", VStr "error"); ("code", VStr "not-found");
                     ("diagnostics", VStr "value set not found")]])].

(** A terminology server that answers every question with it. *)
Definition refusingWorld : World :=
  Samples.quietClock (fun _ => Json notFoundOutcome) (fun _ => 0).

(** The registry after a first pass that met [codingM] in [VS1]. *)
Definition afterFirstPass : State :=
  {| results := [];
     outcome := [];
     asyncCallsRequired := [(Samples.keyM, Samples.recordM false VUndefined)];
     requiresAsyncProcessing := true;
     iterations := 1;
     adapterCalls := [] |}.



(** A [JSON.parse] that knows one text, and an engine that hands the
    [maritalStatus] of the resource to [memberOf]. *)
Definition parseOne (text : string) : Completion Value :=
  if text =? "{...}" then Normal (VObj [("maritalStatus", maritalStatus)])
  else Thrown (JS.Error "Unexpected token").

Definition memberOfMaritalStatus (fhirData : Value) (expression : string) : AnswerRegistry.Eval :=
  AnswerRegistry.CallMemberOf [JS.prop fhirData "maritalStatus"] vitalSigns
    (fun output => AnswerRegistry.Return output).

(** An expression with three call sites that do not depend on one
    another: a reference is resolved, two codings are checked against a
    value set, a birth date is turned into an age, and the outputs are put
    together. *)
Definition referenceAndCodings : Eval :=
  CallResolve [VStr "http://example/Organization/1"] (fun resources =>
    CallMemberOf [married; widowed] vitalSigns (fun members =>
      CallToAge [VStr "1990-06-15"] (fun ages =>
        Return (resources ++ members ++ ages)))).

Definition referenceAndCodingsSites : list CallSite :=
  [ResolveSite [VStr "http://example/Organization/1"];
   MemberOfSite [married; widowed] vitalSigns;
   ToAgeSite [VStr "1990-06-15"]].

End MoreSamples.

(* ===================================================================== *)
(** * Facts about the [Map] *)
(* ===================================================================== *)

Module JsMapFacts.

Lemma get_set_eq {V : Type} (key : string) (v : V) m :
  JsMap.get key (JsMap.set key v m) = Some v.
Proof.
  induction m as [|[k v0] rest IH]; simpl.
  - now rewrite String.eqb_refl.
  - destruct (k =? key) eqn:E; simpl; rewrite E; auto.
Qed.

Lemma get_set_ne {V : Type} (key key' : string) (v : V) m :
  key <> key' -> JsMap.get key' (JsMap.set key v m) = JsMap.get key' m.
Proof.
  intros Hne. induction m as [|[k v0] rest IH]; simpl.
  - destruct (key =? key') eqn:E; auto. apply String.eqb_eq in E. contradiction.
  - destruct (k =? key) eqn:E; simpl.
    + apply String.eqb_eq in E. subst k.
      destruct (key =? key') eqn:E'; auto.
      apply String.eqb_eq in E'. contradiction.
    + destruct (k =? key'); auto.
Qed.

Lemma keys_set_in {V : Type} (key k : string) (v : V) m :
  In k (JsMap.keys (JsMap.set key v m)) <-> k = key \/ In k (JsMap.keys m).
Proof.
  unfold JsMap.keys. induction m as [|[k0 v0] rest IH]; simpl.
  - intuition.
  - destruct (k0 =? key) eqn:E; simpl.
    + apply String.eqb_eq in E. subst. intuition.
    + rewrite IH. intuition.
Qed.

Lemma keys_set_present {V : Type} (key : string) (v : V) m :
  In key (JsMap.keys m) -> JsMap.keys (JsMap.set key v m) = JsMap.keys m.
Proof.
  unfold JsMap.keys. induction m as [|[k0 v0] rest IH]; simpl; intros H.
  - contradiction.
  - destruct (k0 =? key) eqn:E; simpl; auto.
    f_equal. apply IH. destruct H as [H|H]; auto.
    subst. rewrite String.eqb_refl in E. discriminate.
Qed.

Lemma keys_set_nodup {V : Type} (key : string) (v : V) m :
  NoDup (JsMap.keys m) -> NoDup (JsMap.keys (JsMap.set key v m)).
Proof.
  unfold JsMap.keys. induction m as [|[k0 v0] rest IH]; simpl; intros H.
  - constructor; [intros [] | constructor].
  - inversion H as [|? ? Hnin Hnd]; subst.
    destruct (k0 =? key) eqn:E; simpl.
    + constructor; auto.
    + constructor; auto.
      intros Hin. apply (keys_set_in key k0 v rest) in Hin.
      destruct Hin as [Heq|Hin]; auto.
      subst. rewrite String.eqb_refl in E. discriminate.
Qed.

Lemma get_in_keys {V : Type} (key : string) (m : list (string * V)) v :
  JsMap.get key m = Some v -> In key (JsMap.keys m).
Proof.
  unfold JsMap.keys. induction m as [|[k0 v0] rest IH]; simpl; intros H.
  - discriminate.
  - destruct (k0 =? key) eqn:E.
    + apply String.eqb_eq in E. auto.
    + auto.
Qed.

Lemma in_keys_get {V : Type} (key : string) (m : list (string * V)) :
  In key (JsMap.keys m) -> exists v, JsMap.get key m = Some v.
Proof.
  unfold JsMap.keys. induction m as [|[k0 v0] rest IH]; simpl; intros H.
  - contradiction.
  - destruct (k0 =? key) eqn:E; eauto.
    destruct H as [H|H]; auto.
    subst. rewrite String.eqb_refl in E. discriminate.
Qed.

Lemma get_set {V : Type} (key key' : string) (v : V) m :
  JsMap.get key' (JsMap.set key v m) =
  if key =? key' then Some v else JsMap.get key' m.
Proof.
  destruct (key =? key') eqn:E.
  - apply String.eqb_eq in E. subst. apply get_set_eq.
  - apply get_set_ne. intros ->. rewrite String.eqb_refl in E. discriminate.
Qed.

End JsMapFacts.

(* ===================================================================== *)
(** * What a synchronous pass does to the state *)
(* ===================================================================== *)

Lemma isCompleted_get key st :
  isCompleted key st = true <->
  exists details, JsMap.get key (asyncCallsRequired st) = Some details /\
                  evaluationCompleted details = true.
Proof.
  unfold isCompleted. destruct (JsMap.get key (asyncCallsRequired st)) as [d|].
  - split; [intros H; eauto | intros (d' & Heq & H); congruence].
  - split; [discriminate | intros (d' & Heq & _); discriminate].
Qed.

Lemma syncStep_refl st : syncStep st st.
Proof. constructor; auto. Qed.

Lemma syncStep_trans st1 st2 st3 :
  syncStep st1 st2 -> syncStep st2 st3 -> syncStep st1 st3.
Proof.
  intros [R1 I1 C1 K1 N1 F1 S1 D1] [R2 I2 C2 K2 N2 F2 S2 D2].
  constructor; try congruence; auto.
  intros key details H3.
  destruct (N2 _ _ H3) as [H2 | (Hp & Hok & Hnc & Hf)].
  - destruct (N1 _ _ H2) as [H1 | (Hp & Hok & Hnc & Hf)]; auto.
    right. repeat split; auto.
  - right. repeat split; auto.
    destruct (isCompleted key st1) eqn:E; auto.
    apply isCompleted_get in E. destruct E as (d & Hd & Hc).
    specialize (K1 _ _ Hd Hc).
    assert (isCompleted key st2 = true) by (apply isCompleted_get; eauto).
    congruence.
Qed.

Lemma syncStep_log text data st :
  syncStep st (snd (logMessage text data st)).
Proof. constructor; simpl; auto. Qed.

Lemma syncStep_fileRecord key details st :
  isCompleted key st = false ->
  evaluationCompleted details = false ->
  recordOk key details = true ->
  syncStep st (snd (fileRecord key details st)).
Proof.
  intros Hnc Hp Hok. constructor; simpl; auto.
  - intros k d Hd Hc. rewrite JsMapFacts.get_set.
    destruct (key =? k) eqn:E; auto.
    apply String.eqb_eq in E. subst k.
    assert (isCompleted key st = true) by (apply isCompleted_get; eauto).
    congruence.
  - intros k d. rewrite JsMapFacts.get_set.
    destruct (key =? k) eqn:E; auto.
    apply String.eqb_eq in E. subst k.
    intros [= <-]. right. auto.
  - intros k Hin. apply JsMapFacts.keys_set_in. auto.
  - apply JsMapFacts.keys_set_nodup.
Qed.

Lemma resolveElement_cases reference st :
  let key := createIndexKeyResolve reference in
  let k := "Resolve:" ++ JS.toString key in
  resolveElement reference st =
    if JS.truthy key then
      if isCompleted k st
      then (Normal (cachedResult k st),
            snd (logMessage "  using cached result for: " (VStr k) st))
      else (Normal VUndefined,
            snd (fileRecord k
                   {| evaluationCompleted := false;
                      asyncFunction := resolveAsyncFn;
                      result := VUndefined;
                      value := reference;
                      valueSet := VUndefined |} st))
    else (Normal VUndefined, st).
Proof.
  unfold resolveElement, fileRecord. sync_unfold. cbv zeta.
  destruct (JS.truthy (createIndexKeyResolve reference)); auto.
  destruct (isCompleted _ st); reflexivity.
Qed.

Lemma memberOfElement_cases valueSet codeData st :
  memberOfElement valueSet codeData st =
    match createIndexKeyMemberOf codeData (VStr valueSet) with
    | Thrown err => (Thrown err, st)
    | Normal key =>
        let k := "MemberOf:" ++ JS.toString key in
        if JS.truthy key then
          if isCompleted k st
          then (Normal (cachedResult k st),
                snd (logMessage "  using cached result for: " (VStr k) st))
          else (Normal VUndefined,
                snd (fileRecord k
                       {| evaluationCompleted := false;
                          asyncFunction := memberOfAsyncFn;
                          result := VUndefined;
                          value := codeData;
                          valueSet := VStr valueSet |} st))
        else (Normal VUndefined, st)
    end.
Proof.
  unfold memberOfElement, fileRecord. sync_unfold. cbv zeta.
  destruct (createIndexKeyMemberOf codeData (VStr valueSet)) as [key|err]; auto.
  destruct (JS.truthy key); auto.
  destruct (isCompleted _ st); reflexivity.
Qed.

Lemma resolveElement_step reference st :
  syncStep st (snd (resolveElement reference st)).
Proof.
  rewrite resolveElement_cases. cbv zeta.
  destruct (JS.truthy (createIndexKeyResolve reference)) eqn:Ht;
    [|apply syncStep_refl].
  destruct (isCompleted _ st) eqn:Hc; [apply syncStep_log|].
  apply syncStep_fileRecord; auto.
  unfold recordOk; simpl. rewrite Ht, String.eqb_refl. reflexivity.
Qed.

Lemma memberOfElement_step valueSet codeData st :
  syncStep st (snd (memberOfElement valueSet codeData st)).
Proof.
  rewrite memberOfElement_cases.
  destruct (createIndexKeyMemberOf codeData (VStr valueSet)) as [key|err] eqn:Hk;
    [|apply syncStep_refl].
  cbv zeta. destruct (JS.truthy key) eqn:Ht; [|apply syncStep_refl].
  destruct (isCompleted _ st) eqn:Hc; [apply syncStep_log|].
  apply syncStep_fileRecord; auto.
  unfold recordOk; simpl. rewrite Hk, Ht, String.eqb_refl. reflexivity.
Qed.

Lemma toAgeElement_step world reference st :
  syncStep st (snd (toAgeElement world reference st)) /\
  fst (toAgeElement world reference st) = Normal (birthdateToAge world reference).
Proof.
  unfold toAgeElement. sync_unfold. simpl. split; auto.
  constructor; simpl; auto.
Qed.

Lemma mapM_step {A B : Type} (f : A -> Sync B) (xs : list A) :
  (forall x st, syncStep st (snd (f x st))) ->
  forall st, syncStep st (snd (mapM f xs st)).
Proof.
  intros Hf. induction xs as [|x rest IH]; intros st; simpl.
  - apply syncStep_refl.
  - unfold bind. specialize (Hf x st).
    destruct (f x st) as [[y|err] st1]; simpl in *; auto.
    specialize (IH st1).
    destruct (mapM f rest st1) as [[ys|err] st2]; simpl in *;
      eapply syncStep_trans; eauto.
Qed.

Lemma resolve_step inputs st : syncStep st (snd (resolve inputs st)).
Proof.
  unfold resolve, bind.
  pose proof (mapM_step resolveElement inputs resolveElement_step st) as H.
  destruct (mapM resolveElement inputs st) as [[out|err] st1]; simpl in *; auto.
Qed.

Lemma memberOf_step inputs valueSet st :
  syncStep st (snd (memberOf inputs valueSet st)).
Proof.
  unfold memberOf, bind.
  pose proof (mapM_step (memberOfElement valueSet) inputs
                (memberOfElement_step valueSet) st) as H.
  destruct (mapM (memberOfElement valueSet) inputs st) as [[out|err] st1];
    simpl in *; auto.
Qed.

Lemma toAge_step world inputs st : syncStep st (snd (toAge world inputs st)).
Proof.
  unfold toAge, bind.
  pose proof (mapM_step (toAgeElement world) inputs
                (fun x s => proj1 (toAgeElement_step world x s)) st) as H.
  destruct (mapM (toAgeElement world) inputs st) as [[out|err] st1];
    simpl in *; auto.
Qed.

Lemma evaluate_step world e :
  forall st, syncStep st (snd (evaluate world e st)).
Proof.
  induction e as [values|err|inputs k IH|inputs k IH|inputs valueSet k IH];
    intros st; simpl.
  - apply syncStep_refl.
  - apply syncStep_refl.
  - unfold bind. pose proof (toAge_step world inputs st) as H.
    destruct (toAge world inputs st) as [[out|err] st1]; simpl in *; auto.
    eapply syncStep_trans; eauto.
  - unfold bind. pose proof (resolve_step inputs st) as H.
    destruct (resolve inputs st) as [[out|err] st1]; simpl in *; auto.
    eapply syncStep_trans; eauto.
  - unfold bind. pose proof (memberOf_step inputs valueSet st) as H.
    destruct (memberOf inputs valueSet st) as [[out|err] st1]; simpl in *; auto.
    eapply syncStep_trans; eauto.
Qed.

(* ===================================================================== *)
(** * Facts about the adapters *)
(* ===================================================================== *)


Lemma markCompleted_fields d :
  asyncFunction (markCompleted d) = asyncFunction d /\
  value (markCompleted d) = value d /\
  valueSet (markCompleted d) = valueSet d /\
  evaluationCompleted (markCompleted d) = true.
Proof. repeat split. Qed.

Lemma memberOfAsyncTry_fields world d :
  let d' := fst (memberOfAsyncTry world d) in
  asyncFunction d' = asyncFunction d /\ value d' = value d /\ valueSet d' = valueSet d.
Proof.
  unfold memberOfAsyncTry. destruct_matches; simpl; auto.
Qed.

Lemma callAsyncFunction_fields world d :
  let d' := fst (callAsyncFunction world d) in
  asyncFunction d' = asyncFunction d /\ value d' = value d /\ valueSet d' = valueSet d.
Proof.
  unfold callAsyncFunction. destruct (asyncFunction d) eqn:Ef.
  - unfold resolveAsync. destruct_matches; simpl; auto.
  - unfold memberOfAsync.
    pose proof (memberOfAsyncTry_fields world d) as H. cbv zeta in H.
    destruct (memberOfAsyncTry world d) as [d1 [u|err]]; simpl in *.
    + intuition congruence.
    + destruct_matches; simpl; intuition congruence.
Qed.

Lemma callAsyncFunction_recordOk world key d :
  recordOk key d = true -> recordOk key (fst (callAsyncFunction world d)) = true.
Proof.
  pose proof (callAsyncFunction_fields world d) as (Hf & Hv & Hs).
  unfold recordOk. rewrite Hf, Hv, Hs. auto.
Qed.


(* ===================================================================== *)
(** * Facts about the resolve phase *)
(* ===================================================================== *)

Section ResolvePhaseFacts.

Variable world : World.

Lemma isPending_registry key st st' :
  asyncCallsRequired st' = asyncCallsRequired st ->
  isPending key st' = isPending key st.
Proof. unfold isPending. now intros ->. Qed.

Lemma startPending_spec keys :
  forall st started st1,
    startPending world keys st = (started, st1) ->
    asyncCallsRequired st1 = asyncCallsRequired st /\
    results st1 = results st /\
    iterations st1 = iterations st /\
    requiresAsyncProcessing st1 = requiresAsyncProcessing st /\
    adapterCalls st1 = (adapterCalls st ++ map fst started)%list /\
    map fst started = filter (fun k => isPending k st) keys /\
    (forall k t, In (k, t) started ->
       exists d, JsMap.get k (asyncCallsRequired st) = Some d /\
                 t = settleTime world k d).
Proof.
  induction keys as [|key rest IH]; intros st started st1; simpl.
  - intros [= <- <-]. rewrite app_nil_r. repeat split; auto. intros k t [].
  - unfold isPending at 1.
    destruct (JsMap.get key (asyncCallsRequired st)) as [d|] eqn:Hd.
    + destruct (negb (evaluationCompleted d)) eqn:Hp.
      * set (st0 := recordAdapterCall key _).
        destruct (startPending world rest st0) as [started0 st2] eqn:Hs.
        intros [= <- <-].
        destruct (IH _ _ _ Hs) as (Hr & Hres & Hi & Hf & Hc & Hm & Ht).
        simpl in *. repeat split; auto.
        -- rewrite Hc. simpl. now rewrite <- app_assoc.
        -- f_equal. rewrite Hm. apply filter_ext. intros k.
           now apply isPending_registry.
        -- intros k t [[= <- <-]|Hin]; eauto.
      * intros Hs. destruct (IH _ _ _ Hs) as (Hr & Hres & Hi & Hf & Hc & Hm & Ht).
        repeat split; auto.
    + intros Hs. destruct (IH _ _ _ Hs) as (Hr & Hres & Hi & Hf & Hc & Hm & Ht).
      repeat split; auto.
Qed.

Lemma settleInsert_perm c order : Permutation (settleInsert c order) (c :: order).
Proof.
  induction order as [|c0 rest IH]; simpl; auto.
  destruct (snd c <=? snd c0)%nat; auto.
  rewrite IH. apply perm_swap.
Qed.

Lemma settleSort_perm started :
  Permutation (fold_right settleInsert [] started) started.
Proof.
  induction started as [|c rest IH]; simpl; auto.
  rewrite settleInsert_perm. now constructor.
Qed.

Lemma settleOrder_perm started :
  Permutation (settleOrder started) (map fst started).
Proof. unfold settleOrder. apply Permutation_map, settleSort_perm. Qed.




Lemma promiseAll_frame order :
  forall st st' rejection,
    promiseAll world order st = (st', rejection) ->
    results st' = results st /\
    outcome st' = outcome st /\
    iterations st' = iterations st /\
    requiresAsyncProcessing st' = requiresAsyncProcessing st /\
    adapterCalls st' = adapterCalls st /\
    JsMap.keys (asyncCallsRequired st') = JsMap.keys (asyncCallsRequired st).
Proof.
  induction order as [|key rest IH]; intros st st' rejection; simpl.
  - intros [= <- <-]. repeat split.
  - destruct (JsMap.get key (asyncCallsRequired st)) as [d|] eqn:Hd; [|apply IH].
    destruct (callAsyncFunction world d) as [d' [r|]].
    + intros [= <- <-]. simpl. repeat split.
      apply JsMapFacts.keys_set_present. eapply JsMapFacts.get_in_keys; eauto.
    + intros H. apply IH in H. simpl in H.
      destruct H as (H1 & H2 & H3 & H4 & H5 & H6). repeat split; auto.
      rewrite H6. apply JsMapFacts.keys_set_present.
      eapply JsMapFacts.get_in_keys; eauto.
Qed.

Lemma promiseAll_other order :
  forall st st' rejection k,
    promiseAll world order st = (st', rejection) ->
    ~ In k order ->
    JsMap.get k (asyncCallsRequired st') = JsMap.get k (asyncCallsRequired st).
Proof.
  induction order as [|key rest IH]; intros st st' rejection k; simpl.
  - now intros [= <- <-].
  - intros H Hnin.
    assert (key <> k) by tauto. assert (~ In k rest) by tauto.
    destruct (JsMap.get key (asyncCallsRequired st)) as [d|] eqn:Hd; [|eauto].
    destruct (callAsyncFunction world d) as [d' [r|]].
    + injection H as <- <-. simpl. now apply JsMapFacts.get_set_ne.
    + rewrite (IH _ _ _ _ H H1). simpl. now apply JsMapFacts.get_set_ne.
Qed.

(** The combined promise is fulfilled: every call of the batch has run and
    none rejected. *)
Lemma promiseAll_fulfilled order :
  forall st st',
    NoDup order ->
    promiseAll world order st = (st', None) ->
    forall k d,
      In k order -> JsMap.get k (asyncCallsRequired st) = Some d ->
      JsMap.get k (asyncCallsRequired st') = Some (fst (callAsyncFunction world d)) /\
      snd (callAsyncFunction world d) = None.
Proof.
  induction order as [|key rest IH]; intros st st' Hnd; simpl; [intros _ k d []|].
  inversion Hnd as [|? ? Hnin Hnd']; subst.
  destruct (JsMap.get key (asyncCallsRequired st)) as [d0|] eqn:Hd0.
  - destruct (callAsyncFunction world d0) as [d0' [r|]] eqn:Hcall; [discriminate|].
    intros H k d [<-|Hin] Hk.
    + rewrite Hd0 in Hk. injection Hk as <-. rewrite Hcall. simpl. split; auto.
      erewrite promiseAll_other; eauto. simpl. apply JsMapFacts.get_set_eq.
    + eapply IH; eauto. simpl. rewrite JsMapFacts.get_set_ne; auto.
      intros ->. contradiction.
  - intros H k d [<-|Hin] Hk; [congruence|]. eapply IH; eauto.
Qed.


End ResolvePhaseFacts.

Section DriverFacts.

Variable world : World.

Lemma promiseAll_recordOk order :
  forall st st' rejection,
    promiseAll world order st = (st', rejection) ->
    (forall k d, JsMap.get k (asyncCallsRequired st) = Some d -> recordOk k d = true) ->
    (forall k d, JsMap.get k (asyncCallsRequired st') = Some d -> recordOk k d = true).
Proof.
  induction order as [|key rest IH]; intros st st' rejection; simpl.
  - now intros [= <- <-].
  - destruct (JsMap.get key (asyncCallsRequired st)) as [d0|] eqn:Hd0; [|apply IH].
    pose proof (callAsyncFunction_recordOk world key d0) as Hok.
    destruct (callAsyncFunction world d0) as [d0' [r|]]; simpl in Hok.
    + intros [= <- <-] Hall k d. simpl. rewrite JsMapFacts.get_set.
      destruct (key =? k) eqn:E; [|apply Hall].
      apply String.eqb_eq in E. subst k. intros [= <-]. eauto.
    + intros H Hall. eapply IH; eauto. simpl. intros k d.
      rewrite JsMapFacts.get_set.
      destruct (key =? k) eqn:E; [|apply Hall].
      apply String.eqb_eq in E. subst k. intros [= <-]. eauto.
Qed.

Lemma pendingKeys_in k st : In k (pendingKeys st) <-> isPending k st = true.
Proof.
  unfold pendingKeys. rewrite filter_In. split; [tauto|].
  intros H. split; auto. unfold isPending in H.
  destruct (JsMap.get k (asyncCallsRequired st)) eqn:E; [|discriminate].
  eapply JsMapFacts.get_in_keys; eauto.
Qed.

Lemma pendingKeys_nodup st :
  NoDup (JsMap.keys (asyncCallsRequired st)) -> NoDup (pendingKeys st).
Proof. apply NoDup_filter. Qed.

(** The parts of a resolve phase: the calls started, the state they are
    started in, and the order they settle in. *)
Lemma resolvePhase_parts st st' rejection :
  resolvePhase world st = (st', rejection) ->
  (JsMap.size (asyncCallsRequired st) = 0%nat /\ st' = st /\ rejection = None) \/
  exists started st1 st2,
    startPending world (JsMap.keys (asyncCallsRequired st)) st = (started, st1) /\
    promiseAll world (settleOrder started) st1 = (st2, rejection) /\
    map fst started = pendingKeys st /\
    st' = match rejection with
          | Some _ => st2
          | None => exec (setRequiresAsyncProcessing false) st2
          end.
Proof.
  unfold resolvePhase.
  destruct (0 <? JsMap.size (asyncCallsRequired st))%nat eqn:E.
  - destruct (startPending world _ st) as [started st1] eqn:Hs.
    destruct (promiseAll world (settleOrder started) st1) as [st2 [r|]] eqn:Hp;
      intros [= <- <-]; right; exists started, st1, st2; split_ands; auto;
      apply (startPending_spec world _ _ _ _ Hs).
  - intros [= <- <-]. left. apply Nat.ltb_ge in E. split_ands; auto. lia.
Qed.

Lemma resolvePhase_frame st st' rejection :
  resolvePhase world st = (st', rejection) ->
  results st' = results st /\
  iterations st' = iterations st /\
  JsMap.keys (asyncCallsRequired st') = JsMap.keys (asyncCallsRequired st) /\
  adapterCalls st' = (adapterCalls st ++ pendingKeys st)%list /\
  (forall k, isPending k st = false ->
     JsMap.get k (asyncCallsRequired st') = JsMap.get k (asyncCallsRequired st)) /\
  ((forall k d, JsMap.get k (asyncCallsRequired st) = Some d -> recordOk k d = true) ->
   (forall k d, JsMap.get k (asyncCallsRequired st') = Some d -> recordOk k d = true)).
Proof.
  intros H. apply resolvePhase_parts in H.
  destruct H as [(Hsz & -> & ->) | (started & st1 & st2 & Hs & Hp & Hm & ->)].
  - split_ands; auto.
    unfold pendingKeys, JsMap.keys, JsMap.size in *.
    destruct (asyncCallsRequired st); [|discriminate]. simpl. now rewrite app_nil_r.
  - destruct (startPending_spec world _ _ _ _ Hs) as (Hr & Hres & Hi & Hf & Hc & _ & _).
    destruct (promiseAll_frame world _ _ _ _ Hp) as (P1 & _ & P3 & _ & P5 & P6).
    assert (Hother : forall k, isPending k st = false ->
              JsMap.get k (asyncCallsRequired st2) = JsMap.get k (asyncCallsRequired st)).
    { intros k Hk. rewrite <- Hr. eapply promiseAll_other; eauto.
      intros Hin. eapply Permutation_in in Hin; [|apply settleOrder_perm].
      rewrite Hm in Hin. apply pendingKeys_in in Hin. congruence. }
    assert (Hok : (forall k d, JsMap.get k (asyncCallsRequired st) = Some d -> recordOk k d = true) ->
                  forall k d, JsMap.get k (asyncCallsRequired st2) = Some d -> recordOk k d = true).
    { intros Hall. eapply promiseAll_recordOk; eauto. now rewrite Hr. }
    destruct rejection; simpl; split_ands; auto; try congruence;
      rewrite P5, Hc, Hm; auto.
Qed.

Lemma registryOk_syncStep st st' :
  syncStep st st' -> registryOk st -> registryOk st'.
Proof.
  intros Hs [Hnd Hok]. split.
  - now apply (ss_nodup _ _ Hs).
  - intros k d Hd. destruct (ss_records _ _ Hs _ _ Hd) as [H|H]; [eauto|tauto].
Qed.

Lemma registryOk_resolvePhase st st' rejection :
  resolvePhase world st = (st', rejection) -> registryOk st -> registryOk st'.
Proof.
  intros H [Hnd Hok].
  destruct (resolvePhase_frame _ _ _ H) as (_ & _ & Hk & _ & _ & Hr).
  split; [now rewrite Hk | auto].
Qed.

Lemma evaluatePass_registry e st :
  asyncCallsRequired (fst (evaluatePass world e st)) =
  asyncCallsRequired (snd (evaluate world e st)) /\
  iterations (fst (evaluatePass world e st)) = iterations (snd (evaluate world e st)) /\
  adapterCalls (fst (evaluatePass world e st)) = adapterCalls (snd (evaluate world e st)) /\
  requiresAsyncProcessing (fst (evaluatePass world e st)) =
  requiresAsyncProcessing (snd (evaluate world e st)).
Proof.
  unfold evaluatePass.
  destruct (evaluate world e st) as [[values|err] st1]; simpl; auto.
  destruct (JS.truthy _); simpl; auto.
Qed.

Lemma iteration_iterations e st :
  iterations (fst (iteration world e st)) = S (iterations st).
Proof.
  unfold iteration.
  destruct (resolvePhase world (incrementIterations st)) as [st2 [r|]] eqn:Hr;
    destruct (resolvePhase_frame _ _ _ Hr) as (_ & Hi & _); simpl in *; auto.
  destruct (evaluatePass_registry e
              (exec (logMessage "performing iteration: " (VNum (Z.of_nat (iterations st2)))) st2))
    as (_ & Hi' & _).
  rewrite Hi'. rewrite (ss_iterations _ _ (evaluate_step world e _)). simpl. auto.
Qed.

Lemma registryOk_iteration e st :
  registryOk st -> registryOk (fst (iteration world e st)).
Proof.
  intros Hok. unfold iteration.
  destruct (resolvePhase world (incrementIterations st)) as [st2 [r|]] eqn:Hr;
    pose proof (registryOk_resolvePhase _ _ _ Hr Hok) as Hok2; simpl; auto.
  set (st3 := exec _ st2).
  destruct (evaluatePass_registry e st3) as (Hreg & _).
  assert (H3 : registryOk (snd (evaluate world e st3))).
  { eapply registryOk_syncStep; [apply evaluate_step|]. exact Hok2. }
  destruct H3 as [Hnd H3]. split; rewrite Hreg; auto.
Qed.

Lemma finish_state st :
  iterations (finalState (finish st)) = iterations st /\
  asyncCallsRequired (finalState (finish st)) = asyncCallsRequired st /\
  adapterCalls (finalState (finish st)) = adapterCalls st /\
  requiresAsyncProcessing (finalState (finish st)) = requiresAsyncProcessing st /\
  results (finalState (finish st)) = results st /\
  finish st = Fulfilled (results st) (finalState (finish st)).
Proof.
  unfold finish. destruct (1 <? iterations st)%nat; simpl; auto 10.
Qed.

(** The loop never runs out of passes to make. *)
Lemma doWhile_total e fuel :
  forall st,
    (maxIterations <= fuel + iterations st)%nat -> (0 < fuel)%nat ->
    exists s, doWhile world fuel e st = Some s.
Proof.
  induction fuel as [|fuel IH]; intros st Hfuel Hpos; [lia|]. simpl.
  pose proof (iteration_iterations e st) as Hi.
  destruct (iteration world e st) as [st' [reason|]]; simpl in Hi; eauto.
  destruct (requiresAsyncProcessing st' && (iterations st' <? maxIterations)%nat) eqn:E; eauto.
  apply andb_true_iff in E. destruct E as [_ E]. apply Nat.ltb_lt in E.
  apply IH; lia.
Qed.

Lemma doWhile_iterations e fuel :
  forall st s,
    doWhile world fuel e st = Some s ->
    (iterations st < maxIterations)%nat ->
    (iterations st < iterations (finalState s) <= maxIterations)%nat /\
    (forall values st', s = Fulfilled values st' ->
       requiresAsyncProcessing st' = true -> iterations st' = maxIterations).
Proof.
  induction fuel as [|fuel IH]; intros st s; simpl; [discriminate|].
  pose proof (iteration_iterations e st) as Hi.
  destruct (iteration world e st) as [st' [reason|]]; simpl in Hi.
  - intros [= <-] Hlt. simpl. split; [lia|discriminate].
  - destruct (requiresAsyncProcessing st' && (iterations st' <? maxIterations)%nat) eqn:E.
    + apply andb_true_iff in E. destruct E as [_ E]. apply Nat.ltb_lt in E.
      intros H Hlt. destruct (IH _ _ H E) as [H1 H2]. split; [lia|auto].
    + intros [= <-] Hlt.
      destruct (finish_state st') as (F1 & _ & _ & F4 & _ & F6).
      split; [lia|].
      intros values st'' Heq Hflag. rewrite F6 in Heq. injection Heq as Hv Hst.
      subst st''. clear F1 F4 F6.
      destruct (1 <? iterations st')%nat; simpl in *;
        rewrite Hflag in E; simpl in E; apply Nat.ltb_ge in E; lia.
Qed.

Lemma doWhile_unfold fuel e st :
  doWhile world (S fuel) e st =
  match iteration world e st with
  | (st', Some reason) => Some (Rejected reason st')
  | (st', None) =>
      if requiresAsyncProcessing st' && (iterations st' <? maxIterations)%nat
      then doWhile world fuel e st'
      else Some (finish st')
  end.
Proof. reflexivity. Qed.

End DriverFacts.

(* ===================================================================== *)
(** * Facts about dates *)
(* ===================================================================== *)

Module DateFacts.

Open Scope Z_scope.


Lemma yoe_correct doe :
  0 <= doe <= 146096 ->
  let yoe := (doe - doe / 1460 + doe / 36524 - doe / 146096) / 365 in
  0 <= yoe <= 399 /\ eraDay yoe <= doe < eraDay yoe + yearLength yoe.
Proof.
  intros H. cbv zeta. unfold yearLength, eraDay.
  set (yoe := (doe - doe / 1460 + doe / 36524 - doe / 146096) / 365).
  assert (Hy : 0 <= yoe <= 399 /\ 365 * yoe + yoe / 4 - yoe / 100 <= doe /\
               (doe < 365 * (yoe + 1) + (yoe + 1) / 4 - (yoe + 1) / 100 \/ yoe = 399)).
  { unfold yoe. Z.div_mod_to_equations; lia. }
  destruct (yoe =? 399) eqn:E.
  - apply Z.eqb_eq in E. rewrite E in *. 
    change (365 * 399 + 399 / 4 - 399 / 100) with 145731 in *. lia.
  - apply Z.eqb_neq in E. lia.
Qed.

Lemma month_correct doy :
  0 <= doy <= 365 ->
  let mp := (5 * doy + 2) / 153 in
  0 <= mp <= 11 /\ monthDay mp <= doy < monthDay (mp + 1).
Proof.
  intros H. cbv zeta. unfold monthDay. Z.div_mod_to_equations; lia.
Qed.

Lemma yearLength_bound yoe : 0 <= yoe <= 399 -> 365 <= yearLength yoe <= 366.
Proof.
  intros H. unfold yearLength, eraDay. destruct (yoe =? 399); [lia|].
  Z.div_mod_to_equations; lia.
Qed.

(** The parts of a day number: era, year of the era, day of that year. *)
Lemma era_split z :
  exists e doe, z = e * 146097 + doe /\ 0 <= doe <= 146096 /\
                z / 146097 = e /\ z - e * 146097 = doe.
Proof.
  exists (z / 146097), (z mod 146097).
  pose proof (Z.div_mod z 146097). pose proof (Z.mod_pos_bound z 146097). 
  split_ands; try lia. 
Qed.

Lemma eraDay_mono a b : 0 <= a -> a < b -> eraDay a + 365 <= eraDay b.
Proof.
  intros Ha Hab. unfold eraDay. Z.div_mod_to_equations; lia.
Qed.

(** What [civilFromDays] computes, in terms of the March-based calendar:
    the era, the year of the era, the day of that year and its month. *)
Lemma civilFromDays_spec z :
  exists e yoe doy mp,
    z + 719468 = e * 146097 + eraDay yoe + doy /\
    0 <= yoe <= 399 /\ 0 <= doy < yearLength yoe /\
    0 <= mp <= 11 /\ monthDay mp <= doy < monthDay (mp + 1) /\
    JsDate.civilFromDays z =
      (if monthOf mp <=? 2 then yoe + e * 400 + 1 else yoe + e * 400,
       monthOf mp, doy - monthDay mp + 1).
Proof.
  unfold JsDate.civilFromDays.
  destruct (era_split (z + 719468)) as (e & doe & Hz & Hdoe & He & Hr).
  cbv zeta. rewrite He, Hr.
  destruct (yoe_correct doe Hdoe) as [Hyoe Hin]. cbv zeta in Hyoe, Hin.
  set (yoe := (doe - doe / 1460 + doe / 36524 - doe / 146096) / 365) in *.
  pose proof (yearLength_bound yoe Hyoe) as Hlen.
  fold (eraDay yoe).
  set (doy := doe - eraDay yoe).
  assert (Hdoy : 0 <= doy <= 365) by (unfold doy; lia).
  destruct (month_correct doy Hdoy) as [Hmp Hmd]. cbv zeta in Hmp, Hmd.
  set (mp := (5 * doy + 2) / 153) in *.
  exists e, yoe, doy, mp. fold (monthDay mp). fold (monthOf mp).
  split_ands; try lia; try (unfold doy; lia).
  reflexivity.
Qed.


Lemma daysFromCivil_spec y m d :
  let y0 := if m <=? 2 then y - 1 else y in
  JsDate.daysFromCivil y m d + 719468 =
    (y0 / 400) * 146097 + eraDay (y0 - y0 / 400 * 400) + (monthDay (marchMonth m) + d - 1).
Proof.
  unfold JsDate.daysFromCivil, eraDay, monthDay, marchMonth. cbv zeta. lia.
Qed.

(** A day number has one decomposition. *)
Lemma decomposition_unique e yoe doy e' yoe' doy' :
  0 <= yoe <= 399 -> 0 <= doy < yearLength yoe ->
  0 <= yoe' <= 399 -> 0 <= doy' < yearLength yoe' ->
  e * 146097 + eraDay yoe + doy = e' * 146097 + eraDay yoe' + doy' ->
  e = e' /\ yoe = yoe' /\ doy = doy'.
Proof.
  intros Hy Hd Hy' Hd' E.
  assert (B : forall a b, 0 <= a <= 399 -> 0 <= b < yearLength a ->
                          0 <= eraDay a + b <= 146096).
  { intros a b Ha Hb. unfold yearLength, eraDay in *.
    destruct (a =? 399) eqn:Ea.
    - apply Z.eqb_eq in Ea. subst a. change (365 * 399 + 399 / 4 - 399 / 100) with 145731. lia.
    - apply Z.eqb_neq in Ea. Z.div_mod_to_equations. lia. }
  pose proof (B _ _ Hy Hd). pose proof (B _ _ Hy' Hd').
  assert (e = e') by lia. subst e'.
  assert (Hlen : forall a, 0 <= a < 399 -> eraDay a + yearLength a = eraDay (a + 1)).
  { intros a Ha. unfold yearLength. destruct (a =? 399) eqn:Ea; [apply Z.eqb_eq in Ea; lia|lia]. }
  assert (yoe = yoe').
  { destruct (Z.lt_trichotomy yoe yoe') as [Hlt|[Heq|Hgt]]; auto; exfalso.
    - assert (eraDay (yoe + 1) <= eraDay yoe').
      { destruct (Z.eq_dec (yoe + 1) yoe') as [<-|]; [lia|].
        pose proof (eraDay_mono (yoe + 1) yoe'). lia. }
      pose proof (Hlen yoe). lia.
    - assert (eraDay (yoe' + 1) <= eraDay yoe).
      { destruct (Z.eq_dec (yoe' + 1) yoe) as [<-|]; [lia|].
        pose proof (eraDay_mono (yoe' + 1) yoe). lia. }
      pose proof (Hlen yoe'). lia. }
  subst yoe'. split_ands; auto. lia.
Qed.

Lemma monthDay_unique mp mp' doy :
  0 <= mp <= 11 -> 0 <= mp' <= 11 ->
  monthDay mp <= doy < monthDay (mp + 1) ->
  monthDay mp' <= doy < monthDay (mp' + 1) ->
  mp = mp'.
Proof.
  unfold monthDay. intros. Z.div_mod_to_equations. lia.
Qed.

(** The length of a March-based year is decided by the February that ends
    it, which is the February of the next calendar year. *)
Lemma yearLength_leap e yoe :
  0 <= yoe <= 399 ->
  yearLength yoe = if isLeapYear (yoe + e * 400 + 1) then 366 else 365.
Proof.
  intros H. unfold yearLength, isLeapYear, eraDay.
  replace ((yoe + e * 400 + 1) mod 4) with ((yoe + 1) mod 4)
    by (replace (yoe + e * 400 + 1) with (yoe + 1 + (100 * e) * 4) by lia;
        now rewrite Z.mod_add by lia).
  replace ((yoe + e * 400 + 1) mod 100) with ((yoe + 1) mod 100)
    by (replace (yoe + e * 400 + 1) with (yoe + 1 + (4 * e) * 100) by lia;
        now rewrite Z.mod_add by lia).
  replace ((yoe + e * 400 + 1) mod 400) with ((yoe + 1) mod 400)
    by (replace (yoe + e * 400 + 1) with (yoe + 1 + e * 400) by lia;
        now rewrite Z.mod_add by lia).
  destruct (yoe =? 399) eqn:E.
  - apply Z.eqb_eq in E. subst. reflexivity.
  - apply Z.eqb_neq in E.
    destruct (Z.eqb_spec ((yoe + 1) mod 4) 0) as [E4|E4];
      destruct (Z.eqb_spec ((yoe + 1) mod 100) 0) as [E100|E100];
      destruct (Z.eqb_spec ((yoe + 1) mod 400) 0) as [E400|E400];
      cbn [andb orb negb]; Z.div_mod_to_equations; lia.
Qed.

Lemma month_cases m :
  1 <= m <= 12 ->
  m = 1 \/ m = 2 \/ m = 3 \/ m = 4 \/ m = 5 \/ m = 6 \/ m = 7 \/ m = 8 \/ m = 9 \/
  m = 10 \/ m = 11 \/ m = 12.
Proof. lia. Qed.

Lemma monthOf_marchMonth m : 1 <= m <= 12 -> monthOf (marchMonth m) = m.
Proof.
  intros H. unfold monthOf, marchMonth.
  destruct (Z.ltb_spec 2 m);
    match goal with |- context [?a <? 10] => destruct (Z.ltb_spec a 10) end; lia.
Qed.

Lemma marchMonth_monthOf mp : 0 <= mp <= 11 -> marchMonth (monthOf mp) = mp.
Proof.
  intros H. unfold monthOf, marchMonth.
  destruct (Z.ltb_spec mp 10);
    match goal with |- context [2 <? ?a] => destruct (Z.ltb_spec 2 a) end; lia.
Qed.

Lemma marchMonth_bound m : 1 <= m <= 12 -> 0 <= marchMonth m <= 11.
Proof. intros H. unfold marchMonth. destruct (Z.ltb_spec 2 m); lia. Qed.

(** The months of the March-based year have the lengths of the calendar's,
    but for February, the last one, which the length of the year cuts. *)
Lemma monthDay_length y m :
  1 <= m <= 12 -> m <> 2 ->
  monthDay (marchMonth m + 1) - monthDay (marchMonth m) = daysInMonth y m /\
  monthDay (marchMonth m + 1) <= 337.
Proof.
  intros H H2. destruct (month_cases m H) as [->|Hm]; [split; [reflexivity | discriminate]|].
  destruct Hm as [->|Hm]; [contradiction|].
  repeat (destruct Hm as [->|Hm]; [split; [reflexivity | discriminate]|]).
  subst. split; [reflexivity | discriminate].
Qed.

Lemma monthDay_february : monthDay (marchMonth 2) = 337 /\ monthDay (marchMonth 2 + 1) = 367.
Proof. split; reflexivity. Qed.

(** The year of the era of a calendar year, counted from March. *)
Lemma marchYear m y :
  let y0 := if m <=? 2 then y - 1 else y in
  let e := y0 / 400 in
  let yoe := y0 - e * 400 in
  0 <= yoe <= 399 /\ y = if m <=? 2 then yoe + e * 400 + 1 else yoe + e * 400.
Proof.
  cbv zeta. destruct (m <=? 2); split; try lia; Z.div_mod_to_equations; lia.
Qed.

(** A day of the month is a day of its March-based year, and the other way
    round for a day that [parse] accepts. *)
Lemma dayOfYear_valid y m d e yoe :
  1 <= m <= 12 -> 1 <= d <= 31 -> 0 <= yoe <= 399 ->
  y = (if m <=? 2 then yoe + e * 400 + 1 else yoe + e * 400) ->
  let doy := monthDay (marchMonth m) + d - 1 in
  d <= daysInMonth y m <->
  (0 <= doy < yearLength yoe /\ monthDay (marchMonth m) <= doy < monthDay (marchMonth m + 1)).
Proof.
  intros Hm Hd Hyoe Hy. cbv zeta.
  pose proof (yearLength_bound yoe Hyoe) as Hlen.
  assert (H0 : 0 <= monthDay (marchMonth m)).
  { pose proof (marchMonth_bound m Hm). unfold monthDay. Z.div_mod_to_equations. lia. }
  destruct (Z.eq_dec m 2) as [->|Hne].
  - destruct monthDay_february as [F1 F2]. rewrite F1, F2.
    change (2 <=? 2) with true in Hy. cbv iota in Hy.
    unfold daysInMonth. change (2 =? 2) with true. cbv iota.
    rewrite (yearLength_leap e yoe Hyoe), <- Hy.
    destruct (isLeapYear y); lia.
  - destruct (monthDay_length y m Hm Hne) as [L1 L2]. lia.
Qed.

(** What [new Date(s)] and [toISOString] do to the fields of a date between
    them: they come back as they went in exactly when the day is a day of
    its month, and what comes back is always a month and a day. *)
Lemma civilFromDays_daysFromCivil y m d :
  1 <= m <= 12 -> 1 <= d <= 31 ->
  let '(y', m', d') := JsDate.civilFromDays (JsDate.daysFromCivil y m d) in
  ((y' = y /\ m' = m /\ d' = d) <-> d <= daysInMonth y m) /\
  1 <= m' <= 12 /\ 1 <= d' <= 31.
Proof.
  intros Hm Hd.
  destruct (civilFromDays_spec (JsDate.daysFromCivil y m d))
    as (e' & yoe' & doy' & mp' & Hz & Hyoe' & Hdoy' & Hmp' & Hmd' & ->).
  pose proof (daysFromCivil_spec y m d) as Hs. cbv zeta in Hs.
  destruct (marchYear m y) as [Hyoe Hy]. 
  set (y0 := if m <=? 2 then y - 1 else y) in *.
  set (e := y0 / 400) in *. set (yoe := y0 - e * 400) in *.
  pose proof (dayOfYear_valid y m d e yoe Hm Hd Hyoe Hy) as Hvalid. cbv zeta in Hvalid.
  pose proof (marchMonth_bound m Hm) as Hmp.
  pose proof (monthOf_marchMonth m Hm) as Hmm.
  set (mp := marchMonth m) in *.
  rewrite Hs in Hz. clear Hs.
  split_ands.
  - rewrite Hvalid. split.
    + intros (Ey & Em & Ed).
      assert (mp' = mp) by (rewrite <- (marchMonth_monthOf mp' Hmp'), Em; reflexivity).
      subst mp'. rewrite Hmm in Ey.
      assert (yoe' + e' * 400 = yoe + e * 400) by (destruct (m <=? 2); lia).
      assert (e' = e) by lia. subst e'.
      assert (yoe' = yoe) by lia. subst yoe'.
      assert (doy' = monthDay mp + d - 1) by lia. subst doy'. lia.
    + intros [V1 V2].
      destruct (decomposition_unique e yoe (monthDay mp + d - 1) e' yoe' doy'
                  Hyoe V1 Hyoe' Hdoy' Hz) as (<- & <- & <-).
      assert (mp' = mp) by (apply (monthDay_unique mp' mp (monthDay mp + d - 1)); auto).
      subst mp'. rewrite Hmm. split_ands; [symmetry; exact Hy | reflexivity | lia].
  - unfold monthOf. destruct (Z.ltb_spec mp' 10); lia.
  - unfold monthOf. destruct (Z.ltb_spec mp' 10); lia.
  - lia.
  - unfold monthDay in *. Z.div_mod_to_equations. lia.
Qed.

Lemma roundTrips_all y m d :
  1 <= m <= 12 -> 1 <= d <= 31 -> roundTrips y m d = true.
Proof.
  intros Hm Hd. unfold roundTrips.
  pose proof (civilFromDays_daysFromCivil y m d Hm Hd) as H.
  destruct (JsDate.civilFromDays (JsDate.daysFromCivil y m d)) as [[y' m'] d'].
  destruct H as (Hiff & Hm' & Hd').
  rewrite !andb_true_iff, !Z.leb_le. split_ands; [|lia ..].
  apply Bool.eqb_true_iff.
  destruct (Z.leb_spec d (daysInMonth y m)) as [L|L].
  - apply Hiff in L. destruct L as (-> & -> & ->). now rewrite !Z.eqb_refl.
  - rewrite !andb_false_iff, !Z.eqb_neq.
    destruct (Z.eq_dec y' y) as [->|]; [|tauto].
    destruct (Z.eq_dec m' m) as [->|]; [|tauto].
    destruct (Z.eq_dec d' d) as [->|]; [|tauto].
    assert (d <= daysInMonth y m) by (apply Hiff; auto). lia.
Qed.

Lemma digit_of_char c :
  JsDate.isDigit c = true ->
  JsDate.digitChar (JsDate.digit c) = c /\ 0 <= JsDate.digit c <= 9.
Proof.
  destruct c as [b0 b1 b2 b3 b4 b5 b6 b7].
  destruct b0, b1, b2, b3, b4, b5, b6, b7; intros H;
    try discriminate H; split; try reflexivity; unfold JsDate.digit; simpl; lia.
Qed.

Lemma digit_cases k :
  0 <= k <= 9 ->
  k = 0 \/ k = 1 \/ k = 2 \/ k = 3 \/ k = 4 \/ k = 5 \/ k = 6 \/ k = 7 \/ k = 8 \/ k = 9.
Proof. lia. Qed.

Lemma char_of_digit k :
  0 <= k <= 9 -> JsDate.digit (JsDate.digitChar k) = k.
Proof.
  intros H. pose proof (digit_cases k H) as Hk.
  repeat (destruct Hk as [-> | Hk]; [reflexivity|]). now subst.
Qed.

(** A digit is neither of the signs of an expanded year. *)
Lemma digitChar_not_sign k :
  0 <= k <= 9 -> JsDate.digitChar k <> "+"%char /\ JsDate.digitChar k <> "-"%char.
Proof.
  intros H. pose proof (digit_cases k H) as Hk.
  repeat (destruct Hk as [-> | Hk]; [split; discriminate|]). subst. split; discriminate.
Qed.

Lemma hyphen_char c : JsDate.isHyphen c = true -> c = "-"%char.
Proof. unfold JsDate.isHyphen. apply Ascii.eqb_eq. Qed.

Lemma digitChar_inj a b :
  JsDate.digitChar (a mod 10) = JsDate.digitChar (b mod 10) -> a mod 10 = b mod 10.
Proof.
  intros E. apply (f_equal JsDate.digit) in E.
  pose proof (Z.mod_pos_bound a 10). pose proof (Z.mod_pos_bound b 10).
  rewrite !char_of_digit in E by lia. exact E.
Qed.

Lemma pad2_inj m m' :
  0 <= m <= 99 -> 0 <= m' <= 99 -> JsDate.pad 2 m = JsDate.pad 2 m' -> m = m'.
Proof.
  intros H H' E. unfold JsDate.pad in E. cbn [JsDate.digits] in E.
  injection E as E1 E2. apply digitChar_inj in E1, E2.
  Z.div_mod_to_equations. lia.
Qed.

Lemma pad4_inj y y' :
  0 <= y <= 9999 -> 0 <= y' <= 9999 -> JsDate.pad 4 y = JsDate.pad 4 y' -> y = y'.
Proof.
  intros H H' E. unfold JsDate.pad in E. cbn [JsDate.digits] in E.
  injection E as E1 E2 E3 E4. apply digitChar_inj in E1, E2, E3, E4.
  Z.div_mod_to_equations. lia.
Qed.

(** A string of the shape [YYYY-MM-DD] is its fields written out. *)
Lemma regex_shape s :
  JsDate.dateRegexTest s = true ->
  let '(y, m, d) := JsDate.dateFields s in
  s = isoText y m d /\ 0 <= y <= 9999 /\ 0 <= m <= 99 /\ 0 <= d <= 99.
Proof.
  unfold JsDate.dateRegexTest, JsDate.dateFields.
  assert (Hs : s = string_of_list_ascii (list_ascii_of_string s))
    by (symmetry; apply string_of_list_ascii_of_string).
  revert Hs.
  destruct (list_ascii_of_string s) as [|y1 [|y2 [|y3 [|y4 [|h1 [|m1 [|m2 [|h2 [|d1 [|d2 [|]]]]]]]]]]];
    try discriminate.
  intros Hs H. rewrite !andb_true_iff in H.
  destruct H as [[[[[[[[[? ?] ?] ?] ?] ?] ?] ?] ?] ?].
  repeat match goal with
         | Hd : JsDate.isDigit ?c = true |- _ =>
             let E := fresh "E" in let B := fresh "B" in
             destruct (digit_of_char c Hd) as [E B]; clear Hd
         | Hh : JsDate.isHyphen ?c = true |- _ => apply hyphen_char in Hh; subst c
         end.
  set (a1 := JsDate.digit y1) in *. set (a2 := JsDate.digit y2) in *.
  set (a3 := JsDate.digit y3) in *. set (a4 := JsDate.digit y4) in *.
  set (b1 := JsDate.digit m1) in *. set (b2 := JsDate.digit m2) in *.
  set (c1 := JsDate.digit d1) in *. set (c2 := JsDate.digit d2) in *.
  cbv beta iota. split; [|lia].
  rewrite Hs. unfold isoText, JsDate.pad.
  cbn [JsDate.digits String.append string_of_list_ascii].
  set (y := 1000 * a1 + 100 * a2 + 10 * a3 + a4).
  replace ((y / 10 / 10 / 10) mod 10) with a1 by (unfold y; Z.div_mod_to_equations; lia).
  replace ((y / 10 / 10) mod 10) with a2 by (unfold y; Z.div_mod_to_equations; lia).
  replace ((y / 10) mod 10) with a3 by (unfold y; Z.div_mod_to_equations; lia).
  replace (y mod 10) with a4 by (unfold y; Z.div_mod_to_equations; lia).
  replace (((10 * b1 + b2) / 10) mod 10) with b1 by (Z.div_mod_to_equations; lia).
  replace ((10 * b1 + b2) mod 10) with b2 by (Z.div_mod_to_equations; lia).
  replace (((10 * c1 + c2) / 10) mod 10) with c1 by (Z.div_mod_to_equations; lia).
  replace ((10 * c1 + c2) mod 10) with c2 by (Z.div_mod_to_equations; lia).
  congruence.
Qed.

Lemma isoText_inj y m d y' m' d' :
  0 <= y <= 9999 -> 0 <= m <= 99 -> 0 <= d <= 99 ->
  0 <= y' <= 9999 -> 0 <= m' <= 99 -> 0 <= d' <= 99 ->
  isoText y m d = isoText y' m' d' -> y = y' /\ m = m' /\ d = d'.
Proof.
  intros Hy Hm Hd Hy' Hm' Hd' E. unfold isoText in E.
  unfold JsDate.pad in E. cbn [JsDate.digits String.append] in E.
  injection E as E1 E2 E3 E4 E5 E6 E7 E8.
  split_ands.
  - apply pad4_inj; auto. unfold JsDate.pad. cbn [JsDate.digits]. congruence.
  - apply pad2_inj; auto. unfold JsDate.pad. cbn [JsDate.digits]. congruence.
  - apply pad2_inj; auto. unfold JsDate.pad. cbn [JsDate.digits]. congruence.
Qed.

(** What is written with a digit in front is not an expanded year. *)
Lemma isoText_not_signed y m d sign rest :
  sign = "+"%char \/ sign = "-"%char ->
  (isoText y m d =? String sign rest)%string = false.
Proof.
  intros Hsign. apply String.eqb_neq. unfold isoText, JsDate.pad.
  cbn [JsDate.digits String.append]. intros E. injection E as E _.
  destruct (digitChar_not_sign ((y / 10 / 10 / 10) mod 10)) as [Hp Hn];
    [Z.div_mod_to_equations; lia|].
  destruct Hsign; congruence.
Qed.

Lemma daysInMonth_bound y m : 28 <= daysInMonth y m <= 31.
Proof.
  unfold daysInMonth.
  destruct (m =? 2); [destruct (isLeapYear y); lia|].
  destruct ((m =? 4) || (m =? 6) || (m =? 9) || (m =? 11))%bool; lia.
Qed.

Lemma Day_of_days x : JsDate.Day (x * JsDate.msPerDay) = x.
Proof. unfold JsDate.Day, JsDate.msPerDay. apply Z.div_mul. lia. Qed.

(** [isValidDateString] accepts the calendar dates, and nothing else. *)
Lemma isValidDateString_calendar v : isValidDateString v = isCalendarDate v.
Proof.
  unfold isValidDateString, isCalendarDate.
  destruct v as [| |b|n|s|xs|fields];
    try reflexivity;
    try (destruct b; reflexivity);
    try (cbn [JS.strictEqualsString];
         destruct (JsDate.dateRegexTest _); cbn [negb];
         [destruct (JsDate.parse _); reflexivity | reflexivity]).
  cbn [JS.toString JS.strictEqualsString].
  destruct (JsDate.dateRegexTest s) eqn:R; [|reflexivity]. cbn [negb andb].
  pose proof (regex_shape s R) as Hshape. unfold JsDate.parse.
  destruct (JsDate.dateFields s) as [[y m] d].
  destruct Hshape as (Hs & Hy & Hm & Hd).
  pose proof (daysInMonth_bound y m) as Hdim.
  destruct ((1 <=? m) && (m <=? 12) && (1 <=? d) && (d <=? 31))%bool eqn:C.
  - rewrite !andb_true_iff in C. destruct C as [[[C1 C2] C3] C4].
    rewrite C1, C2, C3. cbn [andb].
    apply Z.leb_le in C1, C2, C3, C4.
    pose proof (civilFromDays_daysFromCivil y m d (conj C1 C2) (conj C3 C4)) as RT.
    unfold JsDate.toISODate. rewrite Day_of_days.
    destruct (JsDate.civilFromDays (JsDate.daysFromCivil y m d)) as [[y' m'] d'].
    destruct RT as (RT & M' & D').
    destruct ((0 <=? y') && (y' <=? 9999))%bool eqn:Cy.
    + rewrite andb_true_iff in Cy. destruct Cy as [Cy1 Cy2]. apply Z.leb_le in Cy1, Cy2.
      fold (isoText y' m' d'). rewrite Hs.
      destruct (Z.leb_spec d (daysInMonth y m)) as [L|L].
      * apply RT in L. destruct L as (-> & -> & ->). apply String.eqb_refl.
      * apply String.eqb_neq. intros Heq.
        apply isoText_inj in Heq; [|lia ..]. destruct Heq as (-> & -> & ->).
        assert (d' <= daysInMonth y' m') by (apply RT; auto). lia.
    + assert (Hy' : y' <> y).
      { intros ->. rewrite andb_false_iff, !Z.leb_gt in Cy. lia. }
      replace (d <=? daysInMonth y m) with false
        by (symmetry; apply Z.leb_gt;
            destruct (Z.leb_spec d (daysInMonth y m)) as [L|L]; [apply RT in L|]; lia || tauto).
      rewrite Hs. destruct (y' <? 0); cbn [String.append];
        apply isoText_not_signed; auto.
  - destruct ((1 <=? m) && (m <=? 12) && (1 <=? d))%bool eqn:C'; [|reflexivity].
    cbn [andb] in C. apply Z.leb_gt in C.
    symmetry. apply Z.leb_gt. lia.
Qed.

End DateFacts.

Lemma calendarDate_parses v :
  isCalendarDate v = true -> exists birth, JsDate.parse (JS.toString v) = Some birth.
Proof.
  unfold isCalendarDate. destruct v as [| |b|n|s|xs|fields]; try discriminate.
  intros H. apply andb_true_iff in H. destruct H as [_ H].
  cbn [JS.toString]. unfold JsDate.parse.
  destruct (JsDate.dateFields s) as [[y m] d].
  pose proof (DateFacts.daysInMonth_bound y m) as Hdim.
  rewrite !andb_true_iff in H. destruct H as [[[H1 H2] H3] H4].
  rewrite H1, H2, H3. cbn [andb].
  replace (d <=? 31)%Z with true; [eauto|].
  symmetry. apply Z.leb_le. apply Z.leb_le in H4. lia.
Qed.

(** [birthdateToAge] answers with a number for a calendar date, and with
    [undefined] for anything else. *)
Lemma birthdateToAge_defined world v :
  JS.isDefined (birthdateToAge world v) = isCalendarDate v /\
  (isCalendarDate v = true -> exists age, birthdateToAge world v = VNum age).
Proof.
  unfold birthdateToAge. rewrite DateFacts.isValidDateString_calendar.
  destruct (isCalendarDate v) eqn:E; cbn [negb].
  - destruct (calendarDate_parses v E) as [birth ->].
    match goal with |- context [if ?c then _ else _] => destruct c end;
      split; eauto.
  - split; [reflexivity | discriminate].
Qed.

(* ===================================================================== *)
(** * The iteration bound *)
(* ===================================================================== *)

Lemma evaluateFhirpathAsync_total world e :
  exists s, evaluateFhirpathAsync world e = Some s.
Proof.
  apply doWhile_total; simpl; unfold maxIterations; lia.
Qed.

Lemma passesLeaveWork_doWhile world e n :
  forall st fuel,
    passesLeaveWork world e n st = true ->
    (iterations st + n = maxIterations)%nat -> (0 < n <= fuel)%nat ->
    exists st',
      doWhile world fuel e st = Some (finish st') /\
      requiresAsyncProcessing st' = true /\ iterations st' = maxIterations.
Proof.
  induction n as [|n IH]; intros st fuel Hw Hn Hfuel; [lia|].
  destruct fuel as [|fuel]; [lia|]. simpl in *.
  pose proof (iteration_iterations world e st) as Hi.
  destruct (iteration world e st) as [st1 [reason|]]; [discriminate|].
  simpl in Hi. apply andb_true_iff in Hw. destruct Hw as [Hflag Hw]. rewrite Hflag. simpl.
  destruct n as [|n].
  - assert (E : (iterations st1 <? maxIterations)%nat = false) by (apply Nat.ltb_ge; lia).
    rewrite E. exists st1. split_ands; auto. lia.
  - assert (E : (iterations st1 <? maxIterations)%nat = true) by (apply Nat.ltb_lt; lia).
    rewrite E. apply IH; auto; lia.
Qed.

(** C1, as the code has it: every evaluation settles after at least one and
    at most ten passes; it is fulfilled with work still outstanding only
    after exactly ten passes; and when each of ten passes leaves work
    outstanding, the driver stops after exactly ten passes and fulfils the
    promise with the results of the tenth pass, as it does for an evaluation
    that completed. *)
Theorem C1_at_most_ten_passes world e :
  exists s,
    evaluateFhirpathAsync world e = Some s /\
    (1 <= iterations (finalState s) <= maxIterations)%nat /\
    (forall values st,
       s = Fulfilled values st -> requiresAsyncProcessing st = true ->
       iterations st = maxIterations) /\
    (passesLeaveWork world e maxIterations initialState = true ->
       exists st,
         s = finish st /\ s = Fulfilled (results st) (finalState s) /\
         requiresAsyncProcessing st = true /\ iterations st = maxIterations).
Proof.
  destruct (evaluateFhirpathAsync_total world e) as [s Hs]. exists s.
  unfold evaluateFhirpathAsync in *.
  assert (Hlt : (iterations initialState < maxIterations)%nat)
    by (simpl; unfold maxIterations; lia).
  destruct (doWhile_iterations world e _ _ _ Hs Hlt) as [Hb Hf].
  split_ands; auto.
  - simpl in Hb. lia.
  - lia.
  - intros Hw.
    destruct (passesLeaveWork_doWhile world e maxIterations initialState maxIterations Hw)
      as (st & Hd & Hflag & Hi); [reflexivity | unfold maxIterations; lia |].
    rewrite Hd in Hs. injection Hs as <-. exists st. split_ands; auto.
    apply finish_state.
Qed.

(** The driver on a chain of twelve references, each resolved resource
    referring to the next: ten passes, each leaving work outstanding. *)
Lemma C1_at_most_ten_passes_witness :
  passesLeaveWork Samples.chainWorld Samples.longChain maxIterations initialState = true /\
  exists s,
    evaluateFhirpathAsync Samples.chainWorld Samples.longChain = Some s /\
    (1 <= iterations (finalState s) <= maxIterations)%nat /\
    (forall values st,
       s = Fulfilled values st -> requiresAsyncProcessing st = true ->
       iterations st = maxIterations) /\
    (passesLeaveWork Samples.chainWorld Samples.longChain maxIterations initialState = true ->
       exists st,
         s = finish st /\ s = Fulfilled (results st) (finalState s) /\
         requiresAsyncProcessing st = true /\ iterations st = maxIterations).
Proof.
  split; [vm_compute; reflexivity|].
  apply (C1_at_most_ten_passes Samples.chainWorld Samples.longChain).
Defined.

(** C1 as stated fails: the evaluation of the chain stops at the bound with
    work outstanding, and the caller is handed an empty result list, exactly
    what an evaluation that completed with no results hands over. *)
Lemma C1_bound_outcome_not_distinct :
  (exists st,
     evaluateFhirpathAsync Samples.chainWorld Samples.longChain = Some (Fulfilled [] st) /\
     iterations st = maxIterations /\ requiresAsyncProcessing st = true) /\
  (exists st,
     evaluateFhirpathAsync Samples.chainWorld (Return []) = Some (Fulfilled [] st) /\
     iterations st = 1%nat /\ requiresAsyncProcessing st = false) /\
  option_map delivered (evaluateFhirpathAsync Samples.chainWorld Samples.longChain) =
  option_map delivered (evaluateFhirpathAsync Samples.chainWorld (Return [])).
Proof.
  split_ands.
  - eexists. split_ands; [vm_compute; reflexivity | reflexivity | reflexivity].
  - eexists. split_ands; [vm_compute; reflexivity | reflexivity | reflexivity].
  - vm_compute. reflexivity.
Qed.

(* ===================================================================== *)
(** * Expressions without interceptable calls *)
(* ===================================================================== *)

(** C7: when the engine's run invokes no function of the table, the driver
    makes exactly one pass, the resolve phase of that pass finds the
    registry empty and does nothing, no adapter is called, and the promise
    is fulfilled with the engine's result list as it is. *)
Theorem C7_no_calls_one_pass world values :
  resolvePhase world (incrementIterations initialState) =
    (incrementIterations initialState, None) /\
  exists st,
    evaluateFhirpathAsync world (Return values) = Some (Fulfilled values st) /\
    iterations st = 1%nat /\
    adapterCalls st = [] /\
    asyncCallsRequired st = [] /\
    requiresAsyncProcessing st = false.
Proof.
  split; [reflexivity|].
  eexists. split_ands; [reflexivity | reflexivity ..].
Qed.

(* ===================================================================== *)
(** * Completed records *)
(* ===================================================================== *)

Lemma occurrences_app key l1 l2 :
  occurrences key (l1 ++ l2)%list = (occurrences key l1 + occurrences key l2)%nat.
Proof. apply count_occ_app. Qed.

Lemma occurrences_notin key l : ~ In key l -> occurrences key l = 0%nat.
Proof. apply count_occ_not_In. Qed.

Lemma completed_not_pending key details st :
  JsMap.get key (asyncCallsRequired st) = Some details ->
  evaluationCompleted details = true ->
  isPending key st = false.
Proof. unfold isPending. intros -> ->. reflexivity. Qed.

Lemma iteration_completed world e key details st :
  JsMap.get key (asyncCallsRequired st) = Some details ->
  evaluationCompleted details = true ->
  JsMap.get key (asyncCallsRequired (fst (iteration world e st))) = Some details /\
  occurrences key (adapterCalls (fst (iteration world e st))) =
  occurrences key (adapterCalls st).
Proof.
  intros Hd Hc. unfold iteration.
  destruct (resolvePhase world (incrementIterations st)) as [st2 rejection] eqn:Hr.
  destruct (resolvePhase_frame world _ _ _ Hr) as (_ & _ & _ & Hcalls & Hother & _).
  assert (Hp : isPending key (incrementIterations st) = false)
    by (eapply completed_not_pending; eauto).
  assert (H2 : JsMap.get key (asyncCallsRequired st2) = Some details)
    by (rewrite Hother; auto).
  assert (C2 : occurrences key (adapterCalls st2) = occurrences key (adapterCalls st)).
  { rewrite Hcalls, occurrences_app. simpl.
    rewrite (occurrences_notin key (pendingKeys (incrementIterations st))); [lia|].
    intros Hin. apply pendingKeys_in in Hin. congruence. }
  destruct rejection as [reason|]; simpl; auto.
  set (st3 := exec _ st2).
  destruct (evaluatePass_registry world e st3) as (Hreg & _ & Hcalls3 & _).
  pose proof (evaluate_step world e st3) as Hs.
  rewrite Hreg, Hcalls3, (ss_calls _ _ Hs). split; auto.
  apply (ss_completed _ _ Hs); auto.
Qed.

Lemma later_completed world key details st st' :
  JsMap.get key (asyncCallsRequired st) = Some details ->
  evaluationCompleted details = true ->
  later world st st' ->
  JsMap.get key (asyncCallsRequired st') = Some details /\
  occurrences key (adapterCalls st') = occurrences key (adapterCalls st).
Proof.
  intros Hd Hc. induction 1 as [|st1 e _ [IH1 IH2]|st1 e _ [IH1 IH2]|st1 text data _ IH].
  - auto.
  - pose proof (evaluate_step world e st1) as Hs.
    rewrite (ss_calls _ _ Hs). split; auto.
    apply (ss_completed _ _ Hs); auto.
  - destruct (iteration_completed world e key details st1 IH1 Hc) as [H1 H2].
    split; congruence.
  - exact IH.
Qed.

(** Every state of a run of the driver is a later state of the one it was
    started in. *)
Lemma doWhile_later world e fuel :
  forall st s, doWhile world fuel e st = Some s -> later world st (finalState s).
Proof.
  induction fuel as [|fuel IH]; intros st s; simpl; [discriminate|].
  destruct (iteration world e st) as [st' [reason|]] eqn:Hi.
  - intros [= <-]. simpl. change st' with (fst (st', Some reason)). rewrite <- Hi.
    apply later_iteration, later_here.
  - assert (L : later world st st').
    { change st' with (fst (st', @None Value)). rewrite <- Hi.
      apply later_iteration, later_here. }
    destruct (requiresAsyncProcessing st' && (iterations st' <? maxIterations)%nat).
    + intros H. apply IH in H. clear - L H.
      induction H; [auto | apply later_pass | apply later_iteration | apply later_log]; auto.
    + intros [= <-]. unfold finish.
      destruct (1 <? iterations st')%nat; simpl; auto.
      now apply later_log.
Qed.

(** What the handlers' callbacks do for an element whose record is
    completed. *)
Lemma completed_handlers key details st :
  JsMap.get key (asyncCallsRequired st) = Some details ->
  evaluationCompleted details = true ->
  (forall reference,
     JS.truthy (createIndexKeyResolve reference) = true ->
     "Resolve:" ++ JS.toString (createIndexKeyResolve reference) = key ->
     fst (resolveElement reference st) = Normal (result details) /\
     asyncCallsRequired (snd (resolveElement reference st)) = asyncCallsRequired st /\
     requiresAsyncProcessing (snd (resolveElement reference st)) =
       requiresAsyncProcessing st) /\
  (forall valueSet codeData k,
     createIndexKeyMemberOf codeData (VStr valueSet) = Normal k ->
     JS.truthy k = true ->
     "MemberOf:" ++ JS.toString k = key ->
     fst (memberOfElement valueSet codeData st) = Normal (result details) /\
     asyncCallsRequired (snd (memberOfElement valueSet codeData st)) = asyncCallsRequired st /\
     requiresAsyncProcessing (snd (memberOfElement valueSet codeData st)) =
       requiresAsyncProcessing st).
Proof.
  intros H1 Hc.
  assert (Hcomp : isCompleted key st = true) by (apply isCompleted_get; eauto).
  assert (Hres : cachedResult key st = result details)
    by (unfold cachedResult; now rewrite H1).
  split.
  - intros reference Ht Hk. rewrite resolveElement_cases. cbv zeta.
    rewrite Ht, Hk, Hcomp, Hres. simpl. auto.
  - intros valueSet codeData k Hkey Ht Hk. rewrite memberOfElement_cases.
    rewrite Hkey. cbv zeta. rewrite Ht, Hk, Hcomp, Hres. simpl. auto.
Qed.

(** C3: once the record of a fingerprint is completed, it is the same
    record in every later state of the evaluation (still completed, with the
    same result); no adapter is called for it again; and every handler
    invocation on an element with that fingerprint returns the stored result
    and leaves the registry and the flag as they are. *)
Theorem C3_completed_record_is_kept world key details st st' :
  JsMap.get key (asyncCallsRequired st) = Some details ->
  evaluationCompleted details = true ->
  later world st st' ->
  JsMap.get key (asyncCallsRequired st') = Some details /\
  occurrences key (adapterCalls st') = occurrences key (adapterCalls st) /\
  isPending key st' = false /\
  (forall reference,
     JS.truthy (createIndexKeyResolve reference) = true ->
     "Resolve:" ++ JS.toString (createIndexKeyResolve reference) = key ->
     fst (resolveElement reference st') = Normal (result details) /\
     asyncCallsRequired (snd (resolveElement reference st')) = asyncCallsRequired st' /\
     requiresAsyncProcessing (snd (resolveElement reference st')) =
       requiresAsyncProcessing st') /\
  (forall valueSet codeData k,
     createIndexKeyMemberOf codeData (VStr valueSet) = Normal k ->
     JS.truthy k = true ->
     "MemberOf:" ++ JS.toString k = key ->
     fst (memberOfElement valueSet codeData st') = Normal (result details) /\
     asyncCallsRequired (snd (memberOfElement valueSet codeData st')) = asyncCallsRequired st' /\
     requiresAsyncProcessing (snd (memberOfElement valueSet codeData st')) =
       requiresAsyncProcessing st').
Proof.
  intros Hd Hc Hl.
  destruct (later_completed world key details st st' Hd Hc Hl) as [H1 H2].
  destruct (completed_handlers key details st' H1 Hc) as [Hres Hmem].
  split_ands; auto.
  eapply completed_not_pending; eauto.
Qed.


(** The record of [SYS|M - VS1], completed with [true] in the second run
    of the loop body, in the state a further run of the body leaves. *)
Lemma C3_completed_record_is_kept_witness :
  let world := Samples.terminologyWorld in
  let st := nthPass world Samples.memberOfVS1 2 in
  let st' := fst (iteration world Samples.memberOfVS1 st) in
  JsMap.get Samples.keyM (asyncCallsRequired st) = Some (Samples.recordM true (VBool true)) /\
  later world st st' /\
  JsMap.get Samples.keyM (asyncCallsRequired st') = Some (Samples.recordM true (VBool true)) /\
  occurrences Samples.keyM (adapterCalls st') = occurrences Samples.keyM (adapterCalls st) /\
  fst (memberOfElement "VS1" Samples.codingM st') = Normal (VBool true).
Proof.
  cbv zeta.
  assert (Hl : later Samples.terminologyWorld
                 (nthPass Samples.terminologyWorld Samples.memberOfVS1 2)
                 (fst (iteration Samples.terminologyWorld Samples.memberOfVS1
                         (nthPass Samples.terminologyWorld Samples.memberOfVS1 2))))
    by apply later_iteration, later_here.
  destruct (C3_completed_record_is_kept Samples.terminologyWorld Samples.keyM
              (Samples.recordM true (VBool true))
              (nthPass Samples.terminologyWorld Samples.memberOfVS1 2)
              (fst (iteration Samples.terminologyWorld Samples.memberOfVS1
                      (nthPass Samples.terminologyWorld Samples.memberOfVS1 2)))
              eq_refl eq_refl Hl)
    as (H1 & H2 & _ & _ & H5).
  split_ands; [reflexivity | exact Hl | exact H1 | exact H2 |].
  apply (H5 "VS1" Samples.codingM (VStr "SYS|M - VS1") eq_refl eq_refl eq_refl).
Defined.

(* ===================================================================== *)
(** * The membership scenario *)
(* ===================================================================== *)



(* ===================================================================== *)
(** * Elements without a fingerprint *)
(* ===================================================================== *)



(** The first prototype differs: its [createIndexKey] always returns a
    string, never absence, and its handler files a key for every element,
    also for one with neither a code nor codings. *)
Lemma Prototype_files_every_element valueset i k st :
  Prototype.createIndexKey i = Normal k ->
  JsMap.get (k ++ " - " ++ valueset) (Prototype.memberOfCallsRequired st) = None ->
  exists st',
    Prototype.memberOfElement valueset i st = (Normal VUndefined, st') /\
    JsMap.get (k ++ " - " ++ valueset) (Prototype.memberOfCallsRequired st') = Some VUndefined /\
    Prototype.requiresAsyncProcessing st' = true.
Proof.
  intros Hk Hg. unfold Prototype.memberOfElement. rewrite Hk, Hg.
  eexists. split_ands; [reflexivity | | reflexivity].
  simpl. apply JsMapFacts.get_set_eq.
Qed.

(* ===================================================================== *)
(** * A reference that is not known (the revision with in-memory adapters) *)
(* ===================================================================== *)

Lemma Stub_doWhile_unfold fuel e st :
  Stub.doWhile (S fuel) e st =
  match Stub.iteration e st with
  | (st', Some reason) => Some (Rejected reason st')
  | (st', None) =>
      if requiresAsyncProcessing st' && (iterations st' <? maxIterations)%nat
      then Stub.doWhile fuel e st'
      else Some (Stub.finish st')
  end.
Proof. reflexivity. Qed.



(* ===================================================================== *)
(** * An answer without a result *)
(* ===================================================================== *)

(** C9 fails on an answer the adapter does not recognise.  The terminology
    server answers with a [Parameters] resource that has no [result]
    parameter (and is not an [OperationOutcome]): [memberOfAsync] neither
    completes the record nor fails, the next pass finds the record still
    pending, and the next resolve phase calls the adapter for the same
    fingerprint again: nine calls in one evaluation, which ends at the
    bound with the record still pending. *)
Lemma C9_adapter_called_again_without_result :
  exists st,
    evaluateFhirpathAsync Samples.resultlessWorld Samples.memberOfVS1 = Some (Fulfilled [] st) /\
    adapterCalls st = repeat Samples.keyM 9 /\
    occurrences Samples.keyM (adapterCalls st) = 9%nat /\
    asyncCallsRequired st = [(Samples.keyM, Samples.recordM false VUndefined)] /\
    iterations st = maxIterations /\
    requiresAsyncProcessing st = true.
Proof.
  eexists. split_ands; [vm_compute; reflexivity | reflexivity ..].
Qed.

(* ===================================================================== *)
(** * A failing adapter call *)
(* ===================================================================== *)





(* ===================================================================== *)
(** * One resolution for many call sites *)
(* ===================================================================== *)

Lemma occurrences_nodup key l : NoDup l -> In key l -> occurrences key l = 1%nat.
Proof. intros Hnd. now apply NoDup_count_occ'. Qed.

Lemma resolvePhase_fulfilled world st st1 key details :
  NoDup (JsMap.keys (asyncCallsRequired st)) ->
  JsMap.get key (asyncCallsRequired st) = Some details ->
  evaluationCompleted details = false ->
  resolvePhase world st = (st1, None) ->
  JsMap.get key (asyncCallsRequired st1) = Some (fst (callAsyncFunction world details)) /\
  snd (callAsyncFunction world details) = None /\
  occurrences key (adapterCalls st1) = S (occurrences key (adapterCalls st)).
Proof.
  intros Hnd Hd Hp HR.
  assert (Hpk : In key (pendingKeys st))
    by (apply pendingKeys_in; unfold isPending; now rewrite Hd, Hp).
  destruct (resolvePhase_frame world _ _ _ HR) as (_ & _ & _ & Hcalls & _ & _).
  assert (Hocc : occurrences key (adapterCalls st1) = S (occurrences key (adapterCalls st))).
  { rewrite Hcalls, occurrences_app.
    rewrite (occurrences_nodup key (pendingKeys st)); auto; [lia|].
    now apply pendingKeys_nodup. }
  apply resolvePhase_parts in HR.
  destruct HR as [(Hsz & _) | (started & st0 & st2 & Hs & Hpa & Hm & ->)].
  { apply JsMapFacts.get_in_keys in Hd. unfold JsMap.size, JsMap.keys in *.
    destruct (asyncCallsRequired st); [contradiction|discriminate]. }
  destruct (startPending_spec world _ _ _ _ Hs) as (Hreg & _).
  assert (Hperm : Permutation (settleOrder started) (pendingKeys st))
    by (rewrite <- Hm; apply settleOrder_perm).
  assert (Hndo : NoDup (settleOrder started)).
  { eapply Permutation_NoDup; [symmetry; exact Hperm|]. now apply pendingKeys_nodup. }
  assert (Hin : In key (settleOrder started))
    by (eapply Permutation_in; [symmetry; exact Hperm|]; auto).
  destruct (promiseAll_fulfilled world _ _ _ Hndo Hpa key details Hin) as [H1 H2];
    [now rewrite Hreg|].
  simpl. auto.
Qed.

(** C2, as the code has it.  Whatever the call sites of a pass, the
    registry holds one record for a fingerprint.  When a resolve phase
    follows the pass and none of its calls fails, the adapter is called once
    for the pending record; and when that call completes the record, every
    later state keeps the count of calls for the fingerprint at that one
    call, and every call site with the fingerprint, in every later pass,
    receives the result the call stored. *)
Theorem C2_one_resolution_for_all_call_sites world e st0 key details :
  NoDup (JsMap.keys (asyncCallsRequired st0)) ->
  let st := snd (evaluate world e st0) in
  JsMap.get key (asyncCallsRequired st) = Some details ->
  evaluationCompleted details = false ->
  occurrences key (JsMap.keys (asyncCallsRequired st)) = 1%nat /\
  forall st1,
    resolvePhase world (incrementIterations st) = (st1, None) ->
    occurrences key (adapterCalls st1) = S (occurrences key (adapterCalls st)) /\
    (evaluationCompleted (fst (callAsyncFunction world details)) = true ->
     forall st2,
       later world st1 st2 ->
       occurrences key (adapterCalls st2) = S (occurrences key (adapterCalls st)) /\
       (forall reference,
          JS.truthy (createIndexKeyResolve reference) = true ->
          "Resolve:" ++ JS.toString (createIndexKeyResolve reference) = key ->
          fst (resolveElement reference st2) =
            Normal (result (fst (callAsyncFunction world details)))) /\
       (forall valueSet codeData k,
          createIndexKeyMemberOf codeData (VStr valueSet) = Normal k ->
          JS.truthy k = true ->
          "MemberOf:" ++ JS.toString k = key ->
          fst (memberOfElement valueSet codeData st2) =
            Normal (result (fst (callAsyncFunction world details))))).
Proof.
  intros Hnd0 st Hd Hp.
  assert (Hnd : NoDup (JsMap.keys (asyncCallsRequired st)))
    by (apply (ss_nodup _ _ (evaluate_step world e st0)); exact Hnd0).
  split.
  - apply occurrences_nodup; auto. eapply JsMapFacts.get_in_keys; eauto.
  - intros st1 HR.
    destruct (resolvePhase_fulfilled world (incrementIterations st) st1 key details Hnd Hd Hp HR)
      as (Hget & _ & Hocc).
    split; [exact Hocc|].
    intros Hc st2 Hl.
    destruct (later_completed world key _ st1 st2 Hget Hc Hl) as [Hget2 Hocc2].
    destruct (completed_handlers key _ st2 Hget2 Hc) as [Hres Hmem].
    split_ands.
    + rewrite Hocc2. exact Hocc.
    + intros reference Ht Hk. apply (Hres reference Ht Hk).
    + intros valueSet codeData k Hkey Ht Hk. apply (Hmem valueSet codeData k Hkey Ht Hk).
Qed.

(** Three call sites with the fingerprint of [codingM], and a terminology
    server that answers for it. *)
Lemma C2_one_resolution_for_all_call_sites_witness :
  let world := Samples.terminologyWorld in
  let st := snd (evaluate world Samples.memberOfThrice initialState) in
  NoDup (JsMap.keys (asyncCallsRequired initialState)) /\
  JsMap.get Samples.keyM (asyncCallsRequired st) = Some (Samples.recordM false VUndefined) /\
  Samples.logged "  requires async evaluation for: " Samples.keyM (outcome st) = 3%nat /\
  occurrences Samples.keyM (JsMap.keys (asyncCallsRequired st)) = 1%nat /\
  forall st1,
    resolvePhase world (incrementIterations st) = (st1, None) ->
    occurrences Samples.keyM (adapterCalls st1) = 1%nat.
Proof.
  cbv zeta. split_ands; [constructor | reflexivity | reflexivity | |].
  - apply (C2_one_resolution_for_all_call_sites Samples.terminologyWorld Samples.memberOfThrice
             initialState Samples.keyM (Samples.recordM false VUndefined)
             (NoDup_nil string) eq_refl eq_refl).
  - intros st1 HR.
    destruct (C2_one_resolution_for_all_call_sites Samples.terminologyWorld
                Samples.memberOfThrice initialState Samples.keyM
                (Samples.recordM false VUndefined) (NoDup_nil string) eq_refl eq_refl)
      as [_ H].
    destruct (H st1 HR) as [Hocc _]. exact Hocc.
Defined.

(** C2 as stated fails at the bound: the two call sites at the end of the
    chain meet their fingerprint in the tenth pass, the record is filed,
    and the evaluation ends there: the adapter is never called for it. *)
Lemma C2_fingerprint_met_in_the_last_pass :
  exists st,
    evaluateFhirpathAsync Samples.chainWorld Samples.twiceAtTheEnd = Some (Fulfilled [] st) /\
    Samples.logged "  requires async evaluation for: " Samples.tenthKey (outcome st) = 2%nat /\
    isPending Samples.tenthKey st = true /\
    occurrences Samples.tenthKey (adapterCalls st) = 0%nat /\
    iterations st = maxIterations.
Proof.
  eexists. split_ands; [vm_compute; reflexivity | reflexivity ..].
Qed.

(* ===================================================================== *)
(** * [toAge] *)
(* ===================================================================== *)

Lemma mapM_toAgeElement world inputs :
  forall st,
    exists st',
      mapM (toAgeElement world) inputs st = (Normal (map (birthdateToAge world) inputs), st') /\
      onlyLogged st st'.
Proof.
  induction inputs as [|v rest IH]; intros st; simpl.
  - exists st. unfold ret, onlyLogged. auto 10.
  - unfold bind at 1. unfold toAgeElement at 1. unfold bind at 1. simpl.
    set (st0 := {| results := results st |}).
    destruct (IH st0) as (st' & Hm & Hl). unfold bind. rewrite Hm. simpl.
    exists st'. split; [reflexivity|].
    unfold onlyLogged in *. subst st0. simpl in Hl. exact Hl.
Qed.

Lemma filter_defined_ages world inputs :
  filter JS.isDefined (map (birthdateToAge world) inputs) =
  map (birthdateToAge world) (filter isCalendarDate inputs).
Proof.
  induction inputs as [|v rest IH]; simpl; [reflexivity|].
  destruct (birthdateToAge_defined world v) as [Hd _]. rewrite Hd.
  destruct (isCalendarDate v); simpl; now rewrite IH.
Qed.

Lemma toAge_spec world inputs st :
  exists st',
    toAge world inputs st =
      (Normal (map (birthdateToAge world) (filter isCalendarDate inputs)), st') /\
    onlyLogged st st'.
Proof.
  destruct (mapM_toAgeElement world inputs st) as (st' & Hm & Hl).
  exists st'. split; [|exact Hl].
  unfold toAge, bind. rewrite Hm. unfold ret. now rewrite filter_defined_ages.
Qed.

Lemma onlyLogged_trans st1 st2 st3 :
  onlyLogged st1 st2 -> onlyLogged st2 st3 -> onlyLogged st1 st3.
Proof. unfold onlyLogged. intuition congruence. Qed.

Lemma evaluate_onlyToAge world e :
  onlyToAge e ->
  forall st,
    exists values st', evaluate world e st = (Normal values, st') /\ onlyLogged st st'.
Proof.
  induction 1 as [values|inputs k _ IH]; intros st; simpl.
  - exists values, st. unfold ret, onlyLogged. auto 10.
  - destruct (toAge_spec world inputs st) as (st1 & Ht & Hl1).
    unfold bind. rewrite Ht.
    destruct (IH (map (birthdateToAge world) (filter isCalendarDate inputs)) st1)
      as (values & st' & He & Hl2).
    exists values, st'. split; [exact He|]. eapply onlyLogged_trans; eauto.
Qed.

(** C10: [toAge] answers in the pass that invokes it.  For every input
    list it returns, without throwing, the ages of the inputs that are
    calendar dates written [YYYY-MM-DD], in their order, and nothing for any
    other input; it writes the log only: no record is filed, the flag is not
    raised, no adapter is called.  An expression that invokes no other
    function of the table is evaluated in one pass and reported complete. *)
Theorem C10_toAge_is_synchronous world inputs st :
  (exists st',
     toAge world inputs st =
       (Normal (map (birthdateToAge world) (filter isCalendarDate inputs)), st') /\
     asyncCallsRequired st' = asyncCallsRequired st /\
     requiresAsyncProcessing st' = requiresAsyncProcessing st /\
     adapterCalls st' = adapterCalls st) /\
  (forall v,
     (isCalendarDate v = true -> exists age, birthdateToAge world v = VNum age) /\
     (isCalendarDate v = false -> birthdateToAge world v = VUndefined)) /\
  (forall e,
     onlyToAge e ->
     exists values final,
       evaluateFhirpathAsync world e = Some (Fulfilled values final) /\
       iterations final = 1%nat /\
       requiresAsyncProcessing final = false /\
       asyncCallsRequired final = [] /\
       adapterCalls final = []).
Proof.
  split_ands.
  - destruct (toAge_spec world inputs st) as (st' & Ht & _ & Hr & Hf & _ & Hc).
    exists st'. auto.
  - intros v. destruct (birthdateToAge_defined world v) as [Hd Hn].
    split; [exact Hn|]. intros E. rewrite E in Hd.
    destruct (birthdateToAge world v); try discriminate; reflexivity.
  - intros e He.
    unfold evaluateFhirpathAsync, maxIterations. rewrite doWhile_unfold.
    unfold iteration.
    change (resolvePhase world (incrementIterations initialState))
      with (incrementIterations initialState, @None Value).
    cbv iota. set (st0 := exec _ _).
    destruct (evaluate_onlyToAge world e He st0) as (values & st' & Hev & Hl).
    unfold evaluatePass. rewrite Hev.
    destruct Hl as (_ & Hr & Hf & Hi & Hc). subst st0. simpl in *.
    rewrite Hf. rewrite Hi. simpl. unfold finish. simpl. rewrite Hi. simpl.
    exists values. eexists. split_ands; [reflexivity | simpl; auto ..].
Qed.

(** [birthDate.toAge()] on a calendar date, a date that is not one, and a
    number. *)
Lemma C10_toAge_is_synchronous_witness :
  onlyToAge (CallToAge [VStr "2000-02-29"; VStr "2001-02-29"; VNum 5]
               (fun output => Return output)) /\
  exists values final,
    evaluateFhirpathAsync Samples.chainWorld
      (CallToAge [VStr "2000-02-29"; VStr "2001-02-29"; VNum 5] (fun output => Return output)) =
      Some (Fulfilled values final) /\
    iterations final = 1%nat /\
    requiresAsyncProcessing final = false /\
    asyncCallsRequired final = [] /\
    adapterCalls final = [].
Proof.
  assert (H : onlyToAge (CallToAge [VStr "2000-02-29"; VStr "2001-02-29"; VNum 5]
                           (fun output => Return output)))
    by (constructor; intros output; constructor).
  split; [exact H|].
  apply (proj2 (proj2 (C10_toAge_is_synchronous Samples.chainWorld [] initialState)) _ H).
Defined.

(** The later, fetch-based [resolveAsync] differs from the in-memory one of
    C8: when the reference cannot be fetched it stores [undefined] in the
    record, completes it, and rejects. *)
Lemma resolveAsync_fetch_failure_rejects world reference err :
  JS.truthy (createIndexKeyResolve reference) = true ->
  fetch world (GET (JS.toString (createIndexKeyResolve reference)) []) = FetchRejects err ->
  resolveAsync world (filedReference reference) =
    (markCompleted (filedReference reference),
     Some (CreateOperationOutcome "error" "exception"
             (VStr ("Failed to resolve reference: " ++
                    JS.toString (createIndexKeyResolve reference)))
             VUndefined (JS.prop err "message"))).
Proof.
  intros Ht Hf. unfold resolveAsync. simpl. rewrite Ht, Hf. reflexivity.
Qed.

(* ===================================================================== *)
(** * Further properties *)
(* ===================================================================== *)

(** X1: [isValidDateString] answers [true] exactly for a string of the form
    [YYYY-MM-DD] whose month is one of the twelve and whose day is a day of
    that month in that year, leap years counted; for a value that is not a
    string it answers [false]. *)
Theorem X1_date_check_accepts_calendar_dates :
  forall v, isValidDateString v = isCalendarDate v.
Proof.
  intros v. apply DateFacts.isValidDateString_calendar.
Qed.

(* ===================================================================== *)
(** * What a handler hands out within one pass *)
(* ===================================================================== *)

(** A pass neither completes a record nor changes a completed one. *)
Lemma syncStep_completed st st' key :
  syncStep st st' ->
  isCompleted key st' = isCompleted key st /\
  (isCompleted key st = true -> cachedResult key st' = cachedResult key st).
Proof.
  intros Hs. destruct (isCompleted key st) eqn:E.
  - apply isCompleted_get in E. destruct E as (d & Hd & Hc).
    pose proof (ss_completed _ _ Hs _ _ Hd Hc) as Hd'.
    split.
    + apply isCompleted_get. eauto.
    + intros _. unfold cachedResult. now rewrite Hd, Hd'.
  - split; [|discriminate].
    destruct (isCompleted key st') eqn:E'; auto.
    apply isCompleted_get in E'. destruct E' as (d & Hd & Hc).
    destruct (ss_records _ _ Hs _ _ Hd) as [H|(H & _)]; [|congruence].
    assert (isCompleted key st = true) by (apply isCompleted_get; eauto).
    congruence.
Qed.

Lemma resolveAnswer_step st st' reference :
  syncStep st st' -> resolveAnswer st' reference = resolveAnswer st reference.
Proof.
  intros Hs. unfold resolveAnswer. cbv zeta.
  destruct (syncStep_completed st st' ("Resolve:" ++ JS.toString (createIndexKeyResolve reference)) Hs)
    as [H1 H2].
  rewrite H1. destruct (JS.truthy _); simpl; auto.
  destruct (isCompleted _ st) eqn:E; auto.
Qed.

Lemma memberOfAnswer_step st st' valueSet codeData :
  syncStep st st' -> memberOfAnswer st' valueSet codeData = memberOfAnswer st valueSet codeData.
Proof.
  intros Hs. unfold memberOfAnswer.
  destruct (createIndexKeyMemberOf codeData (VStr valueSet)) as [key|err]; auto.
  destruct (syncStep_completed st st' ("MemberOf:" ++ JS.toString key) Hs) as [H1 H2].
  rewrite H1. destruct (JS.truthy _); simpl; auto.
  destruct (isCompleted _ st) eqn:E; auto.
Qed.

Lemma resolveElement_answer reference st :
  fst (resolveElement reference st) = Normal (resolveAnswer st reference).
Proof.
  rewrite resolveElement_cases. unfold resolveAnswer. cbv zeta.
  destruct (JS.truthy _); simpl; auto.
  destruct (isCompleted _ st); reflexivity.
Qed.

Lemma memberOfElement_answer valueSet codeData st key :
  createIndexKeyMemberOf codeData (VStr valueSet) = Normal key ->
  fst (memberOfElement valueSet codeData st) = Normal (memberOfAnswer st valueSet codeData).
Proof.
  intros Hk. rewrite memberOfElement_cases. unfold memberOfAnswer. rewrite Hk. cbv zeta.
  destruct (JS.truthy _); simpl; auto.
  destruct (isCompleted _ st); reflexivity.
Qed.

Lemma memberOfElement_throws valueSet codeData st err :
  createIndexKeyMemberOf codeData (VStr valueSet) = Thrown err ->
  memberOfElement valueSet codeData st = (Thrown err, st).
Proof. intros Hk. rewrite memberOfElement_cases, Hk. reflexivity. Qed.

Lemma mapM_resolveElement inputs :
  forall st0 st,
    syncStep st0 st ->
    exists st',
      mapM resolveElement inputs st = (Normal (map (resolveAnswer st0) inputs), st') /\
      syncStep st0 st'.
Proof.
  induction inputs as [|reference rest IH]; intros st0 st Hs; simpl.
  - exists st. split; auto.
  - unfold bind.
    pose proof (resolveElement_answer reference st) as Ha.
    pose proof (resolveElement_step reference st) as Hstep.
    destruct (resolveElement reference st) as [c st1]. simpl in Ha, Hstep. subst c.
    assert (Hs1 : syncStep st0 st1) by (eapply syncStep_trans; eauto).
    destruct (IH st0 st1 Hs1) as (st' & -> & Hs'). exists st'. unfold ret.
    rewrite (resolveAnswer_step _ _ reference Hs). split; auto.
Qed.

Lemma mapM_memberOfElement valueSet inputs :
  forall st0 st,
    syncStep st0 st ->
    exists st',
      syncStep st0 st' /\
      mapM (memberOfElement valueSet) inputs st =
        (match firstThrow valueSet inputs with
         | Some err => Thrown err
         | None => Normal (map (memberOfAnswer st0 valueSet) inputs)
         end, st').
Proof.
  induction inputs as [|codeData rest IH]; intros st0 st Hs; simpl.
  - exists st. split; auto.
  - unfold bind.
    destruct (createIndexKeyMemberOf codeData (VStr valueSet)) as [key|err] eqn:Hk.
    + pose proof (memberOfElement_answer valueSet codeData st key Hk) as Ha.
      pose proof (memberOfElement_step valueSet codeData st) as Hstep.
      destruct (memberOfElement valueSet codeData st) as [c st1]. simpl in Ha, Hstep. subst c.
      assert (Hs1 : syncStep st0 st1) by (eapply syncStep_trans; eauto).
      destruct (IH st0 st1 Hs1) as (st' & Hs' & ->). exists st'. split; auto.
      destruct (firstThrow valueSet rest); auto.
      unfold ret. now rewrite (memberOfAnswer_step _ _ valueSet codeData Hs).
    + rewrite (memberOfElement_throws valueSet codeData st err Hk). exists st. split; auto.
Qed.

(** X2: within a pass, [resolve] never throws, and what it returns is read
    off the records that were completed when the pass began: for each
    element, in order, the stored result of its fingerprint's record if that
    record is completed, nothing otherwise.  A record filed during the pass
    yields nothing in that pass; so in a pass that began with no completed
    record, as the first pass of an evaluation does, every [resolve] returns
    the empty list. *)
Theorem X2_resolve_answers_from_completed_records :
  forall (world : World) (e : Eval) (inputs : list Value) (st0 : State),
    let st := snd (evaluate world e st0) in
    (exists st',
       resolve inputs st =
         (Normal (filter JS.isDefined (map (resolveAnswer st0) inputs)), st')) /\
    ((forall key, isCompleted key st0 = false) ->
     exists st', resolve inputs st = (Normal [], st')).
Proof.
  intros world e inputs st0 st.
  destruct (mapM_resolveElement inputs st0 st (evaluate_step world e st0)) as (st' & H & _).
  assert (Hr : resolve inputs st =
               (Normal (filter JS.isDefined (map (resolveAnswer st0) inputs)), st')).
  { unfold resolve, bind, ret. now rewrite H. }
  split; [eauto|].
  intros Hnone. exists st'. rewrite Hr. f_equal. f_equal. clear H Hr.
  induction inputs as [|r rest IH]; simpl; auto.
  unfold resolveAnswer at 1. cbv zeta. rewrite Hnone, andb_false_r. simpl. exact IH.
Qed.

(** X3: within a pass, [memberOf] throws exactly when the fingerprint of
    some element cannot be computed, and then the error of the first such
    element; otherwise what it returns is read off the records that were
    completed when the pass began, as for [resolve]. *)
Theorem X3_memberOf_answers_from_completed_records :
  forall (world : World) (e : Eval) (inputs : list Value) (valueSet : string) (st0 : State),
    let st := snd (evaluate world e st0) in
    exists st',
      memberOf inputs valueSet st =
        (match firstThrow valueSet inputs with
         | Some err => Thrown err
         | None => Normal (filter JS.isDefined (map (memberOfAnswer st0 valueSet) inputs))
         end, st').
Proof.
  intros world e inputs valueSet st0 st.
  destruct (mapM_memberOfElement valueSet inputs st0 st (evaluate_step world e st0))
    as (st' & _ & H).
  exists st'. unfold memberOf, bind, ret. rewrite H.
  destruct (firstThrow valueSet inputs); reflexivity.
Qed.

(* ===================================================================== *)
(** * Invariants of the loop *)
(* ===================================================================== *)

Lemma registryOk_initialState : registryOk initialState.
Proof. split; [constructor | intros key details; discriminate]. Qed.

(** Every state between two runs of the loop body has a well-formed
    registry. *)
Lemma registryOk_nthPass world e n : registryOk (nthPass world e n).
Proof.
  induction n as [|n IH]; simpl.
  - apply registryOk_initialState.
  - now apply registryOk_iteration.
Qed.

Lemma pendingKeys_incrementIterations st :
  pendingKeys (incrementIterations st) = pendingKeys st.
Proof. reflexivity. Qed.

(** The adapter calls of one run of the loop body: one for each record that
    was pending when it began. *)
Lemma iteration_adapterCalls world e st :
  adapterCalls (fst (iteration world e st)) = (adapterCalls st ++ pendingKeys st)%list.
Proof.
  unfold iteration.
  destruct (resolvePhase world (incrementIterations st)) as [st2 [r|]] eqn:Hr;
    destruct (resolvePhase_frame _ _ _ _ Hr) as (_ & _ & _ & Hc & _); simpl in *; auto.
  set (st3 := exec _ st2).
  destruct (evaluatePass_registry world e st3) as (_ & _ & Hc' & _).
  rewrite Hc', (ss_calls _ _ (evaluate_step world e st3)). exact Hc.
Qed.

Lemma iteration_empty_registry world e st :
  asyncCallsRequired st = [] -> adapterCalls (fst (iteration world e st)) = adapterCalls st.
Proof.
  intros H. rewrite iteration_adapterCalls. unfold pendingKeys. rewrite H. simpl.
  apply app_nil_r.
Qed.

Lemma occurrences_le_one key l : NoDup l -> (occurrences key l <= 1)%nat.
Proof. intros H. unfold occurrences. now apply NoDup_count_occ. Qed.

Lemma callsBounded_iteration world e key st :
  callsBounded key st -> callsBounded key (fst (iteration world e st)).
Proof.
  intros (Hok & H0 & Hle). unfold callsBounded. split_ands.
  - now apply registryOk_iteration.
  - rewrite iteration_iterations. discriminate.
  - rewrite iteration_iterations, iteration_adapterCalls, occurrences_app. simpl.
    destruct (iterations st) as [|n] eqn:En.
    + destruct (H0 eq_refl) as [Hreg Hcalls]. unfold pendingKeys. rewrite Hreg, Hcalls.
      simpl. lia.
    + pose proof (occurrences_le_one key (pendingKeys st)
                    (pendingKeys_nodup st (proj1 Hok))).
      simpl in Hle. lia.
Qed.

Lemma callsBounded_doWhile world e key fuel :
  forall st s,
    doWhile world fuel e st = Some s ->
    callsBounded key st -> callsBounded key (finalState s).
Proof.
  induction fuel as [|fuel IH]; intros st s; simpl; [discriminate|].
  intros H Hb. pose proof (callsBounded_iteration world e key st Hb) as Hb'.
  destruct (iteration world e st) as [st' [reason|]]; simpl in Hb'.
  - injection H as <-. exact Hb'.
  - destruct (requiresAsyncProcessing st' && (iterations st' <? maxIterations)%nat).
    + eapply IH; eauto.
    + injection H as <-.
      destruct (finish_state st') as (F1 & F2 & F3 & _).
      destruct Hb' as ((Hnd & Hok) & H0 & Hle).
      unfold callsBounded, registryOk. rewrite F1, F2, F3. auto.
Qed.

(** X4: in one evaluation the adapter of a fingerprint is called less often
    than passes are made, so at most nine times: the first pass has nothing
    to resolve, and each later pass calls it at most once. *)
Theorem X4_adapter_called_less_often_than_passes :
  forall (world : World) (e : Eval),
  exists s,
    evaluateFhirpathAsync world e = Some s /\
    forall key,
      (occurrences key (adapterCalls (finalState s)) < iterations (finalState s))%nat /\
      (occurrences key (adapterCalls (finalState s)) <= 9)%nat.
Proof.
  intros world e.
  destruct (doWhile_total world e maxIterations initialState) as [s Hs];
    [simpl; unfold maxIterations; lia | unfold maxIterations; lia |].
  exists s. split; [exact Hs|]. intros key.
  assert (Hb : callsBounded key initialState).
  { unfold callsBounded. split_ands; [apply registryOk_initialState | auto | simpl; lia]. }
  destruct (callsBounded_doWhile world e key _ _ _ Hs Hb) as (_ & _ & Hle).
  destruct (doWhile_iterations world e _ _ _ Hs) as [Hi _];
    [simpl; unfold maxIterations; lia|].
  unfold maxIterations in Hi. simpl in Hi. lia.
Qed.

(* ===================================================================== *)
(** * How an evaluation fails *)
(* ===================================================================== *)

Lemma NoDup_settleOrder started :
  NoDup (map fst started) -> NoDup (settleOrder started).
Proof.
  intros H. eapply Permutation_NoDup; [|exact H].
  symmetry. apply settleOrder_perm.
Qed.





(* ===================================================================== *)
(** * Evaluations with one fingerprint *)
(* ===================================================================== *)

(** The resolve phase on a registry that holds one pending record. *)
Lemma resolvePhase_single world key details res log flag n calls :
  evaluationCompleted details = false ->
  resolvePhase world (mkState res log [(key, details)] flag n calls) =
    let log' := (log ++ [mkLog "  performing async request for: " (VStr key)])%list in
    let calls' := (calls ++ [key])%list in
    match callAsyncFunction world details with
    | (details', Some reason) =>
        (mkState res log' [(key, details')] flag n calls', Some reason)
    | (details', None) =>
        (mkState res log' [(key, details')] false n calls', None)
    end.
Proof.
  intros Hp. unfold resolvePhase. cbn. rewrite String.eqb_refl, Hp. cbn.
  rewrite String.eqb_refl.
  destruct (callAsyncFunction world details) as [details' [reason|]]; reflexivity.
Qed.

(** The pass of [r.resolve()] on one element that has a fingerprint. *)
Lemma evaluatePass_resolve_one world reference st :
  JS.truthy (createIndexKeyResolve reference) = true ->
  let key := "Resolve:" ++ JS.toString (createIndexKeyResolve reference) in
  evaluatePass world (CallResolve [reference] (fun output => Return output)) st =
    (withResults (filter JS.isDefined
                    [if isCompleted key st then cachedResult key st else VUndefined])
       (if isCompleted key st
        then snd (logMessage "  using cached result for: " (VStr key) st)
        else snd (fileRecord key (filedReference reference) st)),
     None).
Proof.
  intros Ht key. unfold evaluatePass. cbn [evaluate]. unfold resolve.
  cbn [mapM]. unfold bind, ret. rewrite resolveElement_cases. cbv zeta. fold key.
  rewrite Ht. destruct (isCompleted key st); reflexivity.
Qed.

(** X6: [r.resolve()] on a reference the server answers for.  The first
    pass files the record and returns nothing; the resolve phase fetches the
    reference once and stores the answer; the second pass returns the
    answer and the promise is fulfilled with it, the loop having run
    twice. *)
Theorem X6_resolve_fetches_once_and_returns_the_resource :
  forall (world : World) (reference resultJson : Value),
    JS.truthy (createIndexKeyResolve reference) = true ->
    fetch world (GET (JS.toString (createIndexKeyResolve reference)) []) = Json resultJson ->
    let key := "Resolve:" ++ JS.toString (createIndexKeyResolve reference) in
    exists st,
      evaluateFhirpathAsync world (CallResolve [reference] (fun output => Return output)) =
        Some (Fulfilled (filter JS.isDefined [resultJson]) st) /\
      iterations st = 2%nat /\
      requiresAsyncProcessing st = false /\
      adapterCalls st = [key] /\
      asyncCallsRequired st =
        [(key, markCompleted (setResult resultJson (filedReference reference)))].
Proof.
  intros world reference resultJson Ht Hf key.
  assert (Hcall : callAsyncFunction world (filedReference reference) =
                  (markCompleted (setResult resultJson (filedReference reference)), None)).
  { unfold callAsyncFunction, resolveAsync. simpl. rewrite Ht, Hf. reflexivity. }
  pose proof (evaluatePass_resolve_one world reference) as Hpass.
  specialize (Hpass) with (1 := Ht). cbv zeta in Hpass. fold key in Hpass.
  set (e := CallResolve [reference] (fun output => Return output)) in *.
  clearbody key e.
  unfold evaluateFhirpathAsync, maxIterations.
  rewrite doWhile_unfold. unfold iteration at 1.
  change (resolvePhase world (incrementIterations initialState))
    with (incrementIterations initialState, @None Value).
  cbv iota beta. rewrite Hpass.
  replace (isCompleted key _) with false by reflexivity.
  cbn -[callAsyncFunction doWhile filedReference].
  rewrite doWhile_unfold. unfold iteration at 1.
  unfold incrementIterations, withResults. cbn [results outcome asyncCallsRequired
    requiresAsyncProcessing iterations adapterCalls].
  rewrite resolvePhase_single by reflexivity. cbv zeta. rewrite Hcall.
  cbv iota beta. rewrite Hpass.
  assert (Hc : forall res log flag n calls,
            isCompleted key (mkState res log
              [(key, markCompleted (setResult resultJson (filedReference reference)))]
              flag n calls) = true).
  { intros. unfold isCompleted. cbn. now rewrite String.eqb_refl. }
  assert (Hr : forall res log flag n calls,
            cachedResult key (mkState res log
              [(key, markCompleted (setResult resultJson (filedReference reference)))]
              flag n calls) = resultJson).
  { intros. unfold cachedResult. cbn. now rewrite String.eqb_refl. }
  unfold exec. cbn [logMessage snd results outcome asyncCallsRequired
    requiresAsyncProcessing iterations adapterCalls].
  rewrite Hc, Hr. cbn.
  eexists. split_ands; reflexivity.
Qed.

(** The reference of the not-found scenario, on a server that holds it. *)
Lemma X6_resolve_fetches_once_and_returns_the_resource_witness :
  exists st,
    evaluateFhirpathAsync MoreSamples.organizationWorld
      (CallResolve [Samples.unknownReference] (fun output => Return output)) =
      Some (Fulfilled [VObj [("resourceType", VStr "Organization")]] st) /\
    iterations st = 2%nat.
Proof.
  destruct (X6_resolve_fetches_once_and_returns_the_resource MoreSamples.organizationWorld
              Samples.unknownReference (VObj [("resourceType", VStr "Organization")])
              eq_refl eq_refl) as (st & H & Hi & _).
  exists st. split; [exact H | exact Hi].
Defined.



(* ===================================================================== *)
(** * Errors of the engine and of the handlers *)
(* ===================================================================== *)

(** The state in which the first pass starts. *)
Lemma first_iteration world e :
  iteration world e initialState =
    evaluatePass world e
      (exec (logMessage "performing iteration: " (VNum 1)) (incrementIterations initialState)).
Proof. reflexivity. Qed.

Lemma codingKeys_error codings err :
  codingKeys codings = Thrown err -> JS.truthy (JS.prop err "message") = true.
Proof.
  induction codings as [|c rest IH]; simpl; [discriminate|].
  unfold codingKey.
  destruct c; simpl; try (intros [= <-]; reflexivity);
    destruct (codingKeys rest); try discriminate; auto.
Qed.

(** An error of a fingerprint function is a [TypeError] with a message. *)
Lemma createIndexKeyMemberOf_error value valueset err :
  createIndexKeyMemberOf value valueset = Thrown err ->
  JS.truthy (JS.prop err "message") = true.
Proof.
  unfold createIndexKeyMemberOf.
  destruct value; simpl; try discriminate; try (intros [= <-]; reflexivity).
  destruct (JS.truthy (JS.assoc "code" fields)); [discriminate|].
  destruct (JS.truthy (JS.assoc "coding" fields)); [|discriminate].
  destruct (JS.assoc "coding" fields); try (intros [= <-]; reflexivity).
  destruct (codingKeys xs) eqn:E; [discriminate|].
  intros [= <-]. eapply codingKeys_error; eauto.
Qed.

Lemma firstThrow_error valueSet inputs err :
  firstThrow valueSet inputs = Some err -> JS.truthy (JS.prop err "message") = true.
Proof.
  induction inputs as [|v rest IH]; simpl; [discriminate|].
  destruct (createIndexKeyMemberOf v (VStr valueSet)) eqn:E; auto.
  intros [= <-]. eapply createIndexKeyMemberOf_error; eauto.
Qed.

(** X8: when the fingerprint of an element handed to [memberOf] cannot be
    computed (the element is [null] or [undefined], its [coding] is not an
    array, or one of its codings is [null]), the first pass throws, and the
    promise is rejected right away with a diagnostic of severity [fatal]
    that carries the message of the error; no adapter has been called. *)
Theorem X8_memberOf_element_without_fields_fails_the_evaluation :
  forall (world : World) (inputs : list Value) (valueSet : string)
         (k : list Value -> Eval) (err : Value),
    firstThrow valueSet inputs = Some err ->
    exists st,
      evaluateFhirpathAsync world (CallMemberOf inputs valueSet k) =
        Some (Rejected
                (CreateOperationOutcome "fatal" "exception" (JS.prop err "message")
                   VUndefined VUndefined) st) /\
      JS.truthy (JS.prop err "message") = true /\
      iterations st = 1%nat /\
      adapterCalls st = [].
Proof.
  intros world inputs valueSet k err Hthrow.
  pose proof (firstThrow_error _ _ _ Hthrow) as Hmsg.
  unfold evaluateFhirpathAsync, maxIterations.
  rewrite doWhile_unfold, first_iteration.
  set (st1 := exec _ _).
  destruct (mapM_memberOfElement valueSet inputs st1 st1 (syncStep_refl _))
    as (st' & Hs & Hm).
  rewrite Hthrow in Hm.
  unfold evaluatePass. cbn [evaluate]. unfold bind at 1. unfold memberOf, bind at 1.
  rewrite Hm, Hmsg.
  exists st'. split_ands; auto.
  - rewrite (ss_iterations _ _ Hs). reflexivity.
  - rewrite (ss_calls _ _ Hs). reflexivity.
Qed.

(** A coding and then [null]. *)
Lemma X8_memberOf_element_without_fields_fails_the_evaluation_witness :
  firstThrow "VS1" [Samples.codingM; VNull] =
    Some (JS.TypeError "Cannot read properties of null (reading 'code')") /\
  exists st,
    evaluateFhirpathAsync Samples.terminologyWorld
      (CallMemberOf [Samples.codingM; VNull] "VS1" (fun output => Return output)) =
      Some (Rejected
              (CreateOperationOutcome "fatal" "exception"
                 (VStr "Cannot read properties of null (reading 'code')")
                 VUndefined VUndefined) st) /\
    adapterCalls st = [].
Proof.
  split; [reflexivity|].
  destruct (X8_memberOf_element_without_fields_fails_the_evaluation
              Samples.terminologyWorld [Samples.codingM; VNull] "VS1"
              (fun output => Return output)
              (JS.TypeError "Cannot read properties of null (reading 'code')") eq_refl)
    as (st & H & _ & _ & Hc).
  exists st. split; [exact H | exact Hc].
Defined.



(* ===================================================================== *)
(** * What an adapter call does to its record *)
(* ===================================================================== *)

Lemma memberOfAsyncTry_cases world d :
  memberOfAsyncTry world d =
    match memberOfRequest d with
    | Thrown err => (d, Thrown err)
    | Normal None => (d, Normal tt)
    | Normal (Some request) =>
        match fetch world request with
        | FetchRejects err | JsonRejects err => (d, Thrown err)
        | Json resultJson =>
            match resultParameter resultJson with
            | Thrown err => (d, Thrown err)
            | Normal param =>
                let d1 :=
                  if JS.truthy param
                  then setResult (JS.prop param "valueBoolean") (markCompleted d)
                  else d in
                if JS.truthy resultJson && JS.truthy (JS.prop resultJson "issue")
                then (markCompleted d1, Thrown resultJson)
                else (d1, Normal tt)
            end
        end
    end.
Proof. reflexivity. Qed.

Lemma memberOfAsyncTry_record world d :
  evaluationCompleted (fst (memberOfAsyncTry world d)) = true \/
  fst (memberOfAsyncTry world d) = d.
Proof.
  rewrite memberOfAsyncTry_cases.
  destruct (memberOfRequest d) as [[request|]|err]; simpl; auto.
  destruct (fetch world request) as [err|err|resultJson]; simpl; auto.
  destruct (resultParameter resultJson) as [param|err]; simpl; auto.
  destruct (JS.truthy param);
    destruct (JS.truthy resultJson && JS.truthy (JS.prop resultJson "issue")); simpl; auto.
Qed.

(** X10: an adapter call changes nothing of its record but the completion
    mark and the result: it either completes the record or leaves it
    exactly as it was, and whenever the call fails the record is
    completed. *)
Theorem X10_adapter_completes_or_leaves_the_record :
  forall (world : World) (d : AsyncFunctionUserData),
    let d' := fst (callAsyncFunction world d) in
    (evaluationCompleted d' = true \/ d' = d) /\
    (snd (callAsyncFunction world d) <> None -> evaluationCompleted d' = true) /\
    asyncFunction d' = asyncFunction d /\ value d' = value d /\ valueSet d' = valueSet d.
Proof.
  intros world d d'. subst d'.
  pose proof (callAsyncFunction_fields world d) as Hfields. cbv zeta in Hfields.
  split_ands; try apply Hfields.
  - unfold callAsyncFunction. destruct (asyncFunction d).
    + unfold resolveAsync. destruct_matches; simpl; auto.
    + unfold memberOfAsync.
      pose proof (memberOfAsyncTry_record world d) as Htry.
      destruct (memberOfAsyncTry world d) as [d1 [u|err]]; simpl in *; auto.
      destruct (createIndexKeyMemberOf _ _); simpl; auto.
  - unfold callAsyncFunction. destruct (asyncFunction d).
    + unfold resolveAsync. destruct_matches; simpl; auto; congruence.
    + unfold memberOfAsync.
      destruct (memberOfAsyncTry world d) as [d1 [u|err]]; simpl; [congruence|].
      destruct_matches; simpl; auto.
Qed.

(** A record a handler filed for [memberOf] always has a request to send. *)
Lemma memberOfRequest_filed key d :
  recordOk key d = true -> asyncFunction d = memberOfAsyncFn ->
  exists request, memberOfRequest d = Normal (Some request).
Proof.
  unfold recordOk. intros H Hf. rewrite Hf in H.
  unfold createIndexKeyMemberOf, memberOfRequest in *.
  destruct (value d) as [| |b|n|s|xs|fields]; simpl in *; try discriminate; eauto.
  destruct (JS.truthy (JS.assoc "coding" fields)) eqn:Hc; eauto.
  destruct (JS.truthy (JS.assoc "code" fields)) eqn:Hcode; eauto.
  discriminate.
Qed.

(** When the call for a filed record neither fails nor completes it, the
    record is a [memberOf] record and the server's answer was not
    recognised. *)
Lemma callAsyncFunction_pending world key d :
  recordOk key d = true ->
  snd (callAsyncFunction world d) = None ->
  evaluationCompleted (fst (callAsyncFunction world d)) = false ->
  fst (callAsyncFunction world d) = d /\
  asyncFunction d = memberOfAsyncFn /\
  exists request resultJson,
    memberOfRequest d = Normal (Some request) /\
    fetch world request = Json resultJson /\
    unrecognisedAnswer resultJson.
Proof.
  intros Hok. unfold callAsyncFunction.
  destruct (asyncFunction d) eqn:Hf.
  - unfold recordOk in Hok. rewrite Hf in Hok. apply andb_true_iff in Hok.
    destruct Hok as [Ht _]. unfold resolveAsync. rewrite Ht.
    destruct (fetch world _); simpl; discriminate.
  - destruct (memberOfRequest_filed key d Hok Hf) as [request Hreq].
    unfold memberOfAsync. rewrite memberOfAsyncTry_cases, Hreq.
    destruct (fetch world request) as [err|err|resultJson] eqn:Hfetch;
      try (destruct (createIndexKeyMemberOf _ _); simpl; discriminate).
    destruct (resultParameter resultJson) as [param|err] eqn:Hparam;
      try (destruct (createIndexKeyMemberOf _ _); simpl; discriminate).
    cbv zeta.
    destruct (JS.truthy resultJson && JS.truthy (JS.prop resultJson "issue")) eqn:Hissue;
      try (destruct (createIndexKeyMemberOf _ _); simpl; discriminate).
    destruct (JS.truthy param) eqn:Hp; simpl; [discriminate|].
    intros _ _. split_ands; auto.
    exists request, resultJson. split_ands; auto.
    split; [exists param; auto | exact Hissue].
Qed.

(** X11: after a resolve phase that did not fail, a record of the registry
    is still pending only if it is a [memberOf] record, its request was
    sent, and the server's answer held neither a [result] parameter nor
    issues.  Every [resolve] record is completed. *)
Theorem X11_pending_after_resolution_means_unrecognised_answer :
  forall (world : World) (st st' : State) (key : string) (d : AsyncFunctionUserData),
    registryOk st ->
    resolvePhase world st = (st', None) ->
    JsMap.get key (asyncCallsRequired st') = Some d ->
    evaluationCompleted d = false ->
    asyncFunction d = memberOfAsyncFn /\
    JsMap.get key (asyncCallsRequired st) = Some d /\
    exists request resultJson,
      memberOfRequest d = Normal (Some request) /\
      fetch world request = Json resultJson /\
      unrecognisedAnswer resultJson.
Proof.
  intros world st st' key d [Hnd Hok] Hr Hd Hp.
  pose proof Hr as Hparts. apply resolvePhase_parts in Hparts.
  destruct Hparts as [(Hsz & -> & _) | (started & st1 & st2 & Hs & Hpa & Hm & ->)].
  - unfold JsMap.size in Hsz. destruct (asyncCallsRequired st); [discriminate|discriminate].
  - destruct (startPending_spec world _ _ _ _ Hs) as (Hreg & _).
    simpl in Hd.
    assert (Hnd' : NoDup (settleOrder started)).
    { apply NoDup_settleOrder. rewrite Hm. now apply pendingKeys_nodup. }
    destruct (isPending key st) eqn:Hpend.
    + assert (Hin : In key (settleOrder started)).
      { eapply Permutation_in; [symmetry; apply settleOrder_perm|].
        rewrite Hm. now apply pendingKeys_in. }
      unfold isPending in Hpend.
      destruct (JsMap.get key (asyncCallsRequired st)) as [d0|] eqn:Hd0; [|discriminate].
      assert (Hd1 : JsMap.get key (asyncCallsRequired st1) = Some d0) by now rewrite Hreg.
      destruct (promiseAll_fulfilled world _ _ _ Hnd' Hpa key d0 Hin Hd1) as [Hget Hnone].
      rewrite Hget in Hd. injection Hd as <-.
      destruct (callAsyncFunction_pending world key d0 (Hok _ _ Hd0) Hnone Hp)
        as (Heq & Hf & Hrest).
      rewrite Heq. auto.
    + assert (Hsame : JsMap.get key (asyncCallsRequired st2) =
                      JsMap.get key (asyncCallsRequired st)).
      { rewrite <- Hreg. eapply promiseAll_other; eauto.
        intros Hin. eapply Permutation_in in Hin; [|apply settleOrder_perm].
        rewrite Hm in Hin. apply pendingKeys_in in Hin. congruence. }
      rewrite Hsame in Hd. unfold isPending in Hpend. rewrite Hd, Hp in Hpend. discriminate.
Qed.

(** The record of [SYS|M - VS1] after the resolve phase on the server that
    answers without a result. *)
Lemma X11_pending_after_resolution_means_unrecognised_answer_witness :
  let world := Samples.resultlessWorld in
  let st := nthPass world Samples.memberOfVS1 1 in
  exists st',
    registryOk st /\
    resolvePhase world st = (st', None) /\
    JsMap.get Samples.keyM (asyncCallsRequired st') = Some (Samples.recordM false VUndefined) /\
    exists request resultJson,
      memberOfRequest (Samples.recordM false VUndefined) = Normal (Some request) /\
      fetch world request = Json resultJson /\
      unrecognisedAnswer resultJson.
Proof.
  intros world st.
  assert (Hok : registryOk st) by apply registryOk_nthPass.
  destruct (resolvePhase world st) as [st' r] eqn:Hr.
  assert (Hr' : r = None /\
                JsMap.get Samples.keyM (asyncCallsRequired st') =
                  Some (Samples.recordM false VUndefined)).
  { vm_compute in Hr. injection Hr as <- <-. split; reflexivity. }
  destruct Hr' as [-> Hget].
  exists st'. split_ands; auto.
  apply (X11_pending_after_resolution_means_unrecognised_answer world st st' Samples.keyM
           (Samples.recordM false VUndefined) Hok Hr Hget eq_refl).
Defined.

(* ===================================================================== *)
(** * Fingerprints that coincide *)
(* ===================================================================== *)

Lemma string_append_assoc (a b c : string) : ((a ++ b) ++ c = a ++ (b ++ c))%string.
Proof. induction a as [|x a IH]; simpl; [reflexivity | now rewrite IH]. Qed.

Lemma string_append_nonempty (a b : string) : b <> "" -> (a ++ b =? "") = false.
Proof.
  intros Hb. apply String.eqb_neq. destruct a; simpl; [exact Hb | discriminate].
Qed.

(** X12: [createIndexKeyMemberOf] gives one fingerprint to three different
    elements: a coding, the string [system|code], and a [CodeableConcept]
    that holds just that coding.  So the handler files them under one
    registry key, the record kept being the one of the call site met last;
    yet [memberOfAsync] asks the server a different question for each: the
    system and the code, the code [system|code] without a system, or the
    whole concept in a POST. *)
Theorem X12_three_shapes_share_a_fingerprint :
  forall (system code valueSet : string) (coding cc : Value),
    code <> "" ->
    isCoding system code coding ->
    isCodeableConcept [coding] cc ->
    let text := VStr (system ++ "|" ++ code) in
    let key := VStr (system ++ "|" ++ code ++ " - " ++ valueSet) in
    (createIndexKeyMemberOf coding (VStr valueSet) = Normal key /\
     createIndexKeyMemberOf text (VStr valueSet) = Normal key /\
     createIndexKeyMemberOf cc (VStr valueSet) = Normal key) /\
    (forall st codeData,
       createIndexKeyMemberOf codeData (VStr valueSet) = Normal key ->
       isCompleted ("MemberOf:" ++ JS.toString key) st = false ->
       JsMap.get ("MemberOf:" ++ JS.toString key)
         (asyncCallsRequired (snd (memberOfElement valueSet codeData st))) =
         Some (filedCode codeData valueSet)) /\
    (memberOfRequest (filedCode coding valueSet) =
       Normal (Some (GET requestUrl
                       [("url", valueSet); ("system", system); ("code", code)])) /\
     memberOfRequest (filedCode text valueSet) =
       Normal (Some (GET requestUrl [("url", valueSet); ("code", system ++ "|" ++ code)])) /\
     memberOfRequest (filedCode cc valueSet) =
       Normal (Some (POST requestUrl
                       (VObj [("resourceType", VStr "Parameters");
                              ("parameter",
                               VArr [VObj [("name", VStr "url"); ("valueUri", VStr valueSet)];
                                     VObj [("name", VStr "codeableConcept");
                                           ("valueCodeableConcept", cc)]])])))).
Proof.
  intros system code valueSet coding cc Hcode (fc & -> & Hs & Hc & Hcod) (fcc & -> & Hcc & Hcs).
  intros text key.
  assert (Ht : JS.truthy (VStr code) = true).
  { simpl. apply negb_true_iff. now apply String.eqb_neq. }
  assert (Hkey : JS.truthy key = true).
  { simpl. apply negb_true_iff. apply string_append_nonempty. discriminate. }
  split_ands.
  - unfold createIndexKeyMemberOf. simpl. rewrite Hc, Ht, Hs. reflexivity.
  - unfold createIndexKeyMemberOf, text, key. simpl.
    now rewrite !string_append_assoc.
  - unfold createIndexKeyMemberOf. simpl. rewrite Hcc, Hcs. simpl.
    unfold codingKey. simpl. rewrite Hs, Hc. simpl. unfold key.
    now rewrite !string_append_assoc.
  - intros st codeData Hk Hnc. rewrite memberOfElement_cases, Hk. cbv zeta.
    rewrite Hkey, Hnc. simpl. apply JsMapFacts.get_set_eq.
  - unfold memberOfRequest, filedCode. simpl.
    rewrite Hcod, Hc, Hs. simpl in *. rewrite Ht. reflexivity.
  - reflexivity.
  - unfold memberOfRequest, filedCode. simpl. rewrite Hcs. reflexivity.
Qed.

(** The coding of the membership scenario, the string [SYS|M], and the
    concept that holds just that coding. *)
Lemma X12_three_shapes_share_a_fingerprint_witness :
  createIndexKeyMemberOf Samples.codingM (VStr "VS1") = Normal (VStr "SYS|M - VS1") /\
  createIndexKeyMemberOf (VStr "SYS|M") (VStr "VS1") = Normal (VStr "SYS|M - VS1") /\
  createIndexKeyMemberOf MoreSamples.conceptM (VStr "VS1") = Normal (VStr "SYS|M - VS1").
Proof.
  assert (Hcode : "M" <> "") by discriminate.
  assert (Hcoding : isCoding "SYS" "M" Samples.codingM).
  { eexists. split; [reflexivity|]. split_ands; reflexivity. }
  assert (Hcc : isCodeableConcept [Samples.codingM] MoreSamples.conceptM).
  { eexists. split; [reflexivity|]. split_ands; reflexivity. }
  exact (proj1 (X12_three_shapes_share_a_fingerprint "SYS" "M" "VS1" Samples.codingM
                  MoreSamples.conceptM Hcode Hcoding Hcc)).
Defined.

(* ===================================================================== *)
(** * The age *)
(* ===================================================================== *)

Section Age.

Open Scope Z_scope.

Variable world : World.

Lemma calendarDate_fields s y m d :
  isCalendarDate (VStr s) = true -> JsDate.dateFields s = (y, m, d) ->
  1 <= m <= 12 /\ 1 <= d <= daysInMonth y m /\ d <= 31 /\
  JsDate.parse s = Some (utcMidnight y m d).
Proof.
  unfold isCalendarDate. intros H Hf. rewrite Hf in H.
  rewrite !andb_true_iff, !Z.leb_le in H. destruct H as (_ & ((H1 & H2) & H3) & H4).
  pose proof (DateFacts.daysInMonth_bound y m) as Hb.
  split_ands; try lia.
  unfold JsDate.parse. rewrite Hf.
  replace ((1 <=? m) && (m <=? 12) && (1 <=? d) && (d <=? 31))%bool with true; [reflexivity|].
  symmetry. rewrite !andb_true_iff, !Z.leb_le. lia.
Qed.

(** The age, in terms of the two dates the getters read. *)
Lemma birthdateToAge_local s y m d :
  isCalendarDate (VStr s) = true -> JsDate.dateFields s = (y, m, d) ->
  birthdateToAge world (VStr s) =
    VNum (ageBetween (localDate world (utcMidnight y m d)) (localDate world (now world))).
Proof.
  intros Hc Hf. destruct (calendarDate_fields s y m d Hc Hf) as (_ & _ & _ & Hp).
  unfold birthdateToAge. rewrite DateFacts.isValidDateString_calendar, Hc.
  cbn [negb JS.toString]. rewrite Hp. cbv zeta.
  unfold getFullYear, getMonth, getDate, JsDate.YearFromTime, JsDate.MonthFromTime,
    JsDate.DateFromTime, ageBetween, localDate.
  destruct (JsDate.civilFromDays (JsDate.Day (LocalTime world (utcMidnight y m d))))
    as [[by_ bm] bd].
  destruct (JsDate.civilFromDays (JsDate.Day (LocalTime world (now world))))
    as [[ty tm] td].
  cbn [fst snd].
  replace (tm - 1 <? bm - 1) with (tm <? bm)
    by (destruct (Z.ltb_spec tm bm), (Z.ltb_spec (tm - 1) (bm - 1)); auto; lia).
  replace (tm - 1 =? bm - 1) with (tm =? bm)
    by (destruct (Z.eqb_spec tm bm), (Z.eqb_spec (tm - 1) (bm - 1)); auto; lia).
  destruct ((tm <? bm) || (tm =? bm) && (td <? bd))%bool; reflexivity.
Qed.

Lemma Day_shift days offset :
  JsDate.Day (days * JsDate.msPerDay + offset) = days + offset / JsDate.msPerDay.
Proof.
  unfold JsDate.Day, JsDate.msPerDay. rewrite Z.add_comm, Z.div_add by lia. lia.
Qed.

Lemma calendarDate_civil y m d :
  1 <= m <= 12 -> 1 <= d <= daysInMonth y m ->
  JsDate.civilFromDays (JsDate.daysFromCivil y m d) = (y, m, d).
Proof.
  intros Hm Hd. pose proof (DateFacts.daysInMonth_bound y m) as Hb.
  assert (Hd' : 1 <= d <= 31) by lia.
  pose proof (DateFacts.civilFromDays_daysFromCivil y m d Hm Hd') as H.
  destruct (JsDate.civilFromDays (JsDate.daysFromCivil y m d)) as [[y' m'] d'].
  destruct H as (Hiff & _). destruct Hiff as [_ Hiff].
  destruct Hiff as (-> & -> & ->); [lia | reflexivity].
Qed.

Lemma localDate_ahead_of_utc y m d :
  1 <= m <= 12 -> 1 <= d <= daysInMonth y m ->
  0 <= localTZA world (utcMidnight y m d) < JsDate.msPerDay ->
  localDate world (utcMidnight y m d) = (y, m, d).
Proof.
  intros Hm Hd Hoff.
  unfold localDate, LocalTime. unfold utcMidnight at 1. rewrite Day_shift.
  rewrite Z.div_small by exact Hoff. rewrite Z.add_0_r.
  now apply calendarDate_civil.
Qed.

(** X13: where local time is UTC or ahead of it (by less than a day) at
    midnight UTC of the birth date, [birthdateToAge] of a calendar date is
    the number of full years from the date written to today's local date:
    the difference of the years, less one when today's month and day come
    before those written. *)
Theorem X13_age_is_full_years_since_the_date_written :
  forall (s : string) (y m d : Z),
    isCalendarDate (VStr s) = true ->
    JsDate.dateFields s = (y, m, d) ->
    0 <= localTZA world (utcMidnight y m d) < JsDate.msPerDay ->
    localDate world (utcMidnight y m d) = (y, m, d) /\
    birthdateToAge world (VStr s) =
      VNum (ageBetween (y, m, d) (localDate world (now world))).
Proof.
  intros s y m d Hc Hf Hoff.
  destruct (calendarDate_fields s y m d Hc Hf) as (Hm & Hd & _ & _).
  pose proof (localDate_ahead_of_utc y m d Hm Hd Hoff) as Hl.
  split; [exact Hl|].
  rewrite (birthdateToAge_local s y m d Hc Hf), Hl. reflexivity.
Qed.


(** X15: [birthdateToAge] does not refuse a birth date in the future: where
    local time is UTC or ahead of it, the age is negative exactly when
    today's local date comes before the date written. *)
Theorem X15_future_birth_date_gives_a_negative_age :
  forall (s : string) (y m d : Z),
    isCalendarDate (VStr s) = true ->
    JsDate.dateFields s = (y, m, d) ->
    0 <= localTZA world (utcMidnight y m d) < JsDate.msPerDay ->
    exists age,
      birthdateToAge world (VStr s) = VNum age /\
      (age < 0 <-> dateBefore (localDate world (now world)) (y, m, d) = true).
Proof.
  intros s y m d Hc Hf Hoff.
  destruct (calendarDate_fields s y m d Hc Hf) as (Hm & Hd & _ & _).
  rewrite (birthdateToAge_local s y m d Hc Hf), (localDate_ahead_of_utc y m d Hm Hd Hoff).
  eexists. split; [reflexivity|].
  unfold ageBetween, dateBefore.
  destruct (localDate world (now world)) as [[ty tm] td].
  destruct (Z.ltb_spec tm m), (Z.eqb_spec tm m), (Z.ltb_spec td d),
    (Z.ltb_spec ty y), (Z.eqb_spec ty y); cbn [orb andb]; split; intros; try lia;
    try discriminate; try reflexivity.
Qed.

End Age.

(** Born on 2 March 2000; today is 1 March 2024, on UTC. *)
Lemma X13_age_is_full_years_since_the_date_written_witness :
  birthdateToAge MoreSamples.onUtc (VStr "2000-03-02") = VNum 23.
Proof.
  assert (Hoff : (0 <= localTZA MoreSamples.onUtc (utcMidnight 2000 3 2) < JsDate.msPerDay)%Z).
  { split; [apply Z.le_refl | reflexivity]. }
  destruct (X13_age_is_full_years_since_the_date_written MoreSamples.onUtc
              "2000-03-02" 2000 3 2 eq_refl eq_refl Hoff) as [_ H].
  rewrite H. reflexivity.
Defined.


(** A birth date in 2030, read on 1 March 2024. *)
Lemma X15_future_birth_date_gives_a_negative_age_witness :
  exists age,
    birthdateToAge MoreSamples.onUtc (VStr "2030-01-01") = VNum age /\
    ((age < 0)%Z <->
     dateBefore (localDate MoreSamples.onUtc (now MoreSamples.onUtc)) (2030, 1, 1)%Z = true).
Proof.
  assert (Hoff : (0 <= localTZA MoreSamples.onUtc (utcMidnight 2030 1 1) < JsDate.msPerDay)%Z).
  { split; [apply Z.le_refl | reflexivity]. }
  exact (X15_future_birth_date_gives_a_negative_age MoreSamples.onUtc
           "2030-01-01" 2030 1 1 eq_refl eq_refl Hoff).
Defined.

(* ===================================================================== *)
(** * The revision with in-memory adapters *)
(* ===================================================================== *)

Lemma Stub_callAsyncFunction_completed d :
  evaluationCompleted (Stub.callAsyncFunction d) = true.
Proof.
  unfold Stub.callAsyncFunction, Stub.resolveAsync, Stub.memberOfAsync.
  destruct (asyncFunction d); cbv zeta;
    match goal with |- context [if ?c then _ else _] => destruct c end; reflexivity.
Qed.

Lemma Stub_resolveKeys_get keys :
  forall st key,
    (JsMap.get key (asyncCallsRequired st) = None ->
     JsMap.get key (asyncCallsRequired (Stub.resolveKeys keys st)) = None) /\
    (forall d,
       JsMap.get key (asyncCallsRequired st) = Some d -> evaluationCompleted d = true ->
       JsMap.get key (asyncCallsRequired (Stub.resolveKeys keys st)) = Some d).
Proof.
  induction keys as [|k rest IH]; intros st key; simpl; [auto|].
  destruct (JsMap.get k (asyncCallsRequired st)) as [d0|] eqn:Hk; [|apply IH].
  destruct (evaluationCompleted d0) eqn:Hc; simpl; [apply IH|].
  set (st' := withRegistry _ _).
  assert (Hget : JsMap.get key (asyncCallsRequired st') =
                 if k =? key then Some (Stub.callAsyncFunction d0)
                 else JsMap.get key (asyncCallsRequired st)).
  { unfold st'. simpl. apply JsMapFacts.get_set. }
  destruct (IH st' key) as [IHn IHs]. split.
  - intros Hn. apply IHn. rewrite Hget.
    destruct (k =? key) eqn:E; auto.
    apply String.eqb_eq in E. subst. congruence.
  - intros d Hd Hcd. apply IHs; auto. rewrite Hget.
    destruct (k =? key) eqn:E; auto.
    apply String.eqb_eq in E. subst. congruence.
Qed.

Lemma Stub_resolveKeys_completes keys :
  forall st key d,
    In key keys ->
    JsMap.get key (asyncCallsRequired (Stub.resolveKeys keys st)) = Some d ->
    evaluationCompleted d = true.
Proof.
  induction keys as [|k rest IH]; intros st key d; simpl; [intros []|].
  intros [->|Hin] Hd.
  - destruct (JsMap.get key (asyncCallsRequired st)) as [d0|] eqn:Hk.
    + destruct (evaluationCompleted d0) eqn:Hc; simpl in Hd.
      * rewrite (proj2 (Stub_resolveKeys_get rest st key) d0 Hk Hc) in Hd. congruence.
      * set (st' := withRegistry _ _) in Hd.
        assert (Hget : JsMap.get key (asyncCallsRequired st') =
                       Some (Stub.callAsyncFunction d0))
          by (unfold st'; simpl; apply JsMapFacts.get_set_eq).
        rewrite (proj2 (Stub_resolveKeys_get rest st' key) _ Hget
                   (Stub_callAsyncFunction_completed d0)) in Hd.
        injection Hd as <-. apply Stub_callAsyncFunction_completed.
    + rewrite (proj1 (Stub_resolveKeys_get rest st key) Hk) in Hd. discriminate.
  - destruct (JsMap.get k (asyncCallsRequired st)) as [d0|] eqn:Hk; [|eapply IH; eauto].
    destruct (evaluationCompleted d0); simpl in Hd; eapply IH; eauto.
Qed.

(** X16: in the revision with in-memory adapters a resolve phase leaves no
    record pending: every record the registry holds after it is
    completed. *)
Theorem X16_stub_resolution_completes_every_record :
  forall (st : State) (key : string) (d : AsyncFunctionUserData),
    JsMap.get key (asyncCallsRequired (Stub.resolvePhase st)) = Some d ->
    evaluationCompleted d = true.
Proof.
  intros st key d. unfold Stub.resolvePhase.
  destruct (0 <? JsMap.size (asyncCallsRequired st))%nat eqn:E.
  - simpl. intros Hd. eapply Stub_resolveKeys_completes; [|exact Hd].
    destruct (JsMap.get key (asyncCallsRequired st)) as [d0|] eqn:Hk.
    + eapply JsMapFacts.get_in_keys; eauto.
    + rewrite (proj1 (Stub_resolveKeys_get _ st key) Hk) in Hd. discriminate.
  - apply Nat.ltb_ge in E. unfold JsMap.size in E.
    destruct (asyncCallsRequired st); [discriminate | simpl in E; lia].
Qed.

(** The pass of [c.memberOf(vs)] on one element that has a fingerprint. *)
Lemma Stub_evaluatePass_memberOf_one codeData valueSet k st :
  createIndexKeyMemberOf codeData (VStr valueSet) = Normal k ->
  JS.truthy k = true ->
  let key := "MemberOf:" ++ JS.toString k in
  Stub.evaluatePass (Stub.CallMemberOf [codeData] valueSet (fun output => Stub.Return output)) st =
    (withResults [if isCompleted key st then cachedResult key st else VUndefined]
       (if isCompleted key st
        then snd (logMessage "  using cached result for: " (VStr key) st)
        else snd (fileRecord key (filedCode codeData valueSet) st)),
     None).
Proof.
  intros Hk Ht key. unfold Stub.evaluatePass. cbn [Stub.evaluate]. unfold Stub.memberOf.
  cbn [mapM]. unfold bind, ret. rewrite memberOfElement_cases, Hk. cbv zeta. fold key.
  rewrite Ht. destruct (isCompleted key st); reflexivity.
Qed.

(** X17: in the revision with in-memory adapters, [memberOf] answers for an
    element by the value set alone: [true] when the value set is the one the
    adapter knows, [false] for every other, whatever the code.  The
    evaluation takes two passes. *)
Theorem X17_stub_membership_depends_on_the_value_set_only :
  forall (codeData : Value) (valueSet : string) (k : Value),
    createIndexKeyMemberOf codeData (VStr valueSet) = Normal k ->
    JS.truthy k = true ->
    exists st,
      Stub.evaluateFhirpathAsync
        (Stub.CallMemberOf [codeData] valueSet (fun output => Stub.Return output)) =
        Some (Fulfilled [VBool (valueSet =? Stub.knownUrl)] st) /\
      iterations st = 2%nat /\
      requiresAsyncProcessing st = false /\
      adapterCalls st = ["MemberOf:" ++ JS.toString k].
Proof.
  intros codeData valueSet k Hk Ht.
  pose proof (Stub_evaluatePass_memberOf_one codeData valueSet k) as Hpass.
  specialize (Hpass) with (1 := Hk) (2 := Ht). cbv zeta in Hpass.
  set (key := "MemberOf:" ++ JS.toString k) in *.
  set (e := Stub.CallMemberOf [codeData] valueSet (fun output => Stub.Return output)) in *.
  assert (Hcall : Stub.memberOfAsync (filedCode codeData valueSet) =
                  setResult (VBool (valueSet =? Stub.knownUrl))
                    (markCompleted (filedCode codeData valueSet))).
  { unfold Stub.memberOfAsync. simpl.
    destruct (valueSet =? Stub.knownUrl); reflexivity. }
  clearbody key e.
  unfold Stub.evaluateFhirpathAsync, maxIterations.
  rewrite Stub_doWhile_unfold. unfold Stub.iteration at 1. rewrite Hpass.
  change (Stub.resolvePhase (incrementIterations initialState))
    with (incrementIterations initialState).
  replace (isCompleted key _) with false by reflexivity.
  set (st1 := withResults _ _).
  replace (requiresAsyncProcessing st1 && (iterations st1 <? 10)%nat) with true by reflexivity.
  rewrite Stub_doWhile_unfold. unfold Stub.iteration at 1. rewrite Hpass.
  assert (HR : exists stR,
             Stub.resolvePhase (incrementIterations st1) = stR /\
             asyncCallsRequired stR =
               [(key, setResult (VBool (valueSet =? Stub.knownUrl))
                        (markCompleted (filedCode codeData valueSet)))] /\
             adapterCalls stR = [key] /\ iterations stR = 2%nat /\
             requiresAsyncProcessing stR = false).
  { eexists. split; [reflexivity|]. unfold Stub.resolvePhase, st1. cbn.
    rewrite ?String.eqb_refl. cbn. rewrite ?String.eqb_refl. cbn.
    fold (filedCode codeData valueSet). rewrite Hcall. auto. }
  destruct HR as (stR & -> & R1 & R2 & R3 & R4).
  assert (Hc : isCompleted key
             (exec (logMessage "performing iteration: " (VNum (Z.of_nat (iterations stR)))) stR)
               = true).
  { unfold isCompleted. cbn. rewrite R1. cbn. now rewrite String.eqb_refl. }
  assert (Hr : cachedResult key
             (exec (logMessage "performing iteration: " (VNum (Z.of_nat (iterations stR)))) stR)
               = VBool (valueSet =? Stub.knownUrl)).
  { unfold cachedResult. cbn. rewrite R1. cbn. now rewrite String.eqb_refl. }
  rewrite Hc, Hr. cbn. rewrite R4. cbn. unfold Stub.finish. cbn. rewrite R3. cbn.
  eexists. split_ands; [reflexivity | cbn; auto ..].
Qed.

(** The record of [SYS|M - VS1] after the resolve phase. *)
Lemma X16_stub_resolution_completes_every_record_witness :
  JsMap.get Samples.keyM (asyncCallsRequired (Stub.resolvePhase MoreSamples.afterFirstPass)) =
    Some (Samples.recordM true (VBool false)) /\
  evaluationCompleted (Samples.recordM true (VBool false)) = true.
Proof.
  split; [reflexivity|].
  exact (X16_stub_resolution_completes_every_record MoreSamples.afterFirstPass
           Samples.keyM (Samples.recordM true (VBool false)) eq_refl).
Defined.

(** The coding of the membership scenario in [VS1], which is not the value
    set the adapter knows. *)
Lemma X17_stub_membership_depends_on_the_value_set_only_witness :
  exists st,
    Stub.evaluateFhirpathAsync
      (Stub.CallMemberOf [Samples.codingM] "VS1" (fun output => Stub.Return output)) =
      Some (Fulfilled [VBool false] st) /\
    iterations st = 2%nat.
Proof.
  destruct (X17_stub_membership_depends_on_the_value_set_only Samples.codingM "VS1"
              (VStr "SYS|M - VS1") eq_refl eq_refl) as (st & H & Hi & _).
  exists st. split; [exact H | exact Hi].
Defined.

(* ===================================================================== *)
(** * A membership check, whatever the answer *)
(* ===================================================================== *)

(** The pass of [c.memberOf(vs)] on one element that has a fingerprint. *)
Lemma evaluatePass_memberOf_one world codeData valueSet k st :
  createIndexKeyMemberOf codeData (VStr valueSet) = Normal k ->
  JS.truthy k = true ->
  let key := "MemberOf:" ++ JS.toString k in
  evaluatePass world (CallMemberOf [codeData] valueSet (fun output => Return output)) st =
    (withResults (filter JS.isDefined
                    [if isCompleted key st then cachedResult key st else VUndefined])
       (if isCompleted key st
        then snd (logMessage "  using cached result for: " (VStr key) st)
        else snd (fileRecord key (filedCode codeData valueSet) st)),
     None).
Proof.
  intros Hk Ht key. unfold evaluatePass. cbn [evaluate]. unfold memberOf.
  cbn [mapM]. unfold bind, ret. rewrite memberOfElement_cases, Hk. cbv zeta. fold key.
  rewrite Ht. destruct (isCompleted key st); reflexivity.
Qed.

(** X21: [c.memberOf(vs)] on an element the terminology server answers
    for.  Whether the answer is [true] or [false], the second pass hands it
    to the engine and the promise is fulfilled with it: a negative answer is
    a result like a positive one, stored once and not asked for again. *)
Theorem X21_membership_answer_is_delivered_true_or_false :
  forall (world : World) (codeData k : Value) (valueSet : string)
         (request : Request) (b : bool),
    createIndexKeyMemberOf codeData (VStr valueSet) = Normal k ->
    JS.truthy k = true ->
    memberOfRequest (filedCode codeData valueSet) = Normal (Some request) ->
    fetch world request = Json (Samples.validateCodeResult b) ->
    let key := "MemberOf:" ++ JS.toString k in
    exists st,
      evaluateFhirpathAsync world (CallMemberOf [codeData] valueSet (fun output => Return output)) =
        Some (Fulfilled [VBool b] st) /\
      iterations st = 2%nat /\
      requiresAsyncProcessing st = false /\
      adapterCalls st = [key] /\
      asyncCallsRequired st =
        [(key, setResult (VBool b) (markCompleted (filedCode codeData valueSet)))].
Proof.
  intros world codeData k valueSet request b Hk Ht Hreq Hfetch key.
  assert (Hcall : callAsyncFunction world (filedCode codeData valueSet) =
                  (setResult (VBool b) (markCompleted (filedCode codeData valueSet)), None)).
  { unfold callAsyncFunction. cbn [asyncFunction filedCode]. unfold memberOfAsync.
    rewrite memberOfAsyncTry_cases, Hreq, Hfetch. reflexivity. }
  pose proof (evaluatePass_memberOf_one world codeData valueSet k) as Hpass.
  specialize (Hpass) with (1 := Hk) (2 := Ht). cbv zeta in Hpass. fold key in Hpass.
  set (e := CallMemberOf [codeData] valueSet (fun output => Return output)) in *.
  clearbody key e.
  unfold evaluateFhirpathAsync, maxIterations.
  rewrite doWhile_unfold. unfold iteration at 1.
  change (resolvePhase world (incrementIterations initialState))
    with (incrementIterations initialState, @None Value).
  cbv iota beta. rewrite Hpass.
  replace (isCompleted key _) with false by reflexivity.
  cbn -[callAsyncFunction doWhile filedCode].
  rewrite doWhile_unfold. unfold iteration at 1.
  unfold incrementIterations, withResults. cbn [results outcome asyncCallsRequired
    requiresAsyncProcessing iterations adapterCalls].
  rewrite resolvePhase_single by reflexivity. cbv zeta. rewrite Hcall.
  cbv iota beta. rewrite Hpass.
  assert (Hc : forall res log flag n calls,
            isCompleted key (mkState res log
              [(key, setResult (VBool b) (markCompleted (filedCode codeData valueSet)))]
              flag n calls) = true).
  { intros. unfold isCompleted. cbn. now rewrite String.eqb_refl. }
  assert (Hr : forall res log flag n calls,
            cachedResult key (mkState res log
              [(key, setResult (VBool b) (markCompleted (filedCode codeData valueSet)))]
              flag n calls) = VBool b).
  { intros. unfold cachedResult. cbn. now rewrite String.eqb_refl. }
  unfold exec. cbn [logMessage snd results outcome asyncCallsRequired
    requiresAsyncProcessing iterations adapterCalls].
  rewrite Hc, Hr. cbn.
  eexists. split_ands; reflexivity.
Qed.

(** The coding of the membership scenario on a server that answers
    [false]. *)
Lemma X21_membership_answer_is_delivered_true_or_false_witness :
  exists st,
    evaluateFhirpathAsync MoreSamples.negativeWorld Samples.memberOfVS1 =
      Some (Fulfilled [VBool false] st) /\
    iterations st = 2%nat.
Proof.
  destruct (X21_membership_answer_is_delivered_true_or_false MoreSamples.negativeWorld
              Samples.codingM (VStr "SYS|M - VS1") "VS1" Samples.validateM false
              eq_refl eq_refl eq_refl eq_refl) as (st & H & Hi & _).
  exists st. split; [exact H | exact Hi].
Defined.

(* ===================================================================== *)
(** * Calls that depend on one another *)
(* ===================================================================== *)



(** X23: [c.memberOf(vs)] on an element for which the terminology server
    answers with issues (an [OperationOutcome]).  [memberOfAsync] completes
    the record and throws the answer, catches it itself, and rejects with a
    diagnostic of its own: severity [error], the text naming the
    fingerprint, and for diagnostics the [message] of the answer, which an
    [OperationOutcome] does not have; the server's issues are not passed
    on.  The promise is rejected in the resolve phase after the first
    pass. *)
Theorem X23_server_issues_are_replaced_by_a_diagnostic :
  forall (world : World) (codeData k : Value) (valueSet : string)
         (request : Request) (resultJson param : Value),
    createIndexKeyMemberOf codeData (VStr valueSet) = Normal k ->
    JS.truthy k = true ->
    memberOfRequest (filedCode codeData valueSet) = Normal (Some request) ->
    fetch world request = Json resultJson ->
    resultParameter resultJson = Normal param ->
    JS.truthy resultJson && JS.truthy (JS.prop resultJson "issue") = true ->
    let key := "MemberOf:" ++ JS.toString k in
    exists st details,
      evaluateFhirpathAsync world (CallMemberOf [codeData] valueSet (fun output => Return output)) =
        Some (Rejected
                (CreateOperationOutcome "error" "exception"
                   (VStr ("Failed to check membership: " ++ JS.toString k))
                   VUndefined (JS.prop resultJson "message")) st) /\
      iterations st = 2%nat /\
      results st = [] /\
      adapterCalls st = [key] /\
      asyncCallsRequired st = [(key, details)] /\
      evaluationCompleted details = true.
Proof.
  intros world codeData k valueSet request resultJson param Hk Ht Hreq Hfetch Hparam Hissue key.
  assert (Hcall : exists details,
             callAsyncFunction world (filedCode codeData valueSet) =
               (details,
                Some (CreateOperationOutcome "error" "exception"
                        (VStr ("Failed to check membership: " ++ JS.toString k))
                        VUndefined (JS.prop resultJson "message"))) /\
             evaluationCompleted details = true).
  { unfold callAsyncFunction. cbn [asyncFunction filedCode]. unfold memberOfAsync.
    rewrite memberOfAsyncTry_cases, Hreq, Hfetch, Hparam. cbv zeta. rewrite Hissue.
    destruct (JS.truthy param); simpl; rewrite Hk; eexists; split; reflexivity. }
  destruct Hcall as (details & Hcall & Hdone).
  pose proof (evaluatePass_memberOf_one world codeData valueSet k) as Hpass.
  specialize (Hpass) with (1 := Hk) (2 := Ht). cbv zeta in Hpass. fold key in Hpass.
  set (e := CallMemberOf [codeData] valueSet (fun output => Return output)) in *.
  clearbody key e.
  unfold evaluateFhirpathAsync, maxIterations.
  rewrite doWhile_unfold. unfold iteration at 1.
  change (resolvePhase world (incrementIterations initialState))
    with (incrementIterations initialState, @None Value).
  cbv iota beta. rewrite Hpass.
  replace (isCompleted key _) with false by reflexivity.
  cbn -[callAsyncFunction doWhile filedCode].
  rewrite doWhile_unfold. unfold iteration at 1.
  unfold incrementIterations, withResults. cbn [results outcome asyncCallsRequired
    requiresAsyncProcessing iterations adapterCalls].
  rewrite resolvePhase_single by reflexivity. cbv zeta. rewrite Hcall.
  cbv iota beta.
  eexists. exists details. split_ands; try reflexivity. exact Hdone.
Qed.

(** A terminology server that answers every question with an
    [OperationOutcome]. *)
Lemma X23_server_issues_are_replaced_by_a_diagnostic_witness :
  exists st,
    evaluateFhirpathAsync MoreSamples.refusingWorld Samples.memberOfVS1 =
      Some (Rejected
              (CreateOperationOutcome "error" "exception"
                 (VStr "Failed to check membership: SYS|M - VS1") VUndefined VUndefined) st) /\
    iterations st = 2%nat.
Proof.
  destruct (X23_server_issues_are_replaced_by_a_diagnostic MoreSamples.refusingWorld
              Samples.codingM (VStr "SYS|M - VS1") "VS1" Samples.validateM
              MoreSamples.notFoundOutcome VUndefined
              eq_refl eq_refl eq_refl eq_refl eq_refl eq_refl) as (st & details & H & Hi & _).
  exists st. split; [exact H | exact Hi].
Defined.

(* ===================================================================== *)
(** * The calls of a resolve phase *)
(* ===================================================================== *)

(** X24: each run of the loop body calls the adapter of every record that
    was pending when it began, once each and in the order the records were
    filed, whether or not one of the calls fails: all the requests of a
    resolve phase are sent before the first answer is awaited. *)
Theorem X24_every_pending_record_is_requested_in_each_round :
  forall (world : World) (e : Eval) (st : State),
    adapterCalls (fst (iteration world e st)) = (adapterCalls st ++ pendingKeys st)%list /\
    (registryOk st -> NoDup (pendingKeys st)) /\
    (forall key, In key (pendingKeys st) <-> isPending key st = true).
Proof.
  intros world e st. split_ands.
  - apply iteration_adapterCalls.
  - intros [Hnd _]. now apply pendingKeys_nodup.
  - intros key. apply pendingKeys_in.
Qed.

(* ===================================================================== *)
(** * The order in which the answers arrive *)
(* ===================================================================== *)

Lemma callAsyncFunction_sameAnswers world world' d :
  sameAnswers world world' -> callAsyncFunction world' d = callAsyncFunction world d.
Proof.
  intros H. unfold callAsyncFunction, resolveAsync, memberOfAsync, memberOfAsyncTry.
  destruct (asyncFunction d).
  - destruct (JS.truthy _); [|reflexivity]. now rewrite H.
  - destruct (memberOfRequest d) as [[request|]|err]; try reflexivity. now rewrite H.
Qed.

Lemma get_entry {V : Type} (m : list (string * V)) key v v' :
  NoDup (JsMap.keys m) -> JsMap.get key m = Some v -> In (key, v') m -> v' = v.
Proof.
  unfold JsMap.keys. induction m as [|[k0 v0] rest IH]; simpl; intros Hnd Hg Hin; [contradiction|].
  inversion Hnd as [|? ? Hnin Hnd']; subst.
  destruct (k0 =? key) eqn:E.
  - apply String.eqb_eq in E. subst k0. injection Hg as <-.
    destruct Hin as [[= <-]|Hin]; [reflexivity|].
    exfalso. apply Hnin. apply in_map_iff. exists (key, v'). auto.
  - destruct Hin as [[= -> ->]|Hin]; [rewrite String.eqb_refl in E; discriminate|].
    now apply IH.
Qed.

(** Writing one record, as a change of the whole registry. *)
Lemma set_as_map {V : Type} (m : list (string * V)) key v v' :
  NoDup (JsMap.keys m) -> JsMap.get key m = Some v ->
  JsMap.set key v' m = map (fun entry => if fst entry =? key then (fst entry, v') else entry) m.
Proof.
  unfold JsMap.keys. induction m as [|[k0 v0] rest IH]; simpl; intros Hnd Hg; [discriminate|].
  inversion Hnd as [|? ? Hnin Hnd']; subst.
  destruct (k0 =? key) eqn:E.
  - f_equal. apply String.eqb_eq in E. subst k0.
    rewrite <- (map_id rest) at 1. apply map_ext_in. intros [k v1] Hin. simpl.
    destruct (k =? key) eqn:E'; [|reflexivity].
    apply String.eqb_eq in E'. subst k. exfalso. apply Hnin.
    apply in_map_iff. exists (key, v1). auto.
  - f_equal. now apply IH.
Qed.

Lemma keys_map_entry {V : Type} (f : string * V -> string * V) (m : list (string * V)) :
  (forall entry, fst (f entry) = fst entry) -> JsMap.keys (map f m) = JsMap.keys m.
Proof.
  intros Hf. unfold JsMap.keys. rewrite map_map. apply map_ext. exact Hf.
Qed.

(** A batch whose calls all succeed leaves the registry as [settleAll]
    says, whatever the order of the batch. *)
Lemma promiseAll_settleAll world order :
  forall st st',
    NoDup (JsMap.keys (asyncCallsRequired st)) ->
    NoDup order ->
    (forall k, In k order -> In k (JsMap.keys (asyncCallsRequired st))) ->
    promiseAll world order st = (st', None) ->
    asyncCallsRequired st' = settleAll world order (asyncCallsRequired st).
Proof.
  induction order as [|key rest IH]; intros st st' Hnd Hno Hin; simpl.
  - intros [= <-]. unfold settleAll. simpl. symmetry. apply map_id.
  - inversion Hno as [|? ? Hnin Hno']; subst.
    destruct (JsMapFacts.in_keys_get key _ (Hin key (or_introl eq_refl))) as [d Hd].
    rewrite Hd. destruct (callAsyncFunction world d) as [d' [r|]] eqn:Hcall; [discriminate|].
    intros H. apply IH in H; auto.
    + rewrite H. simpl. rewrite (set_as_map _ key d d' Hnd Hd).
      unfold settleAll. rewrite map_map. apply map_ext_in. intros [k dk] Hink. simpl.
      destruct (k =? key) eqn:E; simpl.
      * apply String.eqb_eq in E. subst k.
        replace (existsb (String.eqb key) rest) with false.
        -- rewrite (get_entry _ key d dk Hnd Hd Hink), Hcall. reflexivity.
        -- symmetry. apply not_true_is_false. intros Hex. apply existsb_exists in Hex.
           destruct Hex as (x & Hx & Hxe). apply String.eqb_eq in Hxe. subst x. contradiction.
      * reflexivity.
    + simpl. apply JsMapFacts.keys_set_nodup. exact Hnd.
    + intros k Hk. simpl. apply JsMapFacts.keys_set_in. right. apply Hin. now right.
Qed.

(** A batch succeeds when each of its calls does. *)
Lemma promiseAll_succeeds world order :
  forall st,
    NoDup order ->
    (forall k d, In k order -> JsMap.get k (asyncCallsRequired st) = Some d ->
                 snd (callAsyncFunction world d) = None) ->
    exists st', promiseAll world order st = (st', None).
Proof.
  induction order as [|key rest IH]; intros st Hno Hall; simpl; [eauto|].
  inversion Hno as [|? ? Hnin Hno']; subst.
  destruct (JsMap.get key (asyncCallsRequired st)) as [d|] eqn:Hd.
  - pose proof (Hall key d (or_introl eq_refl) Hd) as Hnone.
    destruct (callAsyncFunction world d) as [d' r]. simpl in Hnone. subst r.
    apply IH; auto. intros k dk Hk. simpl. rewrite JsMapFacts.get_set_ne.
    + apply Hall. now right.
    + intros ->. contradiction.
  - apply IH; auto. intros k dk Hk. apply Hall. now right.
Qed.

Lemma settleAll_permutation world world' order order' m :
  sameAnswers world world' ->
  (forall k, In k order <-> In k order') ->
  settleAll world' order' m = settleAll world order m.
Proof.
  intros Hsame Hperm. unfold settleAll. apply map_ext. intros [k d]. simpl.
  rewrite (callAsyncFunction_sameAnswers world world' d Hsame).
  replace (existsb (String.eqb k) order') with (existsb (String.eqb k) order); [reflexivity|].
  destruct (existsb (String.eqb k) order) eqn:E; symmetry.
  - apply existsb_exists in E. destruct E as (x & Hx & Hxe).
    apply existsb_exists. exists x. split; [now apply Hperm | exact Hxe].
  - apply not_true_is_false. intros E'. apply existsb_exists in E'.
    destruct E' as (x & Hx & Hxe). apply Hperm in Hx.
    assert (existsb (String.eqb k) order = true) by (apply existsb_exists; eauto).
    congruence.
Qed.

(** Starting the calls does the same to the state in every world; only the
    times at which they will settle differ. *)
Lemma startPending_world world world' keys :
  forall st,
    snd (startPending world' keys st) = snd (startPending world keys st) /\
    map fst (fst (startPending world' keys st)) = map fst (fst (startPending world keys st)).
Proof.
  induction keys as [|key rest IH]; intros st; simpl; [auto|].
  destruct (JsMap.get key (asyncCallsRequired st)) as [d|]; [|apply IH].
  destruct (negb (evaluationCompleted d)); [|apply IH].
  set (st1 := recordAdapterCall key _).
  destruct (IH st1) as [H1 H2].
  destruct (startPending world' rest st1) as [s' t'].
  destruct (startPending world rest st1) as [s t]. simpl in *.
  split; [exact H1 | now rewrite H2].
Qed.

Lemma state_eq (a b : State) :
  results a = results b -> outcome a = outcome b ->
  asyncCallsRequired a = asyncCallsRequired b ->
  requiresAsyncProcessing a = requiresAsyncProcessing b ->
  iterations a = iterations b -> adapterCalls a = adapterCalls b -> a = b.
Proof. destruct a, b; simpl; intros; subst; reflexivity. Qed.

(** X25: when no call of a resolve phase fails, what the phase leaves does
    not depend on the order in which the answers arrive: with the same
    answers from the servers and any other latencies, the phase ends in the
    same state.  Each call writes its own record only. *)
Theorem X25_answers_may_arrive_in_any_order :
  forall (world world' : World) (st st' : State),
    sameAnswers world world' ->
    registryOk st ->
    resolvePhase world st = (st', None) ->
    resolvePhase world' st = (st', None).
Proof.
  intros world world' st st' Hsame [Hnd Hok] Hr.
  destruct (0 <? JsMap.size (asyncCallsRequired st))%nat eqn:Hsize.
  2: { unfold resolvePhase in *. rewrite Hsize in *. exact Hr. }
  pose proof Hr as Hparts. apply resolvePhase_parts in Hparts.
  destruct Hparts as [(Hsz & -> & _) | (started & st1 & st2 & Hs & Hp & Hm & ->)].
  - rewrite Hsz in Hsize. discriminate.
  - destruct (startPending_spec world _ _ _ _ Hs) as (Hreg & _).
    destruct (startPending_world world world' (JsMap.keys (asyncCallsRequired st)) st)
      as [Hst1 Hkeys].
    rewrite Hs in Hst1, Hkeys. simpl in Hst1, Hkeys.
    destruct (startPending world' (JsMap.keys (asyncCallsRequired st)) st)
      as [started' st1'] eqn:Hs'.
    simpl in Hst1, Hkeys. subst st1'.
    assert (Hnd1 : NoDup (JsMap.keys (asyncCallsRequired st1))) by now rewrite Hreg.
    assert (Hno : NoDup (settleOrder started)).
    { apply NoDup_settleOrder. rewrite Hm. now apply pendingKeys_nodup. }
    assert (Hno' : NoDup (settleOrder started')).
    { apply NoDup_settleOrder. rewrite Hkeys, Hm. now apply pendingKeys_nodup. }
    assert (Hperm : forall k, In k (settleOrder started) <-> In k (settleOrder started')).
    { intros k. split; intros Hin.
      - eapply Permutation_in; [symmetry; apply settleOrder_perm|].
        rewrite Hkeys. eapply Permutation_in; [apply settleOrder_perm | exact Hin].
      - eapply Permutation_in; [symmetry; apply settleOrder_perm|].
        rewrite <- Hkeys. eapply Permutation_in; [apply settleOrder_perm | exact Hin]. }
    assert (Hinreg : forall k, In k (settleOrder started) ->
                               In k (JsMap.keys (asyncCallsRequired st1))).
    { intros k Hin. eapply Permutation_in in Hin; [|apply settleOrder_perm].
      rewrite Hm in Hin. unfold pendingKeys in Hin. apply filter_In in Hin.
      rewrite Hreg. tauto. }
    destruct (promiseAll_succeeds world' (settleOrder started') st1 Hno') as [st2' Hp'].
    { intros k d Hin Hd. rewrite (callAsyncFunction_sameAnswers world world' d Hsame).
      apply Hperm in Hin.
      exact (proj2 (promiseAll_fulfilled world _ _ _ Hno Hp k d Hin Hd)). }
    pose proof (promiseAll_settleAll world _ _ _ Hnd1 Hno Hinreg Hp) as Hset.
    assert (Hinreg' : forall k, In k (settleOrder started') ->
                                In k (JsMap.keys (asyncCallsRequired st1))).
    { intros k Hin. apply Hinreg. now apply Hperm. }
    pose proof (promiseAll_settleAll world' _ _ _ Hnd1 Hno' Hinreg' Hp') as Hset'.
    rewrite (settleAll_permutation world world' _ _ _ Hsame Hperm) in Hset'.
    destruct (promiseAll_frame world _ _ _ _ Hp) as (F1 & F2 & F3 & F4 & F5 & _).
    destruct (promiseAll_frame world' _ _ _ _ Hp') as (G1 & G2 & G3 & G4 & G5 & _).
    assert (Heq : st2' = st2) by (apply state_eq; congruence).
    unfold resolvePhase. rewrite Hsize, Hs', Hp', Heq. reflexivity.
Qed.

(** The two codings of the failure scenario on a server that answers for
    both, the answer for the first taking longer or not. *)
Lemma X25_answers_may_arrive_in_any_order_witness :
  let st := nthPass MoreSamples.slowWorld Samples.memberOfBoth 1 in
  exists st',
    resolvePhase MoreSamples.slowWorld st = (st', None) /\
    resolvePhase MoreSamples.quickWorld st = (st', None).
Proof.
  intros st.
  assert (Hsame : sameAnswers MoreSamples.slowWorld MoreSamples.quickWorld)
    by (intros request; reflexivity).
  assert (Hok : registryOk st) by apply registryOk_nthPass.
  destruct (resolvePhase MoreSamples.slowWorld st) as [st' r] eqn:Hr.
  assert (Hnone : r = None) by (vm_compute in Hr; now injection Hr as _ <-).
  subst r. exists st'. split; [reflexivity|].
  exact (X25_answers_may_arrive_in_any_order MoreSamples.slowWorld MoreSamples.quickWorld
           st st' Hsame Hok Hr).
Defined.

(* ===================================================================== *)
(** * Call sites that do not depend on one another *)
(* ===================================================================== *)

Section Independent.

Variable world : World.

Lemma onlyLogged_refl st : onlyLogged st st.
Proof. unfold onlyLogged. auto. Qed.

Lemma onlyLogged_isCompleted st st' key :
  onlyLogged st st' -> isCompleted key st' = isCompleted key st.
Proof. intros (_ & H & _). unfold isCompleted. now rewrite H. Qed.

Lemma onlyLogged_log text data st :
  onlyLogged st (snd (logMessage text data st)).
Proof. unfold onlyLogged. simpl. auto. Qed.

(** After its callback has run, the key of an element is in the registry. *)
Lemma resolveElement_files reference st key :
  resolveKey reference = Some key ->
  In key (JsMap.keys (asyncCallsRequired (snd (resolveElement reference st)))).
Proof.
  unfold resolveKey. cbv zeta. rewrite resolveElement_cases. cbv zeta.
  destruct (JS.truthy (createIndexKeyResolve reference)); [|discriminate].
  intros [= <-].
  destruct (isCompleted _ st) eqn:Hc; simpl.
  - apply isCompleted_get in Hc. destruct Hc as (d & Hd & _).
    eapply JsMapFacts.get_in_keys; eauto.
  - apply JsMapFacts.keys_set_in. auto.
Qed.

Lemma memberOfElement_files valueSet codeData st key :
  memberOfKey valueSet codeData = Some key ->
  In key (JsMap.keys (asyncCallsRequired (snd (memberOfElement valueSet codeData st)))).
Proof.
  unfold memberOfKey. rewrite memberOfElement_cases.
  destruct (createIndexKeyMemberOf codeData (VStr valueSet)) as [k|err]; [|discriminate].
  cbv zeta. destruct (JS.truthy k); [|discriminate].
  intros [= <-].
  destruct (isCompleted _ st) eqn:Hc; simpl.
  - apply isCompleted_get in Hc. destruct Hc as (d & Hd & _).
    eapply JsMapFacts.get_in_keys; eauto.
  - apply JsMapFacts.keys_set_in. auto.
Qed.

(** When the record of its key is completed, a callback returns and writes
    the log only. *)
Lemma resolveElement_quiet reference st :
  (forall key, resolveKey reference = Some key -> isCompleted key st = true) ->
  exists v st', resolveElement reference st = (Normal v, st') /\ onlyLogged st st'.
Proof.
  unfold resolveKey. cbv zeta. intros H. rewrite resolveElement_cases. cbv zeta.
  destruct (JS.truthy (createIndexKeyResolve reference)).
  - rewrite (H _ eq_refl). eexists. eexists. split; [reflexivity|]. apply onlyLogged_log.
  - eexists. eexists. split; [reflexivity|]. apply onlyLogged_refl.
Qed.

Lemma memberOfElement_quiet valueSet codeData st k :
  createIndexKeyMemberOf codeData (VStr valueSet) = Normal k ->
  (forall key, memberOfKey valueSet codeData = Some key -> isCompleted key st = true) ->
  exists v st', memberOfElement valueSet codeData st = (Normal v, st') /\ onlyLogged st st'.
Proof.
  unfold memberOfKey. intros Hk H. rewrite memberOfElement_cases. rewrite Hk in *. cbv zeta.
  destruct (JS.truthy k).
  - rewrite (H _ eq_refl). eexists. eexists. split; [reflexivity|]. apply onlyLogged_log.
  - eexists. eexists. split; [reflexivity|]. apply onlyLogged_refl.
Qed.

Lemma firstThrow_none valueSet codeData rest :
  firstThrow valueSet (codeData :: rest) = None ->
  (exists k, createIndexKeyMemberOf codeData (VStr valueSet) = Normal k) /\
  firstThrow valueSet rest = None.
Proof.
  simpl. destruct (createIndexKeyMemberOf codeData (VStr valueSet)); [eauto | discriminate].
Qed.

(** A handler, when the records of all its elements' keys are completed. *)
Lemma site_quiet site :
  siteComputes site ->
  forall st,
    (forall key, In key (siteKeys site) -> isCompleted key st = true) ->
    match site with
    | ToAgeSite inputs =>
        exists output st', toAge world inputs st = (Normal output, st') /\ onlyLogged st st'
    | ResolveSite inputs =>
        exists output st', resolve inputs st = (Normal output, st') /\ onlyLogged st st'
    | MemberOfSite inputs valueSet =>
        exists output st', memberOf inputs valueSet st = (Normal output, st') /\
                           onlyLogged st st'
    end.
Proof.
  destruct site as [inputs|inputs|inputs valueSet]; simpl; intros Hcomp st Hdone.
  - destruct (mapM_toAgeElement world inputs st) as (st' & H & Hl).
    unfold toAge, bind, ret. rewrite H. eauto.
  - assert (H : exists output st',
               mapM resolveElement inputs st = (Normal output, st') /\ onlyLogged st st').
    { revert st Hdone. induction inputs as [|r rest IH]; intros st Hdone; simpl.
      - unfold ret. eexists. eexists. split; [reflexivity | apply onlyLogged_refl].
      - destruct (resolveElement_quiet r st) as (v & st1 & Hr & Hl1).
        { intros key Hk. apply Hdone. simpl. rewrite Hk. simpl. auto. }
        destruct (IH st1) as (out & st' & Hm & Hl).
        { intros key Hin. rewrite (onlyLogged_isCompleted _ _ key Hl1).
          apply Hdone. simpl. apply in_or_app. auto. }
        unfold bind. rewrite Hr, Hm. unfold ret. eexists. eexists.
        split; [reflexivity | eapply onlyLogged_trans; eauto]. }
    destruct H as (out & st' & H & Hl). unfold resolve, bind, ret. rewrite H. eauto.
  - assert (H : exists output st',
               mapM (memberOfElement valueSet) inputs st = (Normal output, st') /\
               onlyLogged st st').
    { revert st Hdone. induction inputs as [|c rest IH]; intros st Hdone; simpl.
      - unfold ret. eexists. eexists. split; [reflexivity | apply onlyLogged_refl].
      - destruct (firstThrow_none _ _ _ Hcomp) as [[k Hk] Hrest].
        destruct (memberOfElement_quiet valueSet c st k Hk) as (v & st1 & Hr & Hl1).
        { intros key Hkey. apply Hdone. simpl. rewrite Hkey. simpl. auto. }
        destruct (IH Hrest st1) as (out & st' & Hm & Hl).
        { intros key Hin. rewrite (onlyLogged_isCompleted _ _ key Hl1).
          apply Hdone. simpl. apply in_or_app. auto. }
        unfold bind. rewrite Hr, Hm. unfold ret. eexists. eexists.
        split; [reflexivity | eapply onlyLogged_trans; eauto]. }
    destruct H as (out & st' & H & Hl). unfold memberOf, bind, ret. rewrite H. eauto.
Qed.

(** A handler returns, and the keys of its elements are in the registry
    once it has. *)
Lemma site_files site :
  siteComputes site ->
  forall st,
    match site with
    | ToAgeSite inputs =>
        exists output st', toAge world inputs st = (Normal output, st') /\
          forall key, In key (siteKeys site) -> In key (JsMap.keys (asyncCallsRequired st'))
    | ResolveSite inputs =>
        exists output st', resolve inputs st = (Normal output, st') /\
          forall key, In key (siteKeys site) -> In key (JsMap.keys (asyncCallsRequired st'))
    | MemberOfSite inputs valueSet =>
        exists output st', memberOf inputs valueSet st = (Normal output, st') /\
          forall key, In key (siteKeys site) -> In key (JsMap.keys (asyncCallsRequired st'))
    end.
Proof.
  destruct site as [inputs|inputs|inputs valueSet]; simpl; intros Hcomp st.
  - destruct (mapM_toAgeElement world inputs st) as (st' & H & Hl).
    unfold toAge, bind, ret. rewrite H. eexists. eexists. split; [reflexivity|]. intros key [].
  - assert (H : exists output st',
               mapM resolveElement inputs st = (Normal output, st') /\
               forall key, In key (siteKeys (ResolveSite inputs)) ->
                           In key (JsMap.keys (asyncCallsRequired st'))).
    { revert st. induction inputs as [|r rest IH]; intros st; simpl.
      - unfold ret. eexists. eexists. split; [reflexivity | intros key []].
      - unfold bind.
        pose proof (resolveElement_files r st) as Hfile.
        pose proof (resolveElement_answer r st) as Hans.
        destruct (resolveElement r st) as [c st1]. simpl in Hfile, Hans. subst c.
        destruct (IH st1) as (out & st' & Hm & Hkeys).
        pose proof (mapM_step resolveElement rest resolveElement_step st1) as Hstep.
        rewrite Hm in Hstep. simpl in Hstep.
        rewrite Hm. unfold ret. eexists. eexists. split; [reflexivity|].
        intros key Hin. apply in_app_or in Hin. destruct Hin as [Hin|Hin]; [|auto].
        apply (ss_keys _ _ Hstep). apply Hfile.
        destruct (resolveKey r); simpl in Hin; [|contradiction].
        destruct Hin as [->|[]]. reflexivity. }
    destruct H as (out & st' & H & Hkeys). unfold resolve, bind, ret. rewrite H. eauto.
  - assert (H : exists output st',
               mapM (memberOfElement valueSet) inputs st = (Normal output, st') /\
               forall key, In key (siteKeys (MemberOfSite inputs valueSet)) ->
                           In key (JsMap.keys (asyncCallsRequired st'))).
    { revert st. induction inputs as [|c rest IH]; intros st; simpl.
      - unfold ret. eexists. eexists. split; [reflexivity | intros key []].
      - destruct (firstThrow_none _ _ _ Hcomp) as [[k Hk] Hrest].
        unfold bind.
        pose proof (memberOfElement_files valueSet c st) as Hfile.
        pose proof (memberOfElement_answer valueSet c st k Hk) as Hans.
        destruct (memberOfElement valueSet c st) as [r st1]. simpl in Hfile, Hans. subst r.
        destruct (IH Hrest st1) as (out & st' & Hm & Hkeys).
        pose proof (mapM_step (memberOfElement valueSet) rest
                      (memberOfElement_step valueSet) st1) as Hstep.
        rewrite Hm in Hstep. simpl in Hstep.
        rewrite Hm. unfold ret. eexists. eexists. split; [reflexivity|].
        intros key Hin. apply in_app_or in Hin. destruct Hin as [Hin|Hin]; [|auto].
        apply (ss_keys _ _ Hstep). apply Hfile.
        destruct (memberOfKey valueSet c); simpl in Hin; [|contradiction].
        destruct Hin as [->|[]]. reflexivity. }
    destruct H as (out & st' & H & Hkeys). unfold memberOf, bind, ret. rewrite H. eauto.
Qed.

(** A pass over independent call sites returns, and the keys of all their
    elements are in the registry once it has. *)
Lemma evaluate_files e sites :
  callSites e sites ->
  Forall siteComputes sites ->
  forall st,
    exists values st',
      evaluate world e st = (Normal values, st') /\
      forall key, In key (flat_map siteKeys sites) ->
                  In key (JsMap.keys (asyncCallsRequired st')).
Proof.
  induction 1 as [values|inputs k sites Hk IH|inputs k sites Hk IH|inputs valueSet k sites Hk IH];
    intros Hcomp st.
  - simpl. unfold ret. eexists. eexists. split; [reflexivity | intros key []].
  - inversion Hcomp as [|? ? Hc Hcs]; subst.
    destruct (site_files (ToAgeSite inputs) Hc st) as (out & st1 & H1 & Hk1).
    destruct (IH out Hcs st1) as (values & st' & H2 & Hk2).
    simpl. unfold bind. rewrite H1, H2. eexists. eexists. split; [reflexivity|].
    intros key Hin. simpl in Hin. auto.
  - inversion Hcomp as [|? ? Hc Hcs]; subst.
    destruct (site_files (ResolveSite inputs) Hc st) as (out & st1 & H1 & Hk1).
    destruct (IH out Hcs st1) as (values & st' & H2 & Hk2).
    pose proof (evaluate_step world (k out) st1) as Hstep. rewrite H2 in Hstep. simpl in Hstep.
    simpl. unfold bind. rewrite H1, H2. eexists. eexists. split; [reflexivity|].
    intros key Hin. simpl in Hin. apply in_app_or in Hin. destruct Hin as [Hin|Hin]; [|auto].
    apply (ss_keys _ _ Hstep). auto.
  - inversion Hcomp as [|? ? Hc Hcs]; subst.
    destruct (site_files (MemberOfSite inputs valueSet) Hc st) as (out & st1 & H1 & Hk1).
    destruct (IH out Hcs st1) as (values & st' & H2 & Hk2).
    pose proof (evaluate_step world (k out) st1) as Hstep. rewrite H2 in Hstep. simpl in Hstep.
    simpl. unfold bind. rewrite H1, H2. eexists. eexists. split; [reflexivity|].
    intros key Hin. simpl in Hin. apply in_app_or in Hin. destruct Hin as [Hin|Hin]; [|auto].
    apply (ss_keys _ _ Hstep). auto.
Qed.

(** A pass over independent call sites whose records are all completed
    returns and writes the log only. *)
Lemma evaluate_quiet e sites :
  callSites e sites ->
  Forall siteComputes sites ->
  forall st,
    (forall key, In key (flat_map siteKeys sites) -> isCompleted key st = true) ->
    exists values st', evaluate world e st = (Normal values, st') /\ onlyLogged st st'.
Proof.
  induction 1 as [values|inputs k sites Hk IH|inputs k sites Hk IH|inputs valueSet k sites Hk IH];
    intros Hcomp st Hdone.
  - simpl. unfold ret. eexists. eexists. split; [reflexivity | apply onlyLogged_refl].
  - inversion Hcomp as [|? ? Hc Hcs]; subst.
    destruct (site_quiet (ToAgeSite inputs) Hc st) as (out & st1 & H1 & Hl1);
      [intros key []|].
    destruct (IH out Hcs st1) as (values & st' & H2 & Hl2).
    { intros key Hin. rewrite (onlyLogged_isCompleted _ _ key Hl1). apply Hdone. exact Hin. }
    simpl. unfold bind. rewrite H1, H2. eexists. eexists.
    split; [reflexivity | eapply onlyLogged_trans; eauto].
  - inversion Hcomp as [|? ? Hc Hcs]; subst.
    destruct (site_quiet (ResolveSite inputs) Hc st) as (out & st1 & H1 & Hl1).
    { intros key Hin. apply Hdone. simpl. apply in_or_app. auto. }
    destruct (IH out Hcs st1) as (values & st' & H2 & Hl2).
    { intros key Hin. rewrite (onlyLogged_isCompleted _ _ key Hl1). apply Hdone.
      simpl. apply in_or_app. auto. }
    simpl. unfold bind. rewrite H1, H2. eexists. eexists.
    split; [reflexivity | eapply onlyLogged_trans; eauto].
  - inversion Hcomp as [|? ? Hc Hcs]; subst.
    destruct (site_quiet (MemberOfSite inputs valueSet) Hc st) as (out & st1 & H1 & Hl1).
    { intros key Hin. apply Hdone. simpl. apply in_or_app. auto. }
    destruct (IH out Hcs st1) as (values & st' & H2 & Hl2).
    { intros key Hin. rewrite (onlyLogged_isCompleted _ _ key Hl1). apply Hdone.
      simpl. apply in_or_app. auto. }
    simpl. unfold bind. rewrite H1, H2. eexists. eexists.
    split; [reflexivity | eapply onlyLogged_trans; eauto].
Qed.

(** Where the servers always answer, a resolve phase does not fail and
    leaves every record completed. *)
Lemma resolvePhase_alwaysAnswers st :
  alwaysAnswers world ->
  registryOk st ->
  exists st',
    resolvePhase world st = (st', None) /\
    (forall key d, JsMap.get key (asyncCallsRequired st') = Some d ->
                   evaluationCompleted d = true) /\
    ((0 <? JsMap.size (asyncCallsRequired st))%nat = true ->
     requiresAsyncProcessing st' = false).
Proof.
  intros Hans [Hnd Hok]. unfold resolvePhase.
  destruct (0 <? JsMap.size (asyncCallsRequired st))%nat eqn:Hsize.
  2: { exists st. split_ands; [reflexivity | | discriminate].
       apply Nat.ltb_ge in Hsize. unfold JsMap.size in Hsize.
       destruct (asyncCallsRequired st); [discriminate | simpl in Hsize; lia]. }
  destruct (startPending world (JsMap.keys (asyncCallsRequired st)) st)
    as [started st1] eqn:Hs.
  destruct (startPending_spec world _ _ _ _ Hs) as (Hreg & _ & _ & _ & _ & Hm & _).
  fold (pendingKeys st) in Hm.
  assert (Hno : NoDup (settleOrder started)).
  { apply NoDup_settleOrder. rewrite Hm. now apply pendingKeys_nodup. }
  destruct (promiseAll_succeeds world (settleOrder started) st1 Hno) as [st2 Hp].
  { intros k d _ Hd. rewrite Hreg in Hd. exact (proj1 (Hans k d (Hok k d Hd))). }
  rewrite Hp. exists (exec (setRequiresAsyncProcessing false) st2).
  split_ands; [reflexivity | | reflexivity].
  intros key d Hd. simpl in Hd.
  destruct (isPending key st) eqn:Hpend.
  - assert (Hin : In key (settleOrder started)).
    { eapply Permutation_in; [symmetry; apply settleOrder_perm|].
      rewrite Hm. now apply pendingKeys_in. }
    unfold isPending in Hpend.
    destruct (JsMap.get key (asyncCallsRequired st)) as [d0|] eqn:Hd0; [|discriminate].
    assert (Hd1 : JsMap.get key (asyncCallsRequired st1) = Some d0) by now rewrite Hreg.
    destruct (promiseAll_fulfilled world _ _ _ Hno Hp key d0 Hin Hd1) as [Hget _].
    rewrite Hget in Hd. injection Hd as <-.
    exact (proj2 (Hans key d0 (Hok key d0 Hd0))).
  - assert (Hsame : JsMap.get key (asyncCallsRequired st2) =
                    JsMap.get key (asyncCallsRequired st)).
    { rewrite <- Hreg. eapply promiseAll_other; eauto.
      intros Hin. eapply Permutation_in in Hin; [|apply settleOrder_perm].
      rewrite Hm in Hin. apply pendingKeys_in in Hin. congruence. }
    rewrite Hsame in Hd. unfold isPending in Hpend. rewrite Hd in Hpend.
    now apply negb_false_iff in Hpend.
Qed.

(** X26: an expression whose call sites do not depend on one another, on
    servers that answer every request: the evaluation is fulfilled after at
    most two passes, with nothing outstanding and every record of the
    registry completed.  The first pass files the fingerprints of all call
    sites, one resolve phase resolves them all, and the second pass finds
    every answer. *)
Theorem X26_independent_call_sites_take_two_passes :
  forall (e : Eval) (sites : list CallSite),
    callSites e sites ->
    Forall siteComputes sites ->
    alwaysAnswers world ->
    exists values st,
      evaluateFhirpathAsync world e = Some (Fulfilled values st) /\
      (iterations st <= 2)%nat /\
      requiresAsyncProcessing st = false /\
      (forall key d, JsMap.get key (asyncCallsRequired st) = Some d ->
                     evaluationCompleted d = true).
Proof.
  intros e sites Hsites Hcomp Hans.
  unfold evaluateFhirpathAsync, maxIterations.
  rewrite doWhile_unfold, first_iteration.
  set (st1 := exec (logMessage "performing iteration: " (VNum 1))
                   (incrementIterations initialState)).
  destruct (evaluate_files e sites Hsites Hcomp st1) as (values1 & s1 & Hev1 & Hkeys1).
  pose proof (evaluate_step world e st1) as Hstep1. rewrite Hev1 in Hstep1. simpl in Hstep1.
  unfold evaluatePass. rewrite Hev1.
  cbn [requiresAsyncProcessing iterations withResults].
  rewrite (ss_iterations _ _ Hstep1). cbn [iterations st1 exec logMessage snd incrementIterations initialState].
  destruct (requiresAsyncProcessing s1) eqn:Hflag1.
  - (* the first pass filed a fingerprint *)
    cbn [andb Nat.ltb Nat.leb].
    rewrite doWhile_unfold. unfold iteration.
    set (s1' := incrementIterations (withResults values1 s1)).
    assert (Hok1 : registryOk s1').
    { assert (H : registryOk s1).
      { eapply registryOk_syncStep; [exact Hstep1|].
        split; [constructor | intros key d; discriminate]. }
      exact H. }
    assert (Hsize : (0 <? JsMap.size (asyncCallsRequired s1'))%nat = true).
    { destruct (0 <? JsMap.size (asyncCallsRequired s1'))%nat eqn:E; [reflexivity|].
      exfalso.
      assert (Hnone : forall key, In key (flat_map siteKeys sites) ->
                                  isCompleted key st1 = true).
      { intros key Hin. apply Hkeys1 in Hin.
        apply Nat.ltb_ge in E. unfold JsMap.size in E. simpl in E.
        destruct (asyncCallsRequired s1); [contradiction | simpl in E; lia]. }
      destruct (evaluate_quiet e sites Hsites Hcomp st1 Hnone) as (v & s & Hev & Hl).
      rewrite Hev1 in Hev. injection Hev as _ <-.
      destruct Hl as (_ & _ & Hf & _). rewrite Hflag1 in Hf. discriminate. }
    destruct (resolvePhase_alwaysAnswers s1' Hans Hok1) as (s2 & Hr & Hdone & Hf2).
    rewrite Hr. specialize (Hf2 Hsize).
    destruct (resolvePhase_frame world _ _ _ Hr) as (_ & Hi2 & Hk2 & _).
    set (s2' := exec (logMessage "performing iteration: " (VNum (Z.of_nat (iterations s2)))) s2).
    assert (Hcompleted : forall key, In key (flat_map siteKeys sites) ->
                                     isCompleted key s2' = true).
    { intros key Hin. apply Hkeys1 in Hin.
      assert (Hin2 : In key (JsMap.keys (asyncCallsRequired s2))) by (rewrite Hk2; exact Hin).
      destruct (JsMapFacts.in_keys_get key _ Hin2) as [d Hd].
      apply isCompleted_get. exists d. split; [exact Hd | eauto]. }
    destruct (evaluate_quiet e sites Hsites Hcomp s2' Hcompleted)
      as (values2 & s3 & Hev2 & Hl2).
    unfold evaluatePass. rewrite Hev2.
    destruct Hl2 as (_ & Hreg3 & Hf3 & Hi3 & _).
    cbn [requiresAsyncProcessing iterations withResults].
    rewrite Hf3. cbn [requiresAsyncProcessing s2' exec logMessage snd]. rewrite Hf2.
    cbn [andb].
    destruct (finish_state (withResults values2 s3)) as (F1 & F2 & _ & F4 & _ & F6).
    rewrite F6. eexists. eexists. split; [reflexivity|].
    rewrite F1, F2, F4. cbn [iterations asyncCallsRequired requiresAsyncProcessing withResults].
    rewrite Hi3, Hreg3, Hf3. cbn [iterations asyncCallsRequired requiresAsyncProcessing
                                  s2' exec logMessage snd].
    rewrite Hi2. split_ands; [simpl; rewrite (ss_iterations _ _ Hstep1); simpl; lia | exact Hf2 | exact Hdone].
  - (* the first pass met no fingerprint *)
    cbn [andb].
    destruct (finish_state (withResults values1 s1)) as (F1 & F2 & _ & F4 & _ & F6).
    rewrite F6. eexists. eexists. split; [reflexivity|].
    rewrite F1, F2, F4. cbn [iterations asyncCallsRequired requiresAsyncProcessing withResults].
    rewrite (ss_iterations _ _ Hstep1). split_ands; [simpl; lia | exact Hflag1 |].
    intros key d Hd.
    destruct (ss_records _ _ Hstep1 _ _ Hd) as [H|(_ & _ & _ & H)]; [discriminate|].
    congruence.
Qed.

End Independent.

(** A server that answers every question with a [Parameters] resource
    holding a [result] answers every request the handlers can file. *)
Lemma quickWorld_alwaysAnswers : alwaysAnswers MoreSamples.quickWorld.
Proof.
  intros key d Hok. unfold callAsyncFunction.
  destruct (asyncFunction d) eqn:Hf.
  - unfold recordOk in Hok. rewrite Hf in Hok. cbv zeta in Hok.
    apply andb_prop in Hok. destruct Hok as [Ht _].
    unfold resolveAsync. cbv zeta. rewrite Ht. simpl. auto.
  - destruct (memberOfRequest_filed key d Hok Hf) as [request Hr].
    unfold memberOfAsync, memberOfAsyncTry. rewrite Hr. simpl. auto.
Qed.

(** A reference, two codings and a birth date, on a server that answers
    every question. *)
Lemma X26_independent_call_sites_take_two_passes_witness :
  exists values st,
    evaluateFhirpathAsync MoreSamples.quickWorld MoreSamples.referenceAndCodings =
      Some (Fulfilled values st) /\
    (iterations st <= 2)%nat /\
    requiresAsyncProcessing st = false /\
    (forall key d, JsMap.get key (asyncCallsRequired st) = Some d ->
                   evaluationCompleted d = true).
Proof.
  apply (X26_independent_call_sites_take_two_passes MoreSamples.quickWorld
           MoreSamples.referenceAndCodings MoreSamples.referenceAndCodingsSites).
  - repeat constructor.
  - repeat constructor.
  - exact quickWorld_alwaysAnswers.
Defined.

(* ===================================================================== *)
(** * The revisions whose registry holds the answers *)
(* ===================================================================== *)

Module AnswerRegistryFacts.

Import AnswerRegistry.

Section Revision.

Variable indexKey : Value -> string -> Completion Value.
Variable answer : string -> bool.

(** While no answer is stored, the handler returns [undefined] for every
    element and files the key of each element that has one. *)
Lemma memberOf_outstanding valueset inputs :
  forall st,
    Forall (keyComputes indexKey valueset) inputs ->
    allOutstanding (Prototype.memberOfCallsRequired st) ->
    exists st',
      memberOf indexKey inputs valueset st = (Normal (map (fun _ => VUndefined) inputs), st') /\
      allOutstanding (Prototype.memberOfCallsRequired st') /\
      (forall key, JsMap.get key (Prototype.memberOfCallsRequired st) <> None ->
                   JsMap.get key (Prototype.memberOfCallsRequired st') <> None) /\
      (forall codeData key,
         In codeData inputs -> indexKey codeData valueset = Normal key -> JS.truthy key = true ->
         JsMap.get (JS.toString key) (Prototype.memberOfCallsRequired st') = Some VUndefined) /\
      Prototype.requiresAsyncProcessing st' =
        (existsb (keyed indexKey valueset) inputs || Prototype.requiresAsyncProcessing st).
Proof.
  induction inputs as [|codeData rest IH]; intros st Hall Hout; simpl.
  - exists st. split_ands; auto. intros codeData key [].
  - inversion Hall as [|? ? [key Hkey] Hall']; subst.
    unfold memberOfElement, keyed. rewrite Hkey.
    destruct (JS.truthy key) eqn:Ht.
    + set (st1 := {| Prototype.memberOfCallsRequired :=
                       JsMap.set (JS.toString key) VUndefined (Prototype.memberOfCallsRequired st);
                     Prototype.requiresAsyncProcessing := true |}).
      assert (Hstep : match JsMap.get (JS.toString key) (Prototype.memberOfCallsRequired st) with
                      | Some VUndefined | None => (Normal VUndefined, st1)
                      | Some cached => (Normal cached, st)
                      end = (Normal VUndefined, st1)).
      { destruct (JsMap.get (JS.toString key) (Prototype.memberOfCallsRequired st)) as [v|] eqn:Hg;
          [|reflexivity].
        rewrite (Hout _ _ Hg). reflexivity. }
      fold st1. rewrite Hstep.
      assert (Hout1 : allOutstanding (Prototype.memberOfCallsRequired st1)).
      { intros k v. simpl. rewrite JsMapFacts.get_set.
        destruct (JS.toString key =? k); [congruence | apply Hout]. }
      destruct (IH st1 Hall' Hout1) as (st' & -> & Hout' & Hkeep & Hfiled & Hflag).
      exists st'. split_ands; auto.
      * intros k Hk. apply Hkeep. simpl. rewrite JsMapFacts.get_set.
        destruct (JS.toString key =? k); [discriminate | exact Hk].
      * intros c k [<-|Hin] Hk Htk; [|eauto].
        rewrite Hkey in Hk. injection Hk as <-.
        assert (Hne : JsMap.get (JS.toString key) (Prototype.memberOfCallsRequired st') <> None).
        { apply Hkeep. simpl. rewrite JsMapFacts.get_set_eq. discriminate. }
        destruct (JsMap.get (JS.toString key) (Prototype.memberOfCallsRequired st')) as [v|] eqn:Hg;
          [|contradiction].
        now rewrite (Hout' _ _ Hg).
      * rewrite Hflag. simpl. now rewrite orb_true_r.
    + destruct (IH st Hall' Hout) as (st' & -> & Hout' & Hkeep & Hfiled & Hflag).
      exists st'. split_ands; auto.
      intros c k [<-|Hin] Hk Htk; [|eauto].
      rewrite Hkey in Hk. injection Hk as <-. congruence.
Qed.

(** The resolve loop stores the answer of every key it is given whose
    answer is outstanding, and touches no other. *)
Lemma AnswerRegistry_resolveKeys_get keys :
  forall m key,
    JsMap.get key (resolveKeys answer keys m) =
      match JsMap.get key m with
      | Some v =>
          if JS.isDefined v then Some v
          else if existsb (String.eqb key) keys then Some (VBool (answer key)) else Some v
      | None => if existsb (String.eqb key) keys then Some (VBool (answer key)) else None
      end.
Proof.
  induction keys as [|k rest IH]; intros m key; simpl.
  - destruct (JsMap.get key m) as [v|]; auto. destruct (JS.isDefined v); auto.
  - assert (Hset : JsMap.get key (resolveKeys answer rest (JsMap.set k (VBool (answer k)) m)) =
                   if k =? key then Some (VBool (answer k))
                   else match JsMap.get key m with
                        | Some v =>
                            if JS.isDefined v then Some v
                            else if existsb (String.eqb key) rest
                                 then Some (VBool (answer key)) else Some v
                        | None => if existsb (String.eqb key) rest
                                  then Some (VBool (answer key)) else None
                        end).
    { rewrite IH, JsMapFacts.get_set. destruct (k =? key); reflexivity. }
    rewrite (String.eqb_sym key k).
    destruct (JsMap.get k m) as [vk|] eqn:Hk.
    + destruct (k =? key) eqn:E.
      * apply String.eqb_eq in E. subst k. rewrite Hk in *. simpl.
        destruct vk; simpl in *; rewrite ?Hset, ?IH, ?Hk; simpl; auto.
      * simpl. destruct vk; rewrite ?Hset, ?IH; auto.
    + destruct (k =? key) eqn:E.
      * apply String.eqb_eq in E. subst k. rewrite Hk in *. simpl. now rewrite Hset.
      * simpl. now rewrite Hset.
Qed.

(** Once the answers of all its elements are stored, the handler returns
    them and changes nothing. *)
Lemma memberOf_answered valueset inputs st :
  Forall (keyComputes indexKey valueset) inputs ->
  (forall codeData key,
     In codeData inputs -> indexKey codeData valueset = Normal key -> JS.truthy key = true ->
     JsMap.get (JS.toString key) (Prototype.memberOfCallsRequired st) =
       Some (VBool (answer (JS.toString key)))) ->
  memberOf indexKey inputs valueset st = (Normal (map (finalAnswer indexKey answer valueset) inputs), st).
Proof.
  induction inputs as [|codeData rest IH]; intros Hall Hans; simpl; [reflexivity|].
  inversion Hall as [|? ? [key Hkey] Hall']; subst.
  unfold memberOfElement, finalAnswer at 1. rewrite Hkey.
  destruct (JS.truthy key) eqn:Ht.
  - rewrite (Hans codeData key (or_introl eq_refl) Hkey Ht).
    rewrite IH; auto. intros c k Hin. apply Hans. now right.
  - rewrite IH; auto. intros c k Hin. apply Hans. now right.
Qed.

Lemma existsb_keyed_false valueset inputs :
  existsb (keyed indexKey valueset) inputs = false ->
  map (finalAnswer indexKey answer valueset) inputs = map (fun _ => VUndefined) inputs.
Proof.
  induction inputs as [|c rest IH]; simpl; [reflexivity|].
  intros H. apply orb_false_iff in H. destruct H as [Hc Hrest].
  rewrite IH by exact Hrest. f_equal.
  unfold keyed in Hc. unfold finalAnswer.
  destruct (indexKey c valueset); [now rewrite Hc | reflexivity].
Qed.

Lemma AnswerRegistry_doWhile_unfold fuel e v :
  doWhile indexKey answer (S fuel) e v =
  match iteration indexKey answer e v with
  | (v', Some reason) => Some (Thrown reason, v')
  | (v', None) =>
      if Prototype.requiresAsyncProcessing (shared v') && (iterations v' <? maxIterations)%nat
      then doWhile indexKey answer fuel e v'
      else Some (Normal (results v'), v')
  end.
Proof. reflexivity. Qed.

(** One call site of [memberOf]: the first pass files the keys and returns
    no answer, the resolve loop stores the answers, and the second pass
    returns them. *)
Lemma doWhile_one_call_site valueset inputs :
  Forall (keyComputes indexKey valueset) inputs ->
  exists v,
    doWhile indexKey answer maxIterations
      (CallMemberOf inputs valueset (fun output => Return output)) initialVars =
      Some (Normal (map (finalAnswer indexKey answer valueset) inputs), v) /\
    iterations v = (if existsb (keyed indexKey valueset) inputs then 2 else 1)%nat /\
    Prototype.requiresAsyncProcessing (shared v) = false.
Proof.
  intros Hall.
  set (st0 := {| Prototype.memberOfCallsRequired := [];
                 Prototype.requiresAsyncProcessing := false |}).
  assert (Hout0 : allOutstanding (Prototype.memberOfCallsRequired st0))
    by (intros key v; discriminate).
  destruct (memberOf_outstanding valueset inputs st0 Hall Hout0)
    as (st1 & H1 & Hout1 & _ & Hfiled & Hflag).
  unfold maxIterations. rewrite AnswerRegistry_doWhile_unfold. unfold iteration at 1.
  change (resolvePhase answer (shared initialVars)) with st0.
  cbn [evaluate]. rewrite H1. cbn [shared iterations results initialVars].
  rewrite Hflag. simpl (_ || false)%bool. rewrite orb_false_r.
  destruct (existsb (keyed indexKey valueset) inputs) eqn:Hk.
  - cbn [andb Nat.ltb Nat.leb]. rewrite AnswerRegistry_doWhile_unfold.
    unfold iteration at 1. cbn [shared iterations results].
    assert (Hsize : (0 <? JsMap.size (Prototype.memberOfCallsRequired st1))%nat = true).
    { apply existsb_exists in Hk. destruct Hk as (c & Hin & Hc).
      unfold keyed in Hc. destruct (indexKey c valueset) as [key|] eqn:Hkey; [|discriminate].
      pose proof (Hfiled c key Hin Hkey Hc) as Hg.
      apply Nat.ltb_lt. unfold JsMap.size.
      destruct (Prototype.memberOfCallsRequired st1); [discriminate | simpl; lia]. }
    unfold resolvePhase. cbv zeta. rewrite Hsize. cbn [evaluate].
    rewrite memberOf_answered; auto.
    + cbn. eexists. split_ands; reflexivity.
    + intros c key Hin Hkey Ht. cbn [Prototype.memberOfCallsRequired].
      rewrite AnswerRegistry_resolveKeys_get, (Hfiled c key Hin Hkey Ht). cbn [JS.isDefined].
      replace (existsb (String.eqb (JS.toString key))
                 (JsMap.keys (Prototype.memberOfCallsRequired st1))) with true; [reflexivity|].
      symmetry. apply existsb_exists. exists (JS.toString key). split.
      * eapply JsMapFacts.get_in_keys. exact (Hfiled c key Hin Hkey Ht).
      * apply String.eqb_refl.
  - cbn [andb]. rewrite (existsb_keyed_false valueset inputs Hk).
    eexists. split_ands; try reflexivity. simpl. rewrite Hflag. reflexivity.
Qed.

End Revision.


(** The handler of the first prototype is the handler above for its key
    function: the key always exists, so the guard never skips. *)
Lemma Parsing_memberOfElement valueset i st :
  memberOfElement Parsing.indexKey valueset i st = Prototype.memberOfElement valueset i st.
Proof.
  unfold memberOfElement, Prototype.memberOfElement, Parsing.indexKey.
  destruct (Prototype.createIndexKey i) as [k|err]; [|reflexivity].
  replace (JS.truthy (VStr (k ++ " - " ++ valueset))) with true; [reflexivity|].
  symmetry. simpl. apply negb_true_iff. apply string_append_nonempty. discriminate.
Qed.

Lemma Parsing_finalAnswer valueset inputs :
  Forall (fun i => exists k, Prototype.createIndexKey i = Normal k) inputs ->
  Forall (keyComputes Parsing.indexKey valueset) inputs /\
  map (finalAnswer Parsing.indexKey Parsing.answer valueset) inputs =
    map (fun _ => VBool true) inputs /\
  existsb (keyed Parsing.indexKey valueset) inputs = negb (Nat.eqb (List.length inputs) 0).
Proof.
  induction 1 as [|i rest [k Hk] Hrest (IH1 & IH2 & IH3)]; simpl.
  - split_ands; auto.
  - assert (Ht : JS.truthy (VStr (k ++ " - " ++ valueset)) = true).
    { simpl. apply negb_true_iff. apply string_append_nonempty. discriminate. }
    split_ands.
    + constructor; auto. unfold keyComputes, Parsing.indexKey. rewrite Hk. eauto.
    + rewrite IH2. f_equal. unfold finalAnswer, Parsing.indexKey. rewrite Hk, Ht. reflexivity.
    + unfold keyed at 1, Parsing.indexKey. rewrite Hk, Ht. reflexivity.
Qed.

(** X18: the first prototype answers [true] for every element handed to
    [memberOf], whatever the code and the value set, also for an element
    with neither a code nor codings: the first pass returns no answer, the
    resolve loop stores [true] under every key, and the second pass returns
    [true] for each element. *)
Theorem X18_first_prototype_takes_every_code_for_a_member :
  forall (JSONparse : string -> Completion Value) (engine : Value -> string -> Eval)
         (resourceJson expression : string) (fhirData : Value)
         (inputs : list Value) (valueset : string),
    resourceJson <> "" ->
    JSONparse resourceJson = Normal fhirData ->
    engine fhirData expression = CallMemberOf inputs valueset (fun output => Return output) ->
    inputs <> [] ->
    Forall (fun i => exists k, Prototype.createIndexKey i = Normal k) inputs ->
    exists v,
      Parsing.evaluateFhirpathAsync JSONparse engine resourceJson expression =
        Some (Normal (map (fun _ => VBool true) inputs), v) /\
      iterations v = 2%nat.
Proof.
  intros JSONparse engine resourceJson expression fhirData inputs valueset
         Hne Hparse Hrun Hin Hkeys.
  destruct (Parsing_finalAnswer valueset inputs Hkeys) as (Hall & Hans & Hkeyed).
  destruct (doWhile_one_call_site Parsing.indexKey Parsing.answer
              valueset inputs Hall) as (v & Hv & Hi & _).
  exists v. unfold Parsing.evaluateFhirpathAsync. cbv zeta.
  replace (resourceJson =? "") with false by (symmetry; now apply String.eqb_neq).
  cbn [negb]. rewrite Hparse, Hrun, Hv, Hans. split; [reflexivity|].
  rewrite Hi, Hkeyed. destruct inputs; [contradiction | reflexivity].
Qed.

(** A fingerprint of [createIndexKeyMemberOf] is [undefined] or a string
    that is not empty. *)
Lemma createIndexKeyMemberOf_key value valueset k :
  createIndexKeyMemberOf value valueset = Normal k ->
  k = VUndefined \/ exists s, k = VStr s /\ JS.truthy k = true.
Proof.
  assert (Hne : forall a b : string, JS.truthy (VStr (a ++ " - " ++ b)) = true).
  { intros a b. simpl. apply negb_true_iff. apply string_append_nonempty. discriminate. }
  assert (Hne' : forall a b c : string, JS.truthy (VStr (a ++ "|" ++ b ++ " - " ++ c)) = true).
  { intros a b c. simpl. apply negb_true_iff. apply string_append_nonempty. discriminate. }
  unfold createIndexKeyMemberOf.
  destruct value as [| |b|n|s|xs|fields]; simpl; try discriminate;
    try (intros [= <-]; auto; fail).
  - intros [= <-]. right. eexists. split; [reflexivity | apply Hne].
  - destruct (JS.truthy (JS.assoc "code" fields)).
    + intros [= <-]. right. eexists. split; [reflexivity | apply Hne'].
    + destruct (JS.truthy (JS.assoc "coding" fields)); [|intros [= <-]; auto].
      destruct (JS.assoc "coding" fields); try discriminate.
      destruct (codingKeys xs); [|discriminate].
      intros [= <-]. right. eexists. split; [reflexivity | apply Hne].
Qed.

(** X19: the revision that joins the codings answers by the key alone:
    for one call site of [memberOf] whose elements all have a fingerprint
    that can be computed, it returns, in the second pass, [true] for the
    element whose key is that of the code [M] of the marital status system
    in the vital signs value set, [false] for every other key, and
    [undefined] for an element without a key. *)
Theorem X19_keyed_revision_answers_by_the_key :
  forall (inputs : list Value) (valueset : string),
    Forall (keyComputes Logged.indexKey valueset) inputs ->
    (exists v,
       Logged.evaluateFhirpathAsync (CallMemberOf inputs valueset (fun output => Return output)) =
         Some (Normal (map (finalAnswer Logged.indexKey Logged.answer valueset) inputs), v) /\
       iterations v = (if existsb (keyed Logged.indexKey valueset) inputs then 2 else 1)%nat) /\
    (forall codeData key,
       createIndexKeyMemberOf codeData (VStr valueset) = Normal (VStr key) ->
       finalAnswer Logged.indexKey Logged.answer valueset codeData =
         VBool (key =? marriedInVitalSigns)) /\
    (forall codeData,
       createIndexKeyMemberOf codeData (VStr valueset) = Normal VUndefined ->
       finalAnswer Logged.indexKey Logged.answer valueset codeData = VUndefined).
Proof.
  intros inputs valueset Hall. split_ands.
  - destruct (doWhile_one_call_site Logged.indexKey Logged.answer
                valueset inputs Hall) as (v & Hv & Hi & _).
    exists v. split; [exact Hv | exact Hi].
  - intros codeData key Hk. unfold finalAnswer, Logged.indexKey. rewrite Hk.
    destruct (createIndexKeyMemberOf_key _ _ _ Hk) as [Hu | (s & _ & Ht)]; [discriminate|].
    rewrite Ht. reflexivity.
  - intros codeData Hk. unfold finalAnswer, Logged.indexKey. rewrite Hk. reflexivity.
Qed.

(** The page's default resource and expression. *)
Lemma X18_first_prototype_takes_every_code_for_a_member_witness :
  exists v,
    Parsing.evaluateFhirpathAsync MoreSamples.parseOne MoreSamples.memberOfMaritalStatus
      "{...}" "maritalStatus.memberOf(vs)" =
      Some (Normal [VBool true], v) /\
    iterations v = 2%nat.
Proof.
  assert (Hne : "{...}" <> "") by discriminate.
  assert (Hin : [MoreSamples.maritalStatus] <> []) by discriminate.
  assert (Hkeys : Forall (fun i => exists k, Prototype.createIndexKey i = Normal k)
                         [MoreSamples.maritalStatus]).
  { constructor; [eexists; reflexivity | constructor]. }
  exact (X18_first_prototype_takes_every_code_for_a_member
           MoreSamples.parseOne MoreSamples.memberOfMaritalStatus
           "{...}" "maritalStatus.memberOf(vs)"
           (VObj [("maritalStatus", MoreSamples.maritalStatus)])
           [MoreSamples.maritalStatus] MoreSamples.vitalSigns
           Hne eq_refl eq_refl Hin Hkeys).
Defined.

(** The two codings of the default resource, checked one by one. *)
Lemma X19_keyed_revision_answers_by_the_key_witness :
  exists v,
    Logged.evaluateFhirpathAsync
      (CallMemberOf [MoreSamples.married; MoreSamples.widowed] MoreSamples.vitalSigns
         (fun output => Return output)) =
      Some (Normal [VBool true; VBool false], v) /\
    iterations v = 2%nat.
Proof.
  assert (Hall : Forall (keyComputes Logged.indexKey MoreSamples.vitalSigns)
                        [MoreSamples.married; MoreSamples.widowed]).
  { repeat constructor; eexists; reflexivity. }
  exact (proj1 (X19_keyed_revision_answers_by_the_key
                  [MoreSamples.married; MoreSamples.widowed] MoreSamples.vitalSigns Hall)).
Defined.

Lemma codingKeys_join c ks rest k :
  codingKey c = Normal k -> codingKeys rest = Normal ks ->
  codingKeys (c :: rest) = Normal (k :: ks).
Proof. intros Hc Hr. simpl. now rewrite Hc, Hr. Qed.

(** X20: a concept whose first coding is the code [M] of the marital status
    system and that holds further codings, checked against the vital signs
    value set.  The revision that takes the first coding files it under the
    key of that coding and answers [true]; the revision that joins the
    codings files it under a key that names them all and answers
    [false]. *)
Theorem X20_first_coding_against_all_codings :
  forall (first second cc : Value) (others : list Value) (ks : list string),
    isCoding MoreSamples.maritalStatusSystem "M" first ->
    codingKeys (second :: others) = Normal ks ->
    isCodeableConcept (first :: second :: others) cc ->
    let e := CallMemberOf [cc] MoreSamples.vitalSigns (fun output => Return output) in
    (exists v, FirstCoding.evaluateFhirpathAsync e = Some (Normal [VBool true], v)) /\
    (exists v, Logged.evaluateFhirpathAsync e = Some (Normal [VBool false], v)).
Proof.
  intros first second cc others ks (ff & -> & Hs & Hc & _) Hks (fcc & -> & Hcode & Hcoding) e.
  split.
  - assert (Hkey : FirstCoding.createIndexKey (VObj fcc) MoreSamples.vitalSigns =
                   Normal (VStr marriedInVitalSigns)).
    { unfold FirstCoding.createIndexKey. simpl. rewrite Hcode, Hcoding. simpl.
      rewrite Hs, Hc. reflexivity. }
    destruct (doWhile_one_call_site FirstCoding.createIndexKey
                FirstCoding.answer MoreSamples.vitalSigns [VObj fcc]) as (v & Hv & _).
    { constructor; [|constructor]. unfold keyComputes. eauto. }
    exists v. unfold FirstCoding.evaluateFhirpathAsync, e. rewrite Hv.
    simpl. unfold finalAnswer. rewrite Hkey. reflexivity.
  - assert (Hk1 : codingKey (VObj ff) = Normal (MoreSamples.maritalStatusSystem ++ "|M")).
    { unfold codingKey. simpl. rewrite Hs, Hc. reflexivity. }
    destruct ks as [|k2 ks].
    { simpl in Hks. destruct (codingKey second); [|discriminate].
      destruct (codingKeys others); discriminate. }
    assert (Hkey : Logged.indexKey (VObj fcc) MoreSamples.vitalSigns =
                   Normal (VStr (JS.join "," ((MoreSamples.maritalStatusSystem ++ "|M") :: k2 :: ks)
                                 ++ " - " ++ MoreSamples.vitalSigns))).
    { unfold Logged.indexKey, createIndexKeyMemberOf. simpl JS.getProp. cbv iota.
      rewrite Hcode. simpl JS.truthy. cbv iota. unfold JS.prop. rewrite Hcoding.
      simpl JS.truthy. cbv iota.
      rewrite (codingKeys_join (VObj ff) (k2 :: ks) (second :: others) _ Hk1 Hks).
      reflexivity. }
    destruct (doWhile_one_call_site Logged.indexKey
                Logged.answer MoreSamples.vitalSigns [VObj fcc]) as (v & Hv & _).
    { constructor; [|constructor]. unfold keyComputes. eauto. }
    exists v. unfold Logged.evaluateFhirpathAsync, e. rewrite Hv.
    simpl map. unfold finalAnswer. rewrite Hkey.
    replace (JS.truthy _) with true by reflexivity.
    reflexivity.
Qed.

(** The [maritalStatus] of the default resource: [M] and then [W]. *)
Lemma X20_first_coding_against_all_codings_witness :
  let e := CallMemberOf [MoreSamples.maritalStatus] MoreSamples.vitalSigns
             (fun output => Return output) in
  (exists v, FirstCoding.evaluateFhirpathAsync e = Some (Normal [VBool true], v)) /\
  (exists v, Logged.evaluateFhirpathAsync e = Some (Normal [VBool false], v)).
Proof.
  assert (Hfirst : isCoding MoreSamples.maritalStatusSystem "M" MoreSamples.married).
  { eexists. split; [reflexivity|]. split_ands; reflexivity. }
  assert (Hcc : isCodeableConcept [MoreSamples.married; MoreSamples.widowed]
                  MoreSamples.maritalStatus).
  { eexists. split; [reflexivity|]. split_ands; reflexivity. }
  exact (X20_first_coding_against_all_codings MoreSamples.married MoreSamples.widowed
           MoreSamples.maritalStatus [] [(MoreSamples.maritalStatusSystem ++ "|W")%string]
           Hfirst eq_refl Hcc).
Defined.

End AnswerRegistryFacts.
